(** * The decision-graph synchronisation engine of LocationDetailPage

    A shallow embedding of the client-side engine of
    [LocationDetailPage.jsx]: the in-memory graph, the reconciliation of
    fetched snapshots ([processGraphData]), the cascading delete
    ([deleteNode] / [getDescendants]), the save pipeline ([saveGraph]) with
    its timers, the connection handlers ([onConnect], [onConnectEnd]) and
    the durable cache ([loadGraphFromLocalStorage]).

    React state and refs are the fields of one record, [Component.t]; every
    handler is a function on it.  Timers started with [setTimeout] are kept
    in the component together with the time at which they become due, and
    an [await]ed remote write is a pending request that a later event
    completes.  Times and coordinates are integers ([Z]).  The id counter
    is a natural number ([N]) whose sums are rounded the way a JavaScript
    number rounds them ([toDouble]). *)

From Stdlib Require Import ZArith NArith List String Ascii Lia.
From Stdlib Require Import Decimal DecimalString DecimalN DecimalFacts.
From stdpp Require Import base option list gmap sets strings.

Local Open Scope Z_scope.
Local Set Warnings "-register-all".

(** ** JSON values, as [JSON.parse] returns them *)

Inductive Json :=
  | JNull
  | JBool (b : bool)
  | JNum (n : Z)
  | JStr (s : string)
  | JArr (items : list Json)
  | JObj (fields : list (string * Json)).

(** ** Data model *)

Record Position := { pos_x : Z; pos_y : Z }.

Record NodeData := {
  text : string;
  cost : string;
  completed : bool;
  isEditing : bool;
  label : string
}.

Module Node.
Record t := { id : string; type : string; position : Position; data : NodeData }.
End Node.

(** The two style objects an edge is given by the code. *)
Inductive EdgeStyle :=
  | StrokeSolid    (* { stroke: 'rgba(212, 175, 55, 0.6)', strokeWidth: 2 } *)
  | StrokeDashed.  (* { stroke: 'rgba(212, 175, 55, 0.2)', strokeWidth: 2, strokeDasharray: '5, 5' } *)

Record EdgeData := { edge_text : string; edge_completed : bool }.

Module Edge.
Record t := {
  id : string; source : string; target : string;
  data : EdgeData; animated : bool; style : EdgeStyle
}.
End Edge.

(** A snapshot as exchanged with the server and the cache.  A missing
    [nodes] or [edges] property is [None]. *)
Record GraphData := {
  gd_nodes : option (list Node.t);
  gd_edges : option (list Edge.t)
}.

Inductive SaveStatus := saved | saving | error.

(** ** Timers and pending remote writes *)

Inductive Callback :=
  | CbSaveGraph (immediate : bool) (retryCount : nat) (* () => saveGraph(immediate, retryCount) *)
  | CbTriggerSave                                     (* () => triggerSave() *)
  | CbTriggerImmediateSave                            (* () => triggerImmediateSave() *)
  | CbResumePolling.                                  (* () => { pollingPausedRef.current = false } *)

Record Timer := { timer_id : nat; fireAt : Z; callback : Callback }.

(** A [saveGraph] call suspended at [await fetch(...)]: its arguments,
    the body it has built, and the [location] of its closure, which is the
    one of the render that made this [saveGraph]. *)
Record PendingSave := {
  ps_immediate : bool;
  ps_retryCount : nat;
  ps_body : GraphData;
  ps_location : Json
}.

(** What a localStorage key holds: the text of a JSON value (kept as the
    value [JSON.parse] gives back for it), or a text that [JSON.parse]
    rejects. *)
Inductive StoredText :=
  | JsonText (v : Json)
  | BadText (raw : string).

Module Component.
Record t := {
    locationId : string;
    location : Json;
    nodes : list Node.t;
    edges : list Edge.t;
    nodeCounter : N;
    editingEdge : option string;
    connectingNodeId : option string;
    saveStatus : SaveStatus;
    hasUnsavedChanges : bool;
    lastSaveTimeRef : Z;
    saveTimeoutRef : option nat;
    isSavingRef : bool;
    editingNodesRef : gset string;
    editingEdgesRef : gset string;
    saveQueueRef : list (bool * nat);
    hasLoadedGraphRef : bool;
    pollingPausedRef : bool;
    timers : list Timer;
    timerSeq : nat;
    pending : list PendingSave;
    posted : list (Z * GraphData);
    localStorage : gmap string StoredText
}.
End Component.
Import Component.

(** Field updates. *)
Definition with_nodes (v : list Node.t) (s : Component.t) : Component.t :=
  let 'Build_t a1 a2 _ a4 a5 a6 a7 a8 a9 a10 a11 a12 a13 a14 a15 a16 a17 a18 a19 a20 a21 a22 := s in
  Build_t a1 a2 v a4 a5 a6 a7 a8 a9 a10 a11 a12 a13 a14 a15 a16 a17 a18 a19 a20 a21 a22.
Definition with_edges (v : list Edge.t) (s : Component.t) : Component.t :=
  let 'Build_t a1 a2 a3 _ a5 a6 a7 a8 a9 a10 a11 a12 a13 a14 a15 a16 a17 a18 a19 a20 a21 a22 := s in
  Build_t a1 a2 a3 v a5 a6 a7 a8 a9 a10 a11 a12 a13 a14 a15 a16 a17 a18 a19 a20 a21 a22.
Definition with_nodeCounter (v : N) (s : Component.t) : Component.t :=
  let 'Build_t a1 a2 a3 a4 _ a6 a7 a8 a9 a10 a11 a12 a13 a14 a15 a16 a17 a18 a19 a20 a21 a22 := s in
  Build_t a1 a2 a3 a4 v a6 a7 a8 a9 a10 a11 a12 a13 a14 a15 a16 a17 a18 a19 a20 a21 a22.
Definition with_editingEdge (v : option string) (s : Component.t) : Component.t :=
  let 'Build_t a1 a2 a3 a4 a5 _ a7 a8 a9 a10 a11 a12 a13 a14 a15 a16 a17 a18 a19 a20 a21 a22 := s in
  Build_t a1 a2 a3 a4 a5 v a7 a8 a9 a10 a11 a12 a13 a14 a15 a16 a17 a18 a19 a20 a21 a22.
Definition with_connectingNodeId (v : option string) (s : Component.t) : Component.t :=
  let 'Build_t a1 a2 a3 a4 a5 a6 _ a8 a9 a10 a11 a12 a13 a14 a15 a16 a17 a18 a19 a20 a21 a22 := s in
  Build_t a1 a2 a3 a4 a5 a6 v a8 a9 a10 a11 a12 a13 a14 a15 a16 a17 a18 a19 a20 a21 a22.
Definition with_saveStatus (v : SaveStatus) (s : Component.t) : Component.t :=
  let 'Build_t a1 a2 a3 a4 a5 a6 a7 _ a9 a10 a11 a12 a13 a14 a15 a16 a17 a18 a19 a20 a21 a22 := s in
  Build_t a1 a2 a3 a4 a5 a6 a7 v a9 a10 a11 a12 a13 a14 a15 a16 a17 a18 a19 a20 a21 a22.
Definition with_hasUnsavedChanges (v : bool) (s : Component.t) : Component.t :=
  let 'Build_t a1 a2 a3 a4 a5 a6 a7 a8 _ a10 a11 a12 a13 a14 a15 a16 a17 a18 a19 a20 a21 a22 := s in
  Build_t a1 a2 a3 a4 a5 a6 a7 a8 v a10 a11 a12 a13 a14 a15 a16 a17 a18 a19 a20 a21 a22.
Definition with_lastSaveTimeRef (v : Z) (s : Component.t) : Component.t :=
  let 'Build_t a1 a2 a3 a4 a5 a6 a7 a8 a9 _ a11 a12 a13 a14 a15 a16 a17 a18 a19 a20 a21 a22 := s in
  Build_t a1 a2 a3 a4 a5 a6 a7 a8 a9 v a11 a12 a13 a14 a15 a16 a17 a18 a19 a20 a21 a22.
Definition with_saveTimeoutRef (v : option nat) (s : Component.t) : Component.t :=
  let 'Build_t a1 a2 a3 a4 a5 a6 a7 a8 a9 a10 _ a12 a13 a14 a15 a16 a17 a18 a19 a20 a21 a22 := s in
  Build_t a1 a2 a3 a4 a5 a6 a7 a8 a9 a10 v a12 a13 a14 a15 a16 a17 a18 a19 a20 a21 a22.
Definition with_isSavingRef (v : bool) (s : Component.t) : Component.t :=
  let 'Build_t a1 a2 a3 a4 a5 a6 a7 a8 a9 a10 a11 _ a13 a14 a15 a16 a17 a18 a19 a20 a21 a22 := s in
  Build_t a1 a2 a3 a4 a5 a6 a7 a8 a9 a10 a11 v a13 a14 a15 a16 a17 a18 a19 a20 a21 a22.
Definition with_editingNodesRef (v : gset string) (s : Component.t) : Component.t :=
  let 'Build_t a1 a2 a3 a4 a5 a6 a7 a8 a9 a10 a11 a12 _ a14 a15 a16 a17 a18 a19 a20 a21 a22 := s in
  Build_t a1 a2 a3 a4 a5 a6 a7 a8 a9 a10 a11 a12 v a14 a15 a16 a17 a18 a19 a20 a21 a22.
Definition with_editingEdgesRef (v : gset string) (s : Component.t) : Component.t :=
  let 'Build_t a1 a2 a3 a4 a5 a6 a7 a8 a9 a10 a11 a12 a13 _ a15 a16 a17 a18 a19 a20 a21 a22 := s in
  Build_t a1 a2 a3 a4 a5 a6 a7 a8 a9 a10 a11 a12 a13 v a15 a16 a17 a18 a19 a20 a21 a22.
Definition with_saveQueueRef (v : list (bool * nat)) (s : Component.t) : Component.t :=
  let 'Build_t a1 a2 a3 a4 a5 a6 a7 a8 a9 a10 a11 a12 a13 a14 _ a16 a17 a18 a19 a20 a21 a22 := s in
  Build_t a1 a2 a3 a4 a5 a6 a7 a8 a9 a10 a11 a12 a13 a14 v a16 a17 a18 a19 a20 a21 a22.
Definition with_hasLoadedGraphRef (v : bool) (s : Component.t) : Component.t :=
  let 'Build_t a1 a2 a3 a4 a5 a6 a7 a8 a9 a10 a11 a12 a13 a14 a15 _ a17 a18 a19 a20 a21 a22 := s in
  Build_t a1 a2 a3 a4 a5 a6 a7 a8 a9 a10 a11 a12 a13 a14 a15 v a17 a18 a19 a20 a21 a22.
Definition with_pollingPausedRef (v : bool) (s : Component.t) : Component.t :=
  let 'Build_t a1 a2 a3 a4 a5 a6 a7 a8 a9 a10 a11 a12 a13 a14 a15 a16 _ a18 a19 a20 a21 a22 := s in
  Build_t a1 a2 a3 a4 a5 a6 a7 a8 a9 a10 a11 a12 a13 a14 a15 a16 v a18 a19 a20 a21 a22.
Definition with_timers (v : list Timer) (s : Component.t) : Component.t :=
  let 'Build_t a1 a2 a3 a4 a5 a6 a7 a8 a9 a10 a11 a12 a13 a14 a15 a16 a17 _ a19 a20 a21 a22 := s in
  Build_t a1 a2 a3 a4 a5 a6 a7 a8 a9 a10 a11 a12 a13 a14 a15 a16 a17 v a19 a20 a21 a22.
Definition with_timerSeq (v : nat) (s : Component.t) : Component.t :=
  let 'Build_t a1 a2 a3 a4 a5 a6 a7 a8 a9 a10 a11 a12 a13 a14 a15 a16 a17 a18 _ a20 a21 a22 := s in
  Build_t a1 a2 a3 a4 a5 a6 a7 a8 a9 a10 a11 a12 a13 a14 a15 a16 a17 a18 v a20 a21 a22.
Definition with_pending (v : list PendingSave) (s : Component.t) : Component.t :=
  let 'Build_t a1 a2 a3 a4 a5 a6 a7 a8 a9 a10 a11 a12 a13 a14 a15 a16 a17 a18 a19 _ a21 a22 := s in
  Build_t a1 a2 a3 a4 a5 a6 a7 a8 a9 a10 a11 a12 a13 a14 a15 a16 a17 a18 a19 v a21 a22.
Definition with_posted (v : list (Z * GraphData)) (s : Component.t) : Component.t :=
  let 'Build_t a1 a2 a3 a4 a5 a6 a7 a8 a9 a10 a11 a12 a13 a14 a15 a16 a17 a18 a19 a20 _ a22 := s in
  Build_t a1 a2 a3 a4 a5 a6 a7 a8 a9 a10 a11 a12 a13 a14 a15 a16 a17 a18 a19 a20 v a22.
Definition with_localStorage (v : gmap string StoredText) (s : Component.t) : Component.t :=
  let 'Build_t a1 a2 a3 a4 a5 a6 a7 a8 a9 a10 a11 a12 a13 a14 a15 a16 a17 a18 a19 a20 a21 _ := s in
  Build_t a1 a2 a3 a4 a5 a6 a7 a8 a9 a10 a11 a12 a13 a14 a15 a16 a17 a18 a19 a20 a21 v.

(** The component as first mounted for a location: every [useState] and
    [useRef] at its initial value. *)
Definition mount (locId : string) : Component.t :=
  {| locationId := locId; location := JNull;
     nodes := []; edges := []; nodeCounter := 0%N;
     editingEdge := None; connectingNodeId := None;
     saveStatus := saved; hasUnsavedChanges := false;
     lastSaveTimeRef := 0; saveTimeoutRef := None; isSavingRef := false;
     editingNodesRef := ∅; editingEdgesRef := ∅;
     saveQueueRef := []; hasLoadedGraphRef := false; pollingPausedRef := false;
     timers := []; timerSeq := 0%nat; pending := []; posted := [];
     localStorage := ∅ |}.

(** ** Timers *)

Definition setTimeout (cb : Callback) (delay : Z) (now : Z) (s : Component.t)
  : nat * Component.t :=
  let tid := timerSeq s in
  let tm := {| timer_id := tid; fireAt := now + delay; callback := cb |} in
  (tid, with_timerSeq (S tid) (with_timers (timers s ++ [tm]) s)).

Definition clearTimeout (tid : nat) (s : Component.t) : Component.t :=
  with_timers (filter (λ tm, timer_id tm ≠ tid) (timers s)) s.

(** ** Numbers of the id counter *)

(** JavaScript numbers are doubles: an integer is held exactly up to
    [2^53], and beyond that only with 53 significant bits.  [toDouble n]
    is the double nearest to the integer [n], the one with the even
    mantissa when two are equally near.  Overflow to [Infinity], which
    takes an integer of 309 digits, is not modelled. *)
Definition toDouble (n : N) : N :=
  if (n <? 2 ^ 53)%N then n
  else
    let e := (N.log2 n - 52)%N in
    let q := N.shiftr n e in
    let r := N.land n (N.ones e) in
    let half := N.shiftl 1 (e - 1) in
    let q' := if (half <? r)%N || ((r =? half)%N && N.odd q) then (q + 1)%N else q in
    N.shiftl q' e.

(** [x + 1] on numbers. *)
Definition plusOne (x : N) : N := toDouble (x + 1).

(** ** Node ids: [`node-${nodeCounter}`] and [id.match(/node-(\d+)/)] *)

Definition decimal (n : N) : string := NilEmpty.string_of_uint (N.to_uint n).

(** The template literal prints a counter up to [2^53] with all its
    decimal digits, as [decimal] does.  (Larger numbers are printed by
    JavaScript with their shortest digits that read back, padded with
    zeros, and from [1e21] with an exponent; the counter is not followed
    there.) *)
Definition nodeIdOf (counter : N) : string := "node-" +:+ decimal counter.

Definition isDigit (c : ascii) : bool :=
  (48 <=? nat_of_ascii c)%nat && (nat_of_ascii c <=? 57)%nat.

Definition digitValue (c : ascii) : N := N.of_nat (nat_of_ascii c - 48).

Fixpoint takeDigits (s : string) : string :=
  match s with
  | String c r => if isDigit c then String c (takeDigits r) else EmptyString
  | EmptyString => EmptyString
  end.

Fixpoint dropPrefix (p s : string) : option string :=
  match p, s with
  | EmptyString, _ => Some s
  | String a p', String b s' => if Ascii.eqb a b then dropPrefix p' s' else None
  | String _ _, EmptyString => None
  end.

(** The digits captured by [/node-(\d+)/] at the start of [s], if the
    pattern matches there. *)
Definition matchHere (s : string) : option string :=
  match dropPrefix "node-" s with
  | Some r => match takeDigits r with
              | EmptyString => None
              | ds => Some ds
              end
  | None => None
  end.

(** [s.match(/node-(\d+)/)]: the capture of the leftmost match. *)
Fixpoint matchNodeId (s : string) : option string :=
  match matchHere s with
  | Some ds => Some ds
  | None => match s with
            | String _ r => matchNodeId r
            | EmptyString => None
            end
  end.

Fixpoint parseDigits (acc : N) (s : string) : N :=
  match s with
  | EmptyString => acc
  | String c r => parseDigits (acc * 10 + digitValue c) r
  end.

(** [parseInt] on a string of decimal digits: the number nearest to the
    integer that the digits spell (for up to 20 digits; beyond that an
    engine may drop digits before it rounds). *)
Definition parseInt (s : string) : N := toDouble (parseDigits 0 s).

(** [match ? parseInt(match[1]) : 0] *)
Definition idNumber (id : string) : N :=
  match matchNodeId id with
  | Some ds => parseInt ds
  | None => 0%N
  end.

(** The number that the digits captured from [id] spell, counted
    exactly, and 0 when the pattern does not match: the numeric suffix of
    an id. *)
Definition suffixOf (id : string) : N :=
  match matchNodeId id with
  | Some ds => parseDigits 0 ds
  | None => 0%N
  end.

(** [Math.max(...l)] for a non-empty list of non-negative numbers. *)
Definition Math_max (l : list N) : N := foldr N.max 0%N l.

(** ** Reconciliation: [processGraphData] *)

Definition setIsEditing (b : bool) (n : Node.t) : Node.t :=
  let d := Node.data n in
  {| Node.id := Node.id n; Node.type := Node.type n; Node.position := Node.position n;
     Node.data := {| text := text d; cost := cost d; completed := completed d;
                     isEditing := b; label := label d |} |}.

(** [{...node, data: {...node.data, isEditing: false, <callbacks>}}] *)
Definition decorateNode (node : Node.t) : Node.t := setIsEditing false node.

Definition decorateEdge (edge : Edge.t) : Edge.t :=
  {| Edge.id := Edge.id edge; Edge.source := Edge.source edge;
     Edge.target := Edge.target edge; Edge.data := Edge.data edge;
     Edge.animated := false;
     Edge.style := if edge_completed (Edge.data edge) then StrokeDashed else StrokeSolid |}.

Definition isRoot (n : Node.t) : bool := bool_decide (Node.id n = "root").

Definition consRoot (rootNode : option Node.t) (l : list Node.t) : list Node.t :=
  match rootNode with
  | Some r => r :: l
  | None => l
  end.

(** The [setNodes] updater of [processGraphData]. *)
Definition processNodes (loadedNodes : list Node.t) (isFromLocalStorage : bool)
    (s : Component.t) : Component.t :=
  let prev := nodes s in
  let rootNode := List.find isRoot prev in
  if (length prev <=? 1)%nat || isFromLocalStorage then
    let s1 :=
      if (0 <? length loadedNodes)%nat then
        let maxCounter := Math_max ((λ n, idNumber (Node.id n)) <$> loadedNodes) in
        with_nodeCounter (plusOne maxCounter) s
      else s in
    let s2 :=
      if negb (hasLoadedGraphRef s1) && (0 <? length loadedNodes)%nat
      then with_hasLoadedGraphRef true s1 else s1 in
    with_nodes (consRoot rootNode loadedNodes) s2
  else
    let editingNodes :=
      filter (λ n, Node.id n ≠ "root" ∧ Node.id n ∈ editingNodesRef s) prev in
    let result :=
      filter (λ n, Node.id n ∉ editingNodesRef s) loadedNodes ++ editingNodes in
    with_nodes (consRoot rootNode result) s.

(** The [setEdges] updater of [processGraphData]. *)
Definition processEdges (loadedEdges : list Edge.t) (isFromLocalStorage : bool)
    (s : Component.t) : Component.t :=
  let prev := edges s in
  if (length prev =? 0)%nat || isFromLocalStorage then
    with_edges loadedEdges s
  else
    let editingEdges := filter (λ e, Edge.id e ∈ editingEdgesRef s) prev in
    let result :=
      filter (λ e, Edge.id e ∉ editingEdgesRef s) loadedEdges ++ editingEdges in
    with_edges result s.

(** [graphData] is [None] for a null/undefined argument. *)
Definition processGraphData (graphData : option GraphData) (isFromLocalStorage : bool)
    (s : Component.t) : Component.t :=
  match graphData with
  | Some {| gd_nodes := Some gnodes; gd_edges := Some gedges |} =>
      let loadedNodes := decorateNode <$> gnodes in
      let loadedEdges := decorateEdge <$> gedges in
      processEdges loadedEdges isFromLocalStorage
        (processNodes loadedNodes isFromLocalStorage s)
  | _ => s
  end.

(** ** Editing tracker *)

Definition mapNode (nodeId : string) (f : Node.t → Node.t) (l : list Node.t)
  : list Node.t :=
  (λ node, if bool_decide (Node.id node = nodeId) then f node else node) <$> l.

Definition setText (v : string) (n : Node.t) : Node.t :=
  let d := Node.data n in
  {| Node.id := Node.id n; Node.type := Node.type n; Node.position := Node.position n;
     Node.data := {| text := v; cost := cost d; completed := completed d;
                     isEditing := isEditing d; label := label d |} |}.

Definition setLabel (v : string) (n : Node.t) : Node.t :=
  let d := Node.data n in
  {| Node.id := Node.id n; Node.type := Node.type n; Node.position := Node.position n;
     Node.data := {| text := text d; cost := cost d; completed := completed d;
                     isEditing := isEditing d; label := v |} |}.

Definition updateNodeText (nodeId : string) (v : string) (s : Component.t)
  : Component.t :=
  with_nodes
    (mapNode nodeId (λ node, if isRoot node then setLabel v node else setText v node)
       (nodes s)) s.

Definition startEditingNode (nodeId : string) (s : Component.t) : Component.t :=
  let s1 :=
    match saveTimeoutRef s with
    | Some tid => with_saveTimeoutRef None (clearTimeout tid s)
    | None => s
    end in
  let s2 := with_editingNodesRef ({[ nodeId ]} ∪ editingNodesRef s1) s1 in
  with_nodes (mapNode nodeId (setIsEditing true) (nodes s2)) s2.

Definition endEditingNode (now : Z) (nodeId : string) (s : Component.t)
  : Component.t :=
  let s1 := with_editingNodesRef (editingNodesRef s ∖ {[ nodeId ]}) s in
  let s2 := with_nodes (mapNode nodeId (setIsEditing false) (nodes s1)) s1 in
  snd (setTimeout CbTriggerSave 200 now s2).

Definition onEdgeDoubleClick (edgeId : string) (s : Component.t) : Component.t :=
  with_editingEdge (Some edgeId)
    (with_editingEdgesRef ({[ edgeId ]} ∪ editingEdgesRef s) s).

(** [editingNodesRef.current.size > 0 || editingEdgesRef.current.size > 0] *)
Definition hasActiveEdits (s : Component.t) : bool :=
  (0 <? size (editingNodesRef s))%nat || (0 <? size (editingEdgesRef s))%nat.

(** ** Save scheduler: [saveGraph] *)

Definition persistNode (node : Node.t) : Node.t :=
  let d := Node.data node in
  {| Node.id := Node.id node; Node.type := Node.type node;
     Node.position := Node.position node;
     Node.data := {| text := text d; cost := cost d; completed := completed d;
                     isEditing := false; label := "" |} |}.

Definition persistEdge (edge : Edge.t) : Edge.t :=
  {| Edge.id := Edge.id edge; Edge.source := Edge.source edge;
     Edge.target := Edge.target edge; Edge.data := Edge.data edge;
     Edge.animated := false; Edge.style := StrokeSolid |}.

(** The request body: every node but the root, and every edge. *)
Definition buildGraphData (s : Component.t) : GraphData :=
  {| gd_nodes := Some (persistNode <$> filter (λ n, Node.id n ≠ "root") (nodes s));
     gd_edges := Some (persistEdge <$> edges s) |}.

Definition clearPendingTimeout (s : Component.t) : Component.t :=
  match saveTimeoutRef s with
  | Some tid => with_saveTimeoutRef None (clearTimeout tid s)
  | None => s
  end.

(** The body of [saveGraph] from [isSavingRef.current = true] to the
    [await fetch(...)]: the remote write is issued, logged in [posted]
    (newest first) and left in [pending] until its response arrives. *)
Definition startWrite (now : Z) (immediate : bool) (retryCount : nat)
    (s : Component.t) : Component.t :=
  let graphData := buildGraphData s in
  let s2 := with_isSavingRef true s in
  let s3 := with_saveStatus saving s2 in
  let s4 := with_hasUnsavedChanges false s3 in
  let s5 := with_pollingPausedRef true s4 in
  let s6 := with_posted ((now, graphData) :: posted s5) s5 in
  with_pending
    (pending s6 ++ [{| ps_immediate := immediate; ps_retryCount := retryCount;
                       ps_body := graphData; ps_location := location s |}]) s6.

(** [saveGraph(immediate, retryCount)] up to its [await fetch(...)]: the
    call either returns early (queued, deferred or throttled) or issues the
    remote write.  Called through [saveGraphRef], as [triggerSave] and
    [triggerImmediateSave] do, it is the [saveGraph] of the last render and
    reads the node and edge lists of the component. *)
Definition saveGraph (now : Z) (immediate : bool) (retryCount : nat)
    (s : Component.t) : Component.t :=
  if isSavingRef s && negb immediate then
    with_saveQueueRef (saveQueueRef s ++ [(immediate, retryCount)]) s
  else
    let s1 := clearPendingTimeout s in
    if negb immediate && hasActiveEdits s1 then
      let '(tid, s2) := setTimeout (CbSaveGraph false 0) 2000 now s1 in
      with_saveTimeoutRef (Some tid) s2
    else
      let timeSinceLastSave := now - lastSaveTimeRef s1 in
      if negb immediate && (timeSinceLastSave <? 1000) then
        let '(tid, s2) :=
          setTimeout (CbSaveGraph false 0) (1000 - timeSinceLastSave) now s1 in
        with_saveTimeoutRef (Some tid) s2
      else startWrite now immediate retryCount s1.

Definition encodePosition (p : Position) : Json :=
  JObj [("x", JNum (pos_x p)); ("y", JNum (pos_y p))].

Definition encodeNode (n : Node.t) : Json :=
  JObj [("id", JStr (Node.id n)); ("type", JStr (Node.type n));
        ("position", encodePosition (Node.position n));
        ("data", JObj [("text", JStr (text (Node.data n)));
                       ("cost", JStr (cost (Node.data n)));
                       ("completed", JBool (completed (Node.data n)))])].

Definition encodeEdge (e : Edge.t) : Json :=
  JObj [("id", JStr (Edge.id e)); ("source", JStr (Edge.source e));
        ("target", JStr (Edge.target e));
        ("data", JObj [("text", JStr (edge_text (Edge.data e)));
                       ("completed", JBool (edge_completed (Edge.data e)))])].

Definition encodeGraph (g : GraphData) : Json :=
  JObj [("nodes", JArr (encodeNode <$> default [] (gd_nodes g)));
        ("edges", JArr (encodeEdge <$> default [] (gd_edges g)))].

Definition getLocalStorageKey (locId : string) : string := "graph_" +:+ locId.

Definition saveGraphToLocalStorage (graphData : Json) (locData : Json) (now : Z)
    (s : Component.t) : Component.t :=
  let storageData :=
    JObj [("location", locData); ("graph", graphData); ("timestamp", JNum now)] in
  with_localStorage
    (<[ getLocalStorageKey (locationId s) := JsonText storageData ]> (localStorage s)) s.

(** The [finally] block of [saveGraph]. *)
Definition saveFinally (now : Z) (s : Component.t) : Component.t :=
  snd (setTimeout CbResumePolling 1000 now (with_isSavingRef false s)).

(** The rest of a [saveGraph] call once its remote write has answered:
    [ok] is [response.ok]; a rejected [fetch] is [ok = false] as well. *)
Definition saveGraphResume (now : Z) (p : PendingSave) (ok : bool)
    (s : Component.t) : Component.t :=
  if ok then
    let s1 := saveGraphToLocalStorage (encodeGraph (ps_body p)) (ps_location p) now s in
    let s2 := with_lastSaveTimeRef now s1 in
    let s3 := with_saveStatus saved s2 in
    let s4 :=
      match saveQueueRef s3 with
      | queued :: rest =>
          snd (setTimeout (CbSaveGraph (fst queued) (snd queued)) 100 now
                 (with_saveQueueRef rest s3))
      | [] => s3
      end in
    saveFinally now s4
  else
    let s1 := with_saveStatus error s in
    let s2 :=
      if ps_immediate p && (ps_retryCount p <? 3)%nat then
        snd (setTimeout (CbSaveGraph true (ps_retryCount p + 1))
               (1000 * (Z.of_nat (ps_retryCount p) + 1)) now s1)
      else with_hasUnsavedChanges true s1 in
    saveFinally now s2.

(** The response to the [k]-th pending remote write arrives. *)
Definition respond (now : Z) (k : nat) (ok : bool) (s : Component.t) : Component.t :=
  match pending s !! k with
  | Some p => saveGraphResume now p ok (with_pending (delete k (pending s)) s)
  | None => s
  end.

(** A timer callback runs.  [triggerSave] and [triggerImmediateSave] go
    through [saveGraphRef] and read the lists of the component as they are
    then.  The callbacks [() => saveGraph(...)] that [saveGraph] sets for
    itself belong to the render that set them and carry its lists; here
    they read the lists of the component as well, which are the same for as
    long as no handler has changed them in between. *)
Definition runCallback (now : Z) (cb : Callback) (s : Component.t) : Component.t :=
  match cb with
  | CbSaveGraph immediate retryCount => saveGraph now immediate retryCount s
  | CbTriggerSave => saveGraph now false 0 s
  | CbTriggerImmediateSave => saveGraph now true 0 s
  | CbResumePolling => with_pollingPausedRef false s
  end.

(** Timer [tid] fires: possible once it is due, and only while it has not
    been cleared. *)
Definition fireTimer (now : Z) (tid : nat) (s : Component.t) : Component.t :=
  match List.find (λ tm, Nat.eqb (timer_id tm) tid) (timers s) with
  | Some tm =>
      if fireAt tm <=? now then runCallback now (callback tm) (clearTimeout tid s)
      else s
  | None => s
  end.

(** ** Cascading delete: [getDescendants] and [deleteNode] *)

(** [currentEdges.filter(e => e.source === id).map(e => e.target)] *)
Definition childrenOf (id : string) (currentEdges : list Edge.t) : list string :=
  Edge.target <$> filter (λ e, Edge.source e = id) currentEdges.

(** [children.forEach(childId => descendants.push(...walk(childId)))];
    [None] when a recursive call does not return. *)
Fixpoint pushEach (walk : string → option (list string)) (children : list string)
    (descendants : list string) : option (list string) :=
  match children with
  | [] => Some descendants
  | childId :: rest =>
      match walk childId with
      | Some d => pushEach walk rest (descendants ++ d)
      | None => None
      end
  end.

(** The recursion of [getDescendants] is not structural: [fuel] bounds its
    depth, and [None] stands for a walk that is still running when the
    fuel is spent. *)
Fixpoint getDescendants (fuel : nat) (id : string) (currentEdges : list Edge.t)
  : option (list string) :=
  match fuel with
  | O => None
  | S fuel' =>
      let children := childrenOf id currentEdges in
      pushEach (λ childId, getDescendants fuel' childId currentEdges) children children
  end.

(** [confirmed] is the answer to [window.confirm]. *)
Definition deleteNode (fuel : nat) (confirmed : bool) (now : Z) (nodeId : string)
    (s : Component.t) : option Component.t :=
  if negb confirmed then Some s
  else
    match getDescendants fuel nodeId (edges s) with
    | None => None
    | Some descendants =>
        let toDelete := nodeId :: descendants in
        let s1 := with_nodes (filter (λ node, Node.id node ∉ toDelete) (nodes s)) s in
        let s2 :=
          with_edges
            (filter (λ edge, (Edge.source edge ∉ toDelete) ∧ (Edge.target edge ∉ toDelete))
               (edges s1)) s1 in
        let s3 := with_hasUnsavedChanges true s2 in
        Some (snd (setTimeout CbTriggerImmediateSave 300 now s3))
    end.

(** ** Connection builder: [onConnectStart], [onConnect], [onConnectEnd] *)

Definition blankData : NodeData :=
  {| text := ""; cost := ""; completed := false; isEditing := false; label := "" |}.

Definition newEdgeBetween (sourceId newNodeId : string) : Edge.t :=
  {| Edge.id := "edge-" +:+ sourceId +:+ "-" +:+ newNodeId;
     Edge.source := sourceId; Edge.target := newNodeId;
     Edge.data := {| edge_text := ""; edge_completed := false |};
     Edge.animated := false; Edge.style := StrokeSolid |}.

Definition onConnectStart (nodeId : option string) (s : Component.t) : Component.t :=
  with_connectingNodeId nodeId s.

(** [connectionSource] is [connection.source]; no other field of the
    connection is read. *)
Definition onConnect (connectionSource : string) (s : Component.t) : Component.t :=
  let newNodeId := nodeIdOf (nodeCounter s) in
  let s1 := with_nodeCounter (plusOne (nodeCounter s)) s in
  match List.find (λ n, bool_decide (Node.id n = connectionSource)) (nodes s) with
  | None => s1
  | Some sourceNode =>
      let childrenCount :=
        length (filter (λ e, Edge.source e = connectionSource) (edges s)) in
      let newNode :=
        {| Node.id := newNodeId; Node.type := "outcomeNode";
           Node.position :=
             {| pos_x := (pos_x (Node.position sourceNode)
                          + Z.of_nat childrenCount * 220 - 100);
                pos_y := (pos_y (Node.position sourceNode) + 200) |};
           Node.data := blankData |} in
      let newEdge := newEdgeBetween connectionSource newNodeId in
      with_edges (edges s1 ++ [newEdge]) (with_nodes (nodes s1 ++ [newNode]) s1)
  end.

(** What the handler reads of a DOM element. *)
Record Element := {
  insideNode : bool;  (* closest('.react-flow__node') is not null *)
  isHandle : bool     (* classList.contains('react-flow__handle') *)
}.

Record ConnectEndEvent := {
  isTouchEnd : bool;                  (* event.type === 'touchend' *)
  changedTouch : option (Z * Z);      (* event.changedTouches?.[0]: clientX, clientY *)
  client : Z * Z;                     (* event.clientX, event.clientY *)
  eventTarget : option Element;       (* event.target *)
  elementFromPoint : option Element   (* document.elementFromPoint(clientX, clientY) *)
}.

Record Canvas := {
  wrapperBounds : option (Z * Z);     (* reactFlowWrapper.current: left, top of its rect *)
  project : Z * Z → Position          (* React Flow's project *)
}.

(** [triggerSave()] runs the [saveGraph] of the last render, which reads
    the node and edge lists as they were before the pending [setNodes] and
    [setEdges]; hence the save call comes first. *)
Definition onConnectEnd (now : Z) (canvas : Canvas) (event : ConnectEndEvent)
    (s : Component.t) : Component.t :=
  let sourceNodeId := connectingNodeId s in
  let s0 := with_connectingNodeId None s in
  match sourceNodeId with
  | None => s0
  | Some EmptyString => s0
  | Some sourceId =>
      match (if isTouchEnd event then changedTouch event else Some (client event)) with
      | None => s0
      | Some (clientX, clientY) =>
          let targetElement :=
            if isTouchEnd event then elementFromPoint event else eventTarget event in
          let targetIsNode := from_option insideNode false targetElement in
          let targetIsHandle := from_option isHandle false targetElement in
          match (if negb targetIsNode && negb targetIsHandle
                 then wrapperBounds canvas else None) with
          | None => s0
          | Some (boundsLeft, boundsTop) =>
              let position :=
                project canvas (clientX - boundsLeft, clientY - boundsTop) in
              let newNodeId := nodeIdOf (nodeCounter s0) in
              let newNode :=
                {| Node.id := newNodeId; Node.type := "outcomeNode";
                   Node.position := position; Node.data := blankData |} in
              let newEdge := newEdgeBetween sourceId newNodeId in
              let s1 := saveGraph now false 0 s0 in
              let s2 := with_nodes (nodes s1 ++ [newNode]) s1 in
              let s3 := with_edges (edges s2 ++ [newEdge]) s2 in
              with_nodeCounter (plusOne (nodeCounter s3)) s3
          end
      end
  end.

(** ** Durable cache: [loadGraphFromLocalStorage] *)

Definition getProp (k : string) (v : Json) : option Json :=
  match v with
  | JObj fields => snd <$> List.find (λ kv, String.eqb (fst kv) k) fields
  | _ => None
  end.

Section LocalCache.

(** JavaScript's numeric conversion of a string, an array or an object;
    [None] is NaN. *)
Variable ToNumberOther : Json → option Z.

(** [undefined] is [None]. *)
Definition ToNumber (v : option Json) : option Z :=
  match v with
  | None => None
  | Some JNull => Some 0
  | Some (JBool b) => Some (if b then 1 else 0)
  | Some (JNum n) => Some n
  | Some other => ToNumberOther other
  end.

(** Returns the cached data ([None] for [null]) and the component with
    its storage as the call leaves it.  The [catch] branch is taken when
    [JSON.parse] rejects the text and when the parsed value is [null]
    (reading [data.timestamp] throws). *)
Definition loadGraphFromLocalStorage (now : Z) (s : Component.t)
  : option Json * Component.t :=
  let key := getLocalStorageKey (locationId s) in
  match localStorage s !! key with
  | None => (None, s)
  | Some (BadText _) => (None, s)
  | Some (JsonText JNull) => (None, s)
  | Some (JsonText data) =>
      match ToNumber (getProp "timestamp" data) with
      | Some timestamp =>
          let age := now - timestamp in
          if age <? 24 * 60 * 60 * 1000 then (Some data, s)
          else (None, with_localStorage (delete key (localStorage s)) s)
      | None => (None, with_localStorage (delete key (localStorage s)) s)
      end
  end.

End LocalCache.

(** ** Events *)

(** What can happen to a mounted component: a handler is called, a timer
    fires, or a pending remote write answers. *)
Inductive Event :=
  | EvTriggerSave
  | EvTriggerImmediateSave
  | EvTimer (tid : nat)
  | EvResponse (k : nat) (ok : bool)
  | EvStartEditingNode (nodeId : string)
  | EvEndEditingNode (nodeId : string)
  | EvUpdateNodeText (nodeId : string) (v : string)
  | EvEdgeDoubleClick (edgeId : string)
  | EvFetched (graph : option GraphData)
  | EvConnectStart (nodeId : option string)
  | EvConnect (connectionSource : string)
  | EvConnectEnd (canvas : Canvas) (event : ConnectEndEvent).

Definition step (now : Z) (ev : Event) (s : Component.t) : Component.t :=
  match ev with
  | EvTriggerSave => saveGraph now false 0 s
  | EvTriggerImmediateSave => saveGraph now true 0 s
  | EvTimer tid => fireTimer now tid s
  | EvResponse k ok => respond now k ok s
  | EvStartEditingNode nodeId => startEditingNode nodeId s
  | EvEndEditingNode nodeId => endEditingNode now nodeId s
  | EvUpdateNodeText nodeId v => updateNodeText nodeId v s
  | EvEdgeDoubleClick edgeId => onEdgeDoubleClick edgeId s
  | EvFetched graph => processGraphData graph false s
  | EvConnectStart nodeId => onConnectStart nodeId s
  | EvConnect connectionSource => onConnect connectionSource s
  | EvConnectEnd canvas event => onConnectEnd now canvas event s
  end.

(** A trace is a list of events with the time at which each happens. *)
Fixpoint run (trace : list (Z * Event)) (s : Component.t) : Component.t :=
  match trace with
  | [] => s
  | (now, ev) :: rest => run rest (step now ev s)
  end.

(** Times never go back, starting from [clock]. *)
Fixpoint timedFrom (clock : Z) (trace : list (Z * Event)) : bool :=
  match trace with
  | [] => true
  | (now, _) :: rest => (clock <=? now) && timedFrom now rest
  end.

(** ** Specification vocabulary *)

(** [reach es x y]: [y] is reached from [x] by one or more edges of [es],
    each followed from its source to its target. *)
Inductive reach (es : list Edge.t) : string → string → Prop :=
  | reach_child x y : y ∈ childrenOf x es → reach es x y
  | reach_step x c y : c ∈ childrenOf x es → reach es c y → reach es x y.

(** No cycle can be reached from [id] (nor passes through it). *)
Definition acyclicFrom (es : list Edge.t) (id : string) : Prop :=
  ∀ y, y = id ∨ reach es id y → ¬ reach es y y.

(** The ids a delete of [nodeId] is to remove. *)
Definition removedBy (es : list Edge.t) (nodeId : string) (x : string) : Prop :=
  x = nodeId ∨ reach es nodeId x.

(** A snapshot with both of its lists present. *)
Definition snapshot (ns : list Node.t) (es : list Edge.t) : option GraphData :=
  Some {| gd_nodes := Some ns; gd_edges := Some es |}.

(** The versions of an element that a list holds under one id. *)
Definition nodeVersions (id : string) (ns : list Node.t) : list Node.t :=
  filter (λ n, Node.id n = id) ns.




(** [s'] has the graph and the editing sets of [s]. *)
Definition sameGraph (s s' : Component.t) : Prop :=
  nodes s' = nodes s ∧ edges s' = edges s ∧ nodeCounter s' = nodeCounter s ∧
  editingNodesRef s' = editingNodesRef s ∧ editingEdgesRef s' = editingEdgesRef s.





(** Where and on what a connection gesture is released, as
    [onConnectEnd] reads it off the event. *)
Definition releasePoint (event : ConnectEndEvent) : option (Z * Z) :=
  if isTouchEnd event then changedTouch event else Some (client event).

Definition releaseTarget (event : ConnectEndEvent) : option Element :=
  if isTouchEnd event then elementFromPoint event else eventTarget event.

Definition onNodeOrHandle (event : ConnectEndEvent) : bool :=
  from_option insideNode false (releaseTarget event)
  || from_option isHandle false (releaseTarget event).

Definition outcomeNodeAt (id : string) (p : Position) : Node.t :=
  {| Node.id := id; Node.type := "outcomeNode"; Node.position := p;
     Node.data := blankData |}.

(** ** Vocabulary for the save scheduler and the cache *)

(** The times at which a remote write was issued, newest first. *)
Definition execTimes (s : Component.t) : list Z := fst <$> posted s.

(** Every entry is at least one second after all the entries behind it. *)
Fixpoint spaced (times : list Z) : Prop :=
  match times with
  | [] => True
  | t :: older => Forall (λ t', t' + 1000 ≤ t) older ∧ spaced older
  end.

Definition nonImmediateCallback (cb : Callback) : bool :=
  match cb with
  | CbSaveGraph true _ | CbTriggerImmediateSave => false
  | _ => true
  end.

(** Events other than an immediate save request and a failed write. *)
Definition throttledEvent (ev : Event) : bool :=
  match ev with
  | EvTriggerImmediateSave | EvResponse _ false => false
  | _ => true
  end.

(** No write in flight or logged, and nothing waiting that would save
    immediately. *)
Definition schedulerIdle (s : Component.t) : bool :=
  negb (isSavingRef s)
  && bool_decide (pending s = []) && bool_decide (posted s = [])
  && forallb (λ tm, nonImmediateCallback (callback tm)) (timers s)
  && forallb (λ q, negb (fst q)) (saveQueueRef s).

(** The invariant of the throttle at time [clock], while no write fails
    and no immediate save is asked for. *)
Definition Throttled (clock : Z) (s : Component.t) : Prop :=
  Forall (λ tm, nonImmediateCallback (callback tm) = true) (timers s) ∧
  Forall (λ q, fst q = false) (saveQueueRef s) ∧
  spaced (execTimes s) ∧
  (isSavingRef s = false →
   pending s = [] ∧ Forall (λ t, t ≤ lastSaveTimeRef s) (execTimes s)) ∧
  (isSavingRef s = true →
   ∃ p t older,
     pending s = [p] ∧ ps_immediate p = false ∧ execTimes s = t :: older ∧ t ≤ clock).

(** [s'] differs from [s] in no field the throttle depends on, except
    for timers that do not save immediately. *)
Definition schedulerUntouched (s s' : Component.t) : Prop :=
  isSavingRef s' = isSavingRef s ∧ pending s' = pending s ∧ posted s' = posted s ∧
  lastSaveTimeRef s' = lastSaveTimeRef s ∧ saveQueueRef s' = saveQueueRef s ∧
  ∀ tm, tm ∈ timers s' → tm ∈ timers s ∨ nonImmediateCallback (callback tm) = true.

(** Timer ids in use are below the next id. *)
Definition timersFresh (s : Component.t) : Prop :=
  Forall (λ tm, (timer_id tm < timerSeq s)%nat) (timers s).

(** The 24 hours of the cache, in milliseconds. *)
Definition dayMs : Z := 24 * 60 * 60 * 1000.

(** ** Sample data for the worked examples *)

Definition sampleNode (id : string) (v : string) : Node.t :=
  {| Node.id := id; Node.type := "outcomeNode";
     Node.position := {| pos_x := 0; pos_y := 0 |};
     Node.data := {| text := v; cost := ""; completed := false;
                     isEditing := false; label := "" |} |}.

Definition sampleRoot : Node.t :=
  {| Node.id := "root"; Node.type := "rootNode";
     Node.position := {| pos_x := 250; pos_y := 50 |}; Node.data := blankData |}.

Definition sampleStore (ns : list Node.t) (es : list Edge.t) : Component.t :=
  with_edges es (with_nodes ns (mount "7")).

(** A store with the root, one outcome node and the edge between them. *)
Definition smallStore : Component.t :=
  sampleStore [sampleRoot; sampleNode "node-1" "a"] [newEdgeBetween "root" "node-1"].

(** root -> node-1 -> node-2, root -> node-3 *)
Definition treeEdges : list Edge.t :=
  [newEdgeBetween "root" "node-1"; newEdgeBetween "node-1" "node-2";
   newEdgeBetween "root" "node-3"].

(** root -> node-1 -> node-2 -> node-1 *)
Definition loopEdges : list Edge.t :=
  [newEdgeBetween "root" "node-1"; newEdgeBetween "node-1" "node-2";
   newEdgeBetween "node-2" "node-1"].

Definition sampleCanvas : Canvas :=
  {| wrapperBounds := Some (100, 50);
     project := λ p, {| pos_x := p.1; pos_y := p.2 |} |}.

Definition mouseUpOn (target : option Element) (x y : Z) : ConnectEndEvent :=
  {| isTouchEnd := false; changedTouch := None; client := (x, y);
     eventTarget := target; elementFromPoint := None |}.

(** A time of day in milliseconds since the epoch. *)
Definition noon : Z := 1700000000000.

(** A component whose cache entry for its location is [item]. *)
Definition withCacheEntry (item : StoredText) (s : Component.t) : Component.t :=
  with_localStorage (<[ getLocalStorageKey (locationId s) := item ]> (localStorage s)) s.

Definition cachedAt (timestamp : Z) : Json :=
  JObj [("location", JNull);
        ("graph", encodeGraph {| gd_nodes := Some []; gd_edges := Some [] |});
        ("timestamp", JNum timestamp)].

(** * Further handlers of the component *)

(** ** [updateNodeCost] and [toggleNodeComplete] *)

Definition setCost (v : string) (n : Node.t) : Node.t :=
  let d := Node.data n in
  {| Node.id := Node.id n; Node.type := Node.type n; Node.position := Node.position n;
     Node.data := {| text := text d; cost := v; completed := completed d;
                     isEditing := isEditing d; label := label d |} |}.

Definition setCompleted (b : bool) (n : Node.t) : Node.t :=
  let d := Node.data n in
  {| Node.id := Node.id n; Node.type := Node.type n; Node.position := Node.position n;
     Node.data := {| text := text d; cost := cost d; completed := b;
                     isEditing := isEditing d; label := label d |} |}.

Definition updateNodeCost (now : Z) (nodeId : string) (v : string) (s : Component.t)
  : Component.t :=
  let s1 := with_nodes (mapNode nodeId (setCost v) (nodes s)) s in
  snd (setTimeout CbTriggerSave 200 now s1).

(** [triggerSave()] is called in the handler itself, before the pending
    [setNodes] is applied: the [saveGraph] it runs is the one of the last
    render and reads the node list as it was; hence the save call comes
    first. *)
Definition toggleNodeComplete (now : Z) (nodeId : string) (s : Component.t)
  : Component.t :=
  let s1 := saveGraph now false 0 s in
  with_nodes
    (mapNode nodeId (λ node, setCompleted (negb (completed (Node.data node))) node)
       (nodes s1)) s1.

(** ** Leaving the page: [handleBeforeUnload] *)


(** ** The guard of [fetchData] *)

(** Whether a poll tick goes on to fetch: not while a save is in flight
    or polling is paused, and not while an edit is active. *)
Definition fetchDataProceeds (s : Component.t) : bool :=
  negb (isSavingRef s || pollingPausedRef s) && negb (hasActiveEdits s).

(** ** Snapping in [handleNodesChange] *)

Definition SNAP_THRESHOLD : Z := 20.

(** A React Flow node change, with the fields the handler reads. *)
Record NodeChange := {
  change_id : string;
  change_type : string;
  change_position : option Position;
  change_dragging : bool
}.

(** The [for] loop over the nodes: the x of the first other node that is
    closer than the threshold, but not at the same x. *)
Fixpoint snapX (changeId : string) (x : Z) (ns : list Node.t) : option Z :=
  match ns with
  | [] => None
  | node :: rest =>
      if bool_decide (Node.id node ≠ changeId) then
        let xDiff := Z.abs (x - pos_x (Node.position node)) in
        if (xDiff <? SNAP_THRESHOLD) && (0 <? xDiff)
        then Some (pos_x (Node.position node))
        else snapX changeId x rest
      else snapX changeId x rest
  end.

(** One element of [modifiedChanges]. *)
Definition snapChange (ns : list Node.t) (change : NodeChange) : NodeChange :=
  match change_position change with
  | Some p =>
      if String.eqb (change_type change) "position" && change_dragging change then
        match snapX (change_id change) (pos_x p) ns with
        | Some x =>
            {| change_id := change_id change; change_type := change_type change;
               change_position := Some {| pos_x := x; pos_y := pos_y p |};
               change_dragging := change_dragging change |}
        | None => change
        end
      else change
  | None => change
  end.

(** [modifiedChanges.some(change => change.type === 'position' && !change.dragging)] *)
Definition dragEnded (changes : list NodeChange) : bool :=
  existsb (λ change, String.eqb (change_type change) "position"
                     && negb (change_dragging change)) changes.

Section NodesChange.

(** React Flow's [applyNodeChanges], which the [onNodesChange] of
    [useNodesState] applies to the node list. *)
Variable applyNodeChanges : list NodeChange → list Node.t → list Node.t.

(** [triggerSave()] runs the [saveGraph] of the last render, which reads
    the node list as it was before the pending update; hence the save call
    comes first. *)
Definition handleNodesChange (now : Z) (changes : list NodeChange) (s : Component.t)
  : Component.t :=
  let modifiedChanges := snapChange (nodes s) <$> changes in
  let s1 := if dragEnded modifiedChanges then saveGraph now false 0 s else s in
  with_nodes (applyNodeChanges modifiedChanges (nodes s1)) s1.

End NodesChange.

(** ** Further vocabulary *)

(** Every edge starts and ends at a node of the store. *)
Definition edgesAttached (s : Component.t) : Prop :=
  ∀ e : Edge.t, e ∈ edges s →
    Edge.source e ∈ (Node.id <$> nodes s) ∧ Edge.target e ∈ (Node.id <$> nodes s).


(** No timer that resumes polling is due before [t]. *)
Definition resumeNotBefore (t : Z) (s : Component.t) : Prop :=
  Forall (λ tm, callback tm = CbResumePolling → t ≤ fireAt tm) (timers s).

(** [s'] is paused if [s] is, and every timer of [s'] that resumes
    polling is either one of [s] or due at [T] or later. *)
Definition pauseKept (T : Z) (s s' : Component.t) : Prop :=
  (pollingPausedRef s = true → pollingPausedRef s' = true) ∧
  ∀ tm, tm ∈ timers s' →
        tm ∈ timers s ∨ callback tm ≠ CbResumePolling ∨ T ≤ fireAt tm.

(** Every event of the trace happens before [t]. *)
Definition allBefore (t : Z) (trace : list (Z * Event)) : bool :=
  forallb (λ te, te.1 <? t) trace.

(** The cache record that [saveGraphToLocalStorage] writes. *)
Definition cacheRecord (graphData locData : Json) (timestamp : Z) : Json :=
  JObj [("location", locData); ("graph", graphData); ("timestamp", JNum timestamp)].


(** ** Vocabulary for what happens while an edit is open *)

(** An open edit: of a node ([inl id]) or of an edge ([inr id]). *)
Definition editOpen (what : string + string) (s : Component.t) : Prop :=
  match what with
  | inl id => id ∈ editingNodesRef s
  | inr id => id ∈ editingEdgesRef s
  end.

(** Events that neither close the edit nor ask for an immediate save. *)
Definition duringEdit (what : string + string) (ev : Event) : bool :=
  match ev with
  | EvTriggerImmediateSave => false
  | EvEndEditingNode x =>
      match what with
      | inl id => bool_decide (x ≠ id)
      | inr _ => true
      end
  | _ => true
  end.

(** No write in flight, and no timer that would save immediately. *)
Definition noForcedSave (s : Component.t) : Prop :=
  isSavingRef s = false ∧ pending s = [] ∧
  Forall (λ tm, nonImmediateCallback (callback tm) = true) (timers s).

(** ** The CSRF token sent with a save: [getCSRFToken] *)

(** Strings stand for sequences of code units below 256; among these,
    the white space and line terminators that [trim] removes are the
    codes 9 to 13, 32 and 160. *)
Definition isWhiteSpace (c : ascii) : bool :=
  let n := nat_of_ascii c in
  ((9 <=? n)%nat && (n <=? 13)%nat) || (n =? 32)%nat || (n =? 160)%nat.

Fixpoint trimStart (s : string) : string :=
  match s with
  | String c r => if isWhiteSpace c then trimStart r else s
  | EmptyString => EmptyString
  end.

Fixpoint trimEnd (s : string) : string :=
  match s with
  | String c r =>
      match trimEnd r with
      | EmptyString => if isWhiteSpace c then EmptyString else String c EmptyString
      | r' => String c r'
      end
  | EmptyString => EmptyString
  end.

(** [s.trim()] *)
Definition trim (s : string) : string := trimEnd (trimStart s).

(** [s.split(sep)] for a separator of one character: the first piece and
    the pieces after it (the result of [split] is never empty). *)
Fixpoint splitOn (sep : ascii) (s : string) : string * list string :=
  match s with
  | String c r =>
      let '(piece, pieces) := splitOn sep r in
      if Ascii.eqb c sep then (EmptyString, piece :: pieces)
      else (String c piece, pieces)
  | EmptyString => (EmptyString, [])
  end.

Definition split (sep : ascii) (s : string) : list string :=
  let '(piece, pieces) := splitOn sep s in piece :: pieces.

(** The [for] loop of [getCSRFToken]; [None] is [undefined], the value
    of a cookie named [csrftoken] that has no [=]. *)
Fixpoint findToken (cookies : list string) : option string :=
  match cookies with
  | [] => Some EmptyString
  | cookie :: rest =>
      let '(name, more) := splitOn "=" (trim cookie) in
      if String.eqb name "csrftoken" then head more else findToken rest
  end.

(** [documentCookie] is [document.cookie]. *)
Definition getCSRFToken (documentCookie : string) : option string :=
  findToken (split ";" documentCookie).

(** A cookie string as the browser gives it: [name=value] pairs joined by
    a semicolon and a space. *)
Definition cookiePair (p : string * string) : string := p.1 +:+ "=" +:+ p.2.

Fixpoint cookieString (pairs : list (string * string)) : string :=
  match pairs with
  | [] => EmptyString
  | [p] => cookiePair p
  | p :: rest => cookiePair p +:+ "; " +:+ cookieString rest
  end.

(** No white space, semicolon or equals sign. *)
Fixpoint plain (s : string) : bool :=
  match s with
  | String c r =>
      negb (isWhiteSpace c) && negb (Ascii.eqb c ";") && negb (Ascii.eqb c "=") && plain r
  | EmptyString => true
  end.

(** No character of [s] is [sep]. *)
Definition freeOf (sep : ascii) (s : string) : Prop :=
  ∀ c, In c (list_ascii_of_string s) → c ≠ sep.

(** No character of [s] is white space. *)
Fixpoint solid (s : string) : bool :=
  match s with
  | String c r => negb (isWhiteSpace c) && solid r
  | EmptyString => true
  end.

(** Every character of [r] is one of [s]. *)
Definition charsWithin (r s : string) : Prop :=
  ∀ c, In c (list_ascii_of_string r) → In c (list_ascii_of_string s).

(** ** Timers set by a handler *)





(** * Properties *)

(** ** Cascading delete *)

Section Deletion.

Implicit Types (es : list Edge.t) (id x y c : string) (l acc : list string).

Lemma childrenOf_spec es x y :
  y ∈ childrenOf x es ↔ ∃ e, e ∈ es ∧ Edge.source e = x ∧ Edge.target e = y.
Proof.
  unfold childrenOf. rewrite list_elem_of_fmap. split.
  - intros (e & -> & He). apply list_elem_of_filter in He as [Hs He]. eauto.
  - intros (e & He & Hs & Ht). exists e. split; [done|].
    apply list_elem_of_filter. done.
Qed.

Lemma reach_snoc es x c y : reach es x c → y ∈ childrenOf c es → reach es x y.
Proof.
  induction 1 as [x c Hc | x d c Hd _ IH]; intros Hy.
  - eapply reach_step; [exact Hc|]. by apply reach_child.
  - eapply reach_step; [exact Hd|]. by apply IH.
Qed.

Lemma reach_trans es x y z : reach es x y → reach es y z → reach es x z.
Proof.
  induction 1 as [x y Hy | x c y Hc _ IH]; intros Hz.
  - by eapply reach_step.
  - eapply reach_step; [exact Hc|]. by apply IH.
Qed.

Lemma reach_first es x y :
  reach es x y → ∃ c, c ∈ childrenOf x es ∧ (c = y ∨ reach es c y).
Proof. destruct 1 as [x y Hy | x c y Hc Hr]; eauto. Qed.

(** *** The [forEach] loop *)

Lemma pushEach_Some walk cs acc r :
  pushEach walk cs acc = Some r →
  (∀ c, c ∈ cs → is_Some (walk c)) ∧
  (∀ y, y ∈ r ↔ y ∈ acc ∨ ∃ c d, c ∈ cs ∧ walk c = Some d ∧ y ∈ d).
Proof.
  revert acc. induction cs as [|c cs IH]; intros acc; simpl.
  - intros [= <-]. split.
    + intros c Hc. by apply elem_of_nil in Hc.
    + intros y. split; [by left|]. intros [H | (c & d & Hc & _)]; [done|].
      by apply elem_of_nil in Hc.
  - destruct (walk c) as [d|] eqn:Hw; [|done]. intros Hr.
    destruct (IH _ Hr) as [Hall Hmem]. split.
    + intros c' [-> | Hc']%elem_of_cons; [by rewrite Hw | by apply Hall].
    + intros y. rewrite Hmem, elem_of_app. split.
      * intros [[Hy | Hy] | (c' & d' & Hc' & Hw' & Hy)].
        -- by left.
        -- right. exists c, d. by rewrite elem_of_cons; auto.
        -- right. exists c', d'. by rewrite elem_of_cons; auto.
      * intros [Hy | (c' & d' & [-> | Hc']%elem_of_cons & Hw' & Hy)].
        -- by left; left.
        -- left; right. congruence.
        -- right. by exists c', d'.
Qed.

Lemma pushEach_is_Some walk cs acc :
  (∀ c, c ∈ cs → is_Some (walk c)) → is_Some (pushEach walk cs acc).
Proof.
  revert acc. induction cs as [|c cs IH]; intros acc Hall; simpl; [by eexists|].
  destruct (Hall c) as [d ->]; [by left|].
  apply IH. intros c' Hc'. apply Hall. by right.
Qed.

Lemma pushEach_None walk cs acc c :
  c ∈ cs → walk c = None → pushEach walk cs acc = None.
Proof.
  revert acc. induction cs as [|c' cs IH]; intros acc Hc Hw; simpl.
  - by apply elem_of_nil in Hc.
  - apply elem_of_cons in Hc as [-> | Hc]; [by rewrite Hw|].
    destruct (walk c'); [by apply IH | done].
Qed.

Lemma pushEach_ext walk1 walk2 cs acc :
  (∀ c d, c ∈ cs → walk1 c = Some d → walk2 c = Some d) →
  ∀ r, pushEach walk1 cs acc = Some r → pushEach walk2 cs acc = Some r.
Proof.
  revert acc. induction cs as [|c cs IH]; intros acc Hext r; simpl; [done|].
  destruct (walk1 c) as [d|] eqn:Hw; [|done].
  rewrite (Hext c d); [|by left|done].
  apply IH. intros c' d' Hc'. apply Hext. by right.
Qed.

(** *** The walk *)

(** More fuel never changes a result. *)
Lemma getDescendants_mono fuel fuel' id es l :
  getDescendants fuel id es = Some l → (fuel ≤ fuel')%nat →
  getDescendants fuel' id es = Some l.
Proof.
  revert fuel' id l. induction fuel as [|fuel IH]; intros fuel' id l; [done|].
  destruct fuel' as [|fuel']; [lia|]. simpl. intros Hl Hle.
  eapply pushEach_ext; [|exact Hl].
  intros c d _ Hd. apply IH; [done | lia].
Qed.

(** A walk that returns lists exactly the ids reachable from its start. *)
Lemma getDescendants_reach fuel id es l :
  getDescendants fuel id es = Some l → ∀ y, y ∈ l ↔ reach es id y.
Proof.
  revert id l. induction fuel as [|fuel IH]; intros id l; [done|]. simpl.
  intros Hl. apply pushEach_Some in Hl as [Hall Hmem]. intros y.
  rewrite Hmem. split.
  - intros [Hy | (c & d & Hc & Hd & Hy)]; [by apply reach_child|].
    eapply reach_step; [exact Hc|]. by apply (IH c d).
  - intros Hr. apply reach_first in Hr as (c & Hc & [-> | Hr]); [by left|].
    right. destruct (Hall c Hc) as [d Hd]. exists c, d.
    split; [done|]. split; [done|]. by apply (IH c d).
Qed.

(** A walk started on a cycle, or leading to one, never returns. *)
Lemma getDescendants_on_cycle es y :
  reach es y y → ∀ fuel, getDescendants fuel y es = None.
Proof.
  intros Hy fuel. revert y Hy. induction fuel as [|fuel IH]; intros y Hy; [done|].
  simpl. destruct (reach_first _ _ _ Hy) as (c & Hc & Hcy).
  apply (pushEach_None _ _ _ c); [done|]. apply IH.
  destruct Hcy as [-> | Hcy]; [done|]. by eapply reach_snoc.
Qed.

Lemma getDescendants_to_cycle es x y :
  reach es x y → (∀ fuel, getDescendants fuel y es = None) →
  ∀ fuel, getDescendants fuel x es = None.
Proof.
  induction 1 as [x y Hy | x c y Hc _ IH]; intros Hnone fuel.
  - destruct fuel as [|fuel]; [done|]. simpl.
    by apply (pushEach_None _ _ _ y).
  - destruct fuel as [|fuel]; [done|]. simpl.
    apply (pushEach_None _ _ _ c); [done|]. by apply IH.
Qed.

Lemma getDescendants_acyclic fuel id es l :
  getDescendants fuel id es = Some l → acyclicFrom es id.
Proof.
  intros Hl y Hy Hcyc.
  assert (∀ f, getDescendants f id es = None) as Hnone.
  { destruct Hy as [-> | Hy].
    - by apply getDescendants_on_cycle.
    - eapply getDescendants_to_cycle; [exact Hy|].
      by apply getDescendants_on_cycle. }
  by rewrite Hnone in Hl.
Qed.

Lemma acyclicFrom_child es x c :
  acyclicFrom es x → c ∈ childrenOf x es → acyclicFrom es c.
Proof.
  intros Hx Hc y Hy. apply Hx. right. destruct Hy as [-> | Hy].
  - by apply reach_child.
  - by eapply reach_step.
Qed.

(** The ancestors on the current path are distinct sources of edges, so an
    acyclic walk is never deeper than the number of edges. *)
Lemma getDescendants_depth es k (A : list string) x :
  NoDup A →
  (∀ a, a ∈ A → a ∈ (Edge.source <$> es) ∧ reach es a x) →
  (length es ≤ k + length A)%nat →
  acyclicFrom es x →
  is_Some (getDescendants (S k) x es).
Proof.
  revert A x. induction k as [|k IH]; intros A x HA Hanc Hlen Hacy; simpl;
    apply pushEach_is_Some; intros c Hc.
  all: assert (x ∈ (Edge.source <$> es)) as Hsrc
    by (apply childrenOf_spec in Hc as (e & He & <- & _);
        by apply list_elem_of_fmap_2).
  all: assert (x ∉ A) as HxA
    by (intros [_ Hr]%Hanc; apply (Hacy x); [by left | done]).
  all: assert (NoDup (x :: A)) as HA' by (by apply NoDup_cons).
  all: assert (∀ a, a ∈ x :: A → a ∈ (Edge.source <$> es)) as Hsub
    by (intros a [-> | Ha]%elem_of_cons; [done | by apply Hanc]).
  all: pose proof (submseteq_length _ _ (NoDup_submseteq _ _ HA' Hsub)) as Hpig;
    rewrite length_fmap in Hpig; simpl in Hpig.
  - lia.
  - apply (IH (x :: A) c); [done| |simpl; lia|by eapply acyclicFrom_child].
    intros a [-> | Ha]%elem_of_cons.
    + split; [done | by apply reach_child].
    + split; [by apply Hanc|]. eapply reach_snoc; [by apply Hanc | done].
Qed.

Lemma getDescendants_total es id :
  acyclicFrom es id →
  ∃ l, ∀ fuel, (length es < fuel)%nat → getDescendants fuel id es = Some l.
Proof.
  intros Hacy.
  destruct (getDescendants_depth es (length es) [] id) as [l Hl];
    [constructor | by intros a ?%elem_of_nil | simpl; lia | done |].
  exists l. intros fuel Hf. eapply getDescendants_mono; [exact Hl | lia].
Qed.

End Deletion.

(** ** Claims on the cascading delete *)

(** C10. The descendant walk of [deleteNode] returns a (finite) list for
    every start id from which no cycle of the edge list can be reached: a
    depth of one more than the number of edges is enough.  The
    precondition is needed: the walk has no visited set, and from a start
    id that reaches a cycle it never returns, whatever the depth allowed. *)
Theorem C10_getDescendants_returns_iff_acyclic (es : list Edge.t) (id : string) :
  (acyclicFrom es id →
   ∃ l, ∀ fuel, (length es < fuel)%nat → getDescendants fuel id es = Some l) ∧
  (¬ acyclicFrom es id → ∀ fuel, getDescendants fuel id es = None).
Proof.
  split.
  - apply getDescendants_total.
  - intros Hcyc fuel. destruct (getDescendants fuel id es) as [l|] eqn:Hl; [|done].
    destruct Hcyc. by eapply getDescendants_acyclic.
Qed.

Lemma C10_witness :
  (∃ l, ∀ fuel, (length treeEdges < fuel)%nat →
        getDescendants fuel "root" treeEdges = Some l) ∧
  (∀ fuel, getDescendants fuel "root" loopEdges = None).
Proof.
  split.
  - apply (proj1 (C10_getDescendants_returns_iff_acyclic treeEdges "root")).
    apply (getDescendants_acyclic 4 _ _ ["node-1"; "node-3"; "node-2"]).
    reflexivity.
  - apply (proj2 (C10_getDescendants_returns_iff_acyclic loopEdges "root")).
    intros Hacy. apply (Hacy "node-1").
    + right. apply reach_child. vm_compute. repeat constructor.
    + eapply reach_step; [|apply reach_child]; vm_compute; repeat constructor.
Defined.

Lemma removed_filter_root (toDelete : list string) (ns : list Node.t) :
  "root" ∉ toDelete →
  filter (λ n, Node.id n = "root") (filter (λ n, Node.id n ∉ toDelete) ns)
  = filter (λ n, Node.id n = "root") ns.
Proof.
  intros Hroot. rewrite list_filter_filter. apply list_filter_iff.
  intros n. split; [by intros [? _]|]. intros Hn. split; [done|]. by rewrite Hn.
Qed.

(** C2 (as the code has it). When no cycle can be reached from [nodeId],
    a confirmed [deleteNode nodeId] returns; it removes exactly the nodes
    whose id is [nodeId] or reachable from it along edges, removes exactly
    the edges with a source or a target among these ids, and keeps all
    other nodes and edges as they were and in their order.  The root is
    kept when [nodeId] is not the root and the root is not reachable from
    it. *)
Theorem C2_deleteNode_removes_reachable
    (s : Component.t) (now : Z) (nodeId : string) :
  acyclicFrom (edges s) nodeId →
  ∃ (s' : Component.t) (toDelete : list string),
    (∀ fuel, (length (edges s) < fuel)%nat →
             deleteNode fuel true now nodeId s = Some s') ∧
    (∀ x, x ∈ toDelete ↔ removedBy (edges s) nodeId x) ∧
    nodes s' = filter (λ n, Node.id n ∉ toDelete) (nodes s) ∧
    edges s' = filter (λ e, (Edge.source e ∉ toDelete) ∧ (Edge.target e ∉ toDelete))
                 (edges s) ∧
    (nodeId ≠ "root" → ¬ reach (edges s) nodeId "root" →
     filter (λ n, Node.id n = "root") (nodes s')
     = filter (λ n, Node.id n = "root") (nodes s)).
Proof.
  intros Hacy. destruct (getDescendants_total _ _ Hacy) as [l Hl].
  assert (∀ x, x ∈ nodeId :: l ↔ removedBy (edges s) nodeId x) as Hdel.
  { intros x. rewrite elem_of_cons. unfold removedBy.
    by rewrite (getDescendants_reach _ _ _ _ (Hl _ (Nat.lt_succ_diag_r _))). }
  eexists _, (nodeId :: l). split; [|split; [exact Hdel|]].
  - intros fuel Hf. unfold deleteNode. simpl. rewrite (Hl fuel Hf). reflexivity.
  - destruct s; simpl. split; [done|]. split; [done|].
    intros Hne Hnr. apply removed_filter_root.
    rewrite Hdel. intros [? | ?]; [congruence | done].
Qed.

Lemma C2_witness :
  ∃ (s' : Component.t) (toDelete : list string),
    (∀ fuel, (3 < fuel)%nat →
       deleteNode fuel true 0 "node-1"
         (sampleStore [sampleRoot; sampleNode "node-1" "a"; sampleNode "node-2" "b";
                       sampleNode "node-3" "c"] treeEdges) = Some s') ∧
    (∀ x, x ∈ toDelete ↔ removedBy treeEdges "node-1" x) ∧
    nodes s' = [sampleRoot; sampleNode "node-3" "c"] ∧
    edges s' = [newEdgeBetween "root" "node-3"].
Proof.
  destruct (C2_deleteNode_removes_reachable
              (sampleStore [sampleRoot; sampleNode "node-1" "a"; sampleNode "node-2" "b";
                            sampleNode "node-3" "c"] treeEdges) 0 "node-1")
    as (s' & toDelete & Hrun & Hdel & Hn & He & _).
  { apply (getDescendants_acyclic 4 _ _ ["node-2"]). reflexivity. }
  exists s', toDelete. split; [exact Hrun|]. split; [exact Hdel|].
  specialize (Hrun 4%nat ltac:(simpl; lia)).
  vm_compute in Hrun. injection Hrun as <-. split; reflexivity.
Defined.

(** C2 fails as stated on two kinds of input: on edges with a cycle
    reachable from the deleted node the delete never completes, and the
    root is removed like any other node when it is the deleted id. *)
Lemma C2_counterexample :
  (∀ fuel, deleteNode fuel true 0 "node-1"
             (sampleStore [sampleRoot; sampleNode "node-1" "a"; sampleNode "node-2" "b"]
                loopEdges) = None) ∧
  (nodes <$> deleteNode 3 true 0 "root"
               (sampleStore [sampleRoot; sampleNode "node-1" "a"]
                  [newEdgeBetween "root" "node-1"]) = Some []).
Proof.
  split; [|reflexivity].
  intros fuel. unfold deleteNode. simpl.
  rewrite (getDescendants_on_cycle loopEdges "node-1"); [done|].
  eapply reach_step; [|apply reach_child]; vm_compute; repeat constructor.
Qed.

(** ** Node ids and the id counter *)

Section NodeIds.

Lemma takeDigits_uint (d : uint) :
  takeDigits (NilEmpty.string_of_uint d) = NilEmpty.string_of_uint d.
Proof. induction d; simpl; congruence. Qed.

Lemma parseDigits_acc (d : uint) (acc : positive) :
  parseDigits (Npos acc) (NilEmpty.string_of_uint d) = Npos (Pos.of_uint_acc d acc).
Proof.
  revert acc. induction d as [|d IH|d IH|d IH|d IH|d IH|d IH|d IH|d IH|d IH|d IH];
    intros acc; simpl; [done|..];
    (etransitivity; [|apply IH]); f_equal; unfold digitValue; simpl; lia.
Qed.

Lemma parseDigits_uint (d : uint) :
  parseDigits 0 (NilEmpty.string_of_uint d) = Pos.of_uint d.
Proof.
  induction d as [|d IH|d IH|d IH|d IH|d IH|d IH|d IH|d IH|d IH|d IH]; simpl;
    [done | exact IH | ..]; apply (parseDigits_acc d).
Qed.

(** Reading back the digits of a printed number. *)
Lemma parseDigits_decimal (n : N) : parseDigits 0 (decimal n) = n.
Proof.
  unfold decimal. rewrite parseDigits_uint. apply DecimalN.Unsigned.of_to.
Qed.

(** Integers up to [2^53] are numbers. *)
Lemma toDouble_exact (n : N) : (n ≤ 2 ^ 53)%N → toDouble n = n.
Proof.
  intros Hn. unfold toDouble. destruct (N.ltb_spec n (2 ^ 53)) as [|Hge]; [done|].
  assert (n = 2 ^ 53)%N as -> by lia. by vm_compute.
Qed.

(** Rounding does not bring an integer back below [2^53]. *)
Lemma toDouble_large (n : N) : (2 ^ 53 ≤ n)%N → (2 ^ 53 ≤ toDouble n)%N.
Proof.
  intros Hn. unfold toDouble. destruct (N.ltb_spec n (2 ^ 53)) as [|_]; [lia|].
  assert (0 < n)%N as Hpos by lia.
  pose proof (N.log2_spec n Hpos) as [Hlo _].
  assert (53 ≤ N.log2 n)%N as Hlog.
  { apply N.log2_le_pow2; [done | lia]. }
  set (e := (N.log2 n - 52)%N).
  assert (2 ^ 52 ≤ N.shiftr n e)%N as Hq.
  { rewrite N.shiftr_div_pow2. apply N.div_le_lower_bound; [by apply N.pow_nonzero|].
    rewrite N.mul_comm, <- N.pow_add_r. replace (52 + e)%N with (N.log2 n) by lia.
    exact Hlo. }
  assert (2 ^ 1 ≤ 2 ^ e)%N as He by (apply N.pow_le_mono_r; lia).
  rewrite N.shiftl_mul_pow2.
  transitivity (2 ^ 52 * 2 ^ 1)%N; [by vm_compute|].
  apply N.mul_le_mono; [|done].
  destruct (_ || _); lia.
Qed.


Lemma decimal_nonempty (n : N) : decimal n ≠ EmptyString.
Proof.
  unfold decimal. destruct n as [|p]; [done|]. simpl.
  pose proof (DecimalPos.Unsigned.to_uint_nonnil p) as Hnil.
  destruct (Pos.to_uint p); done.
Qed.

Lemma matchNodeId_nodeIdOf (k : N) : matchNodeId (nodeIdOf k) = Some (decimal k).
Proof.
  unfold nodeIdOf. simpl. unfold matchHere. simpl.
  change ("" +:+ decimal k) with (decimal k).
  unfold decimal at 1. rewrite takeDigits_uint. fold (decimal k).
  pose proof (decimal_nonempty k). destruct (decimal k); done.
Qed.

Lemma idNumber_suffixOf (id : string) : idNumber id = toDouble (suffixOf id).
Proof. unfold idNumber, suffixOf, parseInt. by destruct (matchNodeId id). Qed.

Lemma suffixOf_nodeIdOf (k : N) : suffixOf (nodeIdOf k) = k.
Proof. unfold suffixOf. rewrite matchNodeId_nodeIdOf. apply parseDigits_decimal. Qed.


(** An id whose number is below [2^53] has that number for its suffix. *)
Lemma idNumber_small (id : string) :
  (idNumber id < 2 ^ 53)%N → suffixOf id = idNumber id.
Proof.
  rewrite idNumber_suffixOf. intros Hlt.
  destruct (N.le_gt_cases (2 ^ 53) (suffixOf id)) as [Hge|Hsmall].
  - pose proof (toDouble_large _ Hge). lia.
  - symmetry. apply toDouble_exact. lia.
Qed.


Lemma plusOne_exact (n : N) : (n < 2 ^ 53)%N → plusOne n = (n + 1)%N.
Proof. intros Hn. apply toDouble_exact. lia. Qed.

Lemma nodeIdOf_not_root (k : N) : nodeIdOf k ≠ "root".
Proof. done. Qed.

Lemma Math_max_ge (l : list N) (x : N) : x ∈ l → (x ≤ Math_max l)%N.
Proof.
  induction l as [|y l IH]; [by intros ?%elem_of_nil|].
  intros [-> | Hx]%elem_of_cons; simpl; [lia|]. specialize (IH Hx). lia.
Qed.

Lemma find_isRoot_id (ns : list Node.t) (r : Node.t) :
  List.find isRoot ns = Some r → Node.id r = "root".
Proof.
  intros [_ Hr]%find_some. unfold isRoot in Hr. by apply bool_decide_eq_true in Hr.
Qed.

Lemma decorateNode_id (n : Node.t) : Node.id (decorateNode n) = Node.id n.
Proof. done. Qed.

End NodeIds.

(** ** Reconciliation *)

Section Reconciliation.

Implicit Types (s : Component.t) (ns loaded : list Node.t) (es : list Edge.t).

Lemma filter_none {A} (P : A → Prop) `{∀ x, Decision (P x)} (l : list A) :
  (∀ x, x ∈ l → ¬ P x) → filter P l = [].
Proof.
  induction l as [|x l IH]; intros Hl; [done|].
  rewrite filter_cons_False; [|apply Hl; by left].
  apply IH. intros y Hy. apply Hl. by right.
Qed.





Lemma nodeVersions_consRoot id ns l :
  id ≠ "root" →
  nodeVersions id (consRoot (List.find isRoot ns) l) = nodeVersions id l.
Proof.
  intros Hid. destruct (List.find isRoot ns) as [r|] eqn:Hr; [|done]. simpl.
  unfold nodeVersions. rewrite filter_cons_False; [done|].
  rewrite (find_isRoot_id _ _ Hr). congruence.
Qed.



Lemma processGraphData_editing g fromCache s :
  editingNodesRef (processGraphData g fromCache s) = editingNodesRef s ∧
  editingEdgesRef (processGraphData g fromCache s) = editingEdgesRef s.
Proof.
  destruct g as [[[gn|] [ge|]]|]; try done.
  unfold processGraphData, processEdges, processNodes. destruct s; simpl.
  repeat (case_match; simpl); done.
Qed.

Lemma processGraphData_nodes gn ge fromCache s :
  nodes (processGraphData (snapshot gn ge) fromCache s)
  = nodes (processNodes (decorateNode <$> gn) fromCache s).
Proof.
  unfold snapshot, processGraphData, processEdges.
  destruct (processNodes _ _ s); simpl. by case_match.
Qed.




End Reconciliation.

(** ** The scheduler leaves the graph alone *)

Section Frame.

Implicit Types (s : Component.t).

Lemma sameGraph_refl s : sameGraph s s.
Proof. by repeat split. Qed.

Lemma saveGraph_sameGraph now immediate retryCount s :
  sameGraph s (saveGraph now immediate retryCount s).
Proof.
  unfold sameGraph, saveGraph, startWrite, clearPendingTimeout, setTimeout,
    clearTimeout.
  destruct s; simpl. repeat (case_match; simpl); done.
Qed.

Lemma respond_sameGraph now k ok s : sameGraph s (respond now k ok s).
Proof.
  unfold sameGraph, respond, saveGraphResume, saveFinally, saveGraphToLocalStorage,
    setTimeout.
  destruct s; simpl. repeat (case_match; simpl); done.
Qed.

Lemma sameGraph_trans s1 s2 s3 : sameGraph s1 s2 → sameGraph s2 s3 → sameGraph s1 s3.
Proof.
  intros (? & ? & ? & ? & ?) (? & ? & ? & ? & ?). repeat split; congruence.
Qed.

Lemma runCallback_sameGraph now cb s : sameGraph s (runCallback now cb s).
Proof.
  destruct cb; simpl; try apply saveGraph_sameGraph. by destruct s.
Qed.

Lemma fireTimer_sameGraph now tid s : sameGraph s (fireTimer now tid s).
Proof.
  unfold fireTimer. repeat case_match; try apply sameGraph_refl.
  eapply sameGraph_trans; [|apply runCallback_sameGraph]. by destruct s.
Qed.






End Frame.

(** ** Claims on reconciliation *)




Lemma processNodes_wholesale (loaded : list Node.t) fromCache s :
  (length (nodes s) <=? 1)%nat || fromCache = true →
  nodes (processNodes loaded fromCache s)
  = consRoot (List.find isRoot (nodes s)) loaded ∧
  (loaded ≠ [] →
   nodeCounter (processNodes loaded fromCache s)
   = plusOne (Math_max ((λ n, idNumber (Node.id n)) <$> loaded))).
Proof.
  intros Hwhole. unfold processNodes. rewrite Hwhole.
  destruct loaded as [|n loaded].
  - split; [|done]. destruct s; simpl. by case_match.
  - simpl length. change (0 <? S (length loaded))%nat with true. cbv iota.
    split; [|intros _]; destruct s; simpl; by case_match.
Qed.




(** ** Claims on the id counter *)

Lemma processGraphData_counter gn ge fromCache s :
  nodeCounter (processGraphData (snapshot gn ge) fromCache s)
  = nodeCounter (processNodes (decorateNode <$> gn) fromCache s).
Proof.
  unfold snapshot, processGraphData, processEdges.
  destruct (processNodes _ _ s); simpl. by case_match.
Qed.

Lemma Math_max_lt (l : list N) (b : N) :
  (0 < b)%N → (∀ x, x ∈ l → (x < b)%N) → (Math_max l < b)%N.
Proof.
  intros Hb. induction l as [|y l IH]; simpl; [done|]. intros Hall.
  assert (y < b)%N by (apply Hall; by left).
  assert (Math_max l < b)%N by (apply IH; intros x Hx; apply Hall; by right). lia.
Qed.

(** C5 (as the code has it). A wholesale load (store with at most one
    node, or a snapshot from the cache) of a snapshot with at least one
    node, all of whose ids have a number below 2^53, sets the counter to
    the largest number found in a loaded id by [/node-(\d+)/], plus one; an
    id that does not match counts as 0.  Hence no id [node-<k>] with k at
    or above the counter is the id of a node in the store. *)
Theorem C5_counter_seeded_past_loaded_ids
    (s : Component.t) (gnodes : list Node.t) (gedges : list Edge.t) (fromCache : bool) :
  gnodes ≠ [] →
  (length (nodes s) <=? 1)%nat || fromCache = true →
  (∀ n, n ∈ gnodes → (idNumber (Node.id n) < 2 ^ 53)%N) →
  let s' := processGraphData (snapshot gnodes gedges) fromCache s in
  nodeCounter s' = (Math_max ((λ n, idNumber (Node.id n)) <$> gnodes) + 1)%N ∧
  (∀ n, n ∈ gnodes → matchNodeId (Node.id n) = None → idNumber (Node.id n) = 0%N) ∧
  (∀ (k : N) (n : Node.t),
     (nodeCounter s' ≤ k)%N → n ∈ nodes s' → Node.id n ≠ nodeIdOf k).
Proof.
  intros Hne Hwhole Hsafe s'.
  assert (Math_max ((λ n, idNumber (Node.id n)) <$> gnodes) < 2 ^ 53)%N as Hmax.
  { apply Math_max_lt; [done|]. intros x (n & -> & Hn)%list_elem_of_fmap. by apply Hsafe. }
  assert (nodeCounter s'
          = (Math_max ((λ n, idNumber (Node.id n)) <$> gnodes) + 1)%N
          ∧ nodes s' = consRoot (List.find isRoot (nodes s)) (decorateNode <$> gnodes))
    as [Hc Hn].
  { unfold s'. rewrite processGraphData_nodes, processGraphData_counter.
    destruct (processNodes_wholesale (decorateNode <$> gnodes) fromCache s Hwhole)
      as [-> ->]; [|by destruct gnodes].
    rewrite <- list_fmap_compose. split; [|done]. by apply plusOne_exact. }
  split; [exact Hc|]. split.
  - intros n _ Hnone. unfold idNumber. by rewrite Hnone.
  - intros k n Hk Hin Heq. rewrite Hc in Hk. rewrite Hn in Hin.
    assert (n ∈ decorateNode <$> gnodes) as Hload.
    { destruct (List.find isRoot (nodes s)) as [r|] eqn:Hr; [|done].
      apply elem_of_cons in Hin as [-> | Hin]; [|done].
      rewrite (find_isRoot_id _ _ Hr) in Heq. by destruct (nodeIdOf_not_root k). }
    apply list_elem_of_fmap in Hload as (m & -> & Hm).
    rewrite decorateNode_id in Heq.
    assert (k ∈ (λ n, idNumber (Node.id n)) <$> gnodes) as Hk'.
    { apply list_elem_of_fmap. exists m. split; [|done].
      rewrite <- (idNumber_small _ (Hsafe m Hm)). by rewrite Heq, suffixOf_nodeIdOf. }
    apply Math_max_ge in Hk'. lia.
Qed.

(** First fetch into a store that holds the root only: three nodes and
    two edges, the largest suffix is 7. *)
Lemma C5_witness :
  let s' := processGraphData
              (snapshot [sampleNode "node-3" "a"; sampleNode "node-7" "b";
                         sampleNode "intro" "c"]
                        [newEdgeBetween "root" "node-3"; newEdgeBetween "node-3" "node-7"])
              false (sampleStore [sampleRoot] []) in
  nodeCounter s' = 8%N ∧
  (∀ (k : N) (n : Node.t), (nodeCounter s' ≤ k)%N → n ∈ nodes s' → Node.id n ≠ nodeIdOf k).
Proof.
  intros s'.
  destruct (C5_counter_seeded_past_loaded_ids (sampleStore [sampleRoot] [])
              [sampleNode "node-3" "a"; sampleNode "node-7" "b"; sampleNode "intro" "c"]
              [newEdgeBetween "root" "node-3"; newEdgeBetween "node-3" "node-7"] false)
    as (Hc & _ & Hfresh); [done | reflexivity | |].
  - intros n Hn. repeat (apply elem_of_cons in Hn as [-> | Hn]); [by vm_compute..|].
    by apply elem_of_nil in Hn.
  - split; [reflexivity | exact Hfresh].
Defined.

(** C5 fails as stated on an id whose number is 2^53 or more: numbers
    count exactly up to 2^53 only.  Loading the single node
    [node-9007199254740992] leaves the counter at 9007199254740992, not at
    that number plus one, so the id made from the counter is the loaded
    one, and the next connection stores a second node under it. *)
Lemma C5_counterexample :
  let s' := processGraphData (snapshot [sampleNode "node-9007199254740992" "a"] [])
              false (sampleStore [sampleRoot] []) in
  nodeCounter s' = 9007199254740992%N ∧
  (Math_max [idNumber "node-9007199254740992"] + 1 = 9007199254740993)%N ∧
  Node.id <$> nodes s' = ["root"; nodeIdOf (nodeCounter s')] ∧
  Node.id <$> nodes (onConnect "root" s')
  = ["root"; "node-9007199254740992"; "node-9007199254740992"].
Proof. by vm_compute. Qed.

(** ** Connection builder *)

Section Builder.

Implicit Types (s : Component.t).



Lemma onConnect_cases (src : string) s :
  (nodes (onConnect src s) = nodes s ∧ edges (onConnect src s) = edges s ∧
   nodeCounter (onConnect src s) = plusOne (nodeCounter s) ∧
   List.find (λ n, bool_decide (Node.id n = src)) (nodes s) = None) ∨
  (∃ sourceNode,
     List.find (λ n, bool_decide (Node.id n = src)) (nodes s) = Some sourceNode ∧
     nodes (onConnect src s)
     = nodes s ++ [outcomeNodeAt (nodeIdOf (nodeCounter s))
                     {| pos_x := pos_x (Node.position sourceNode)
                                 + Z.of_nat (length (filter (λ e, Edge.source e = src)
                                                       (edges s))) * 220 - 100;
                        pos_y := pos_y (Node.position sourceNode) + 200 |}] ∧
     edges (onConnect src s)
     = edges s ++ [newEdgeBetween src (nodeIdOf (nodeCounter s))] ∧
     nodeCounter (onConnect src s) = plusOne (nodeCounter s)).
Proof.
  unfold onConnect.
  destruct (List.find _ (nodes s)) as [sourceNode|] eqn:Hf.
  - right. exists sourceNode. by destruct s.
  - left. by destruct s.
Qed.

Lemma onConnectEnd_cases now canvas event s :
  (nodes (onConnectEnd now canvas event s) = nodes s ∧
   edges (onConnectEnd now canvas event s) = edges s ∧
   nodeCounter (onConnectEnd now canvas event s) = nodeCounter s ∧
   (connectingNodeId s = None ∨ connectingNodeId s = Some EmptyString ∨
    releasePoint event = None ∨ onNodeOrHandle event = true ∨
    wrapperBounds canvas = None)) ∨
  (∃ src x y boundsLeft boundsTop,
     connectingNodeId s = Some src ∧ src ≠ EmptyString ∧
     releasePoint event = Some (x, y) ∧ onNodeOrHandle event = false ∧
     wrapperBounds canvas = Some (boundsLeft, boundsTop) ∧
     nodes (onConnectEnd now canvas event s)
     = nodes s ++ [outcomeNodeAt (nodeIdOf (nodeCounter s))
                     (project canvas (x - boundsLeft, y - boundsTop))] ∧
     edges (onConnectEnd now canvas event s)
     = edges s ++ [newEdgeBetween src (nodeIdOf (nodeCounter s))] ∧
     nodeCounter (onConnectEnd now canvas event s) = plusOne (nodeCounter s)).
Proof.
  unfold onConnectEnd, onNodeOrHandle.
  fold (releasePoint event). fold (releaseTarget event).
  destruct (connectingNodeId s) as [[|a src]|] eqn:Hsrc;
    [left; destruct s; simpl; auto 10 | | left; destruct s; simpl; auto 10].
  destruct (releasePoint event) as [[x y]|] eqn:Hpt;
    [|left; destruct s; simpl; auto 10].
  destruct (from_option insideNode false (releaseTarget event)) eqn:Hn;
    [left; destruct s; simpl; auto 10|].
  destruct (from_option isHandle false (releaseTarget event)) eqn:Hh;
    [left; destruct s; simpl; auto 10|].
  simpl negb. cbv iota. simpl andb. cbv iota.
  destruct (wrapperBounds canvas) as [[boundsLeft boundsTop]|] eqn:Hb;
    [|left; destruct s; simpl; auto 10].
  right. exists (String a src), x, y, boundsLeft, boundsTop.
  destruct (saveGraph_sameGraph now false 0 (with_connectingNodeId None s))
    as (Hn' & He' & Hc' & _).
  destruct (saveGraph now false 0 (with_connectingNodeId None s)); simpl in *.
  subst. destruct s; simpl in *. by repeat split.
Qed.




End Builder.




(** C7 (as the code has it). With a start node recorded by
    [onConnectStart], a release on empty canvas (neither inside a node nor
    on a handle) makes [onConnectEnd] add an outcome node at the projected
    release point and an edge from the start node to it.  A release on a
    node or a handle makes [onConnectEnd] add nothing, and so does a
    gesture without a start node.  The direct-connect handler [onConnect]
    adds a new outcome node below its source node, 220 to the right per
    existing child, with an edge from the source to it; it adds neither
    when the source is not in the node list. *)
Theorem C7_connection_gesture
    (now : Z) (canvas : Canvas) (event : ConnectEndEvent) (s : Component.t) :
  (∀ src x y boundsLeft boundsTop,
     connectingNodeId s = Some src → src ≠ EmptyString →
     releasePoint event = Some (x, y) → onNodeOrHandle event = false →
     wrapperBounds canvas = Some (boundsLeft, boundsTop) →
     nodes (onConnectEnd now canvas event s)
     = nodes s ++ [outcomeNodeAt (nodeIdOf (nodeCounter s))
                     (project canvas (x - boundsLeft, y - boundsTop))] ∧
     edges (onConnectEnd now canvas event s)
     = edges s ++ [newEdgeBetween src (nodeIdOf (nodeCounter s))]) ∧
  (onNodeOrHandle event = true ∨ connectingNodeId s = None
   ∨ connectingNodeId s = Some EmptyString →
   nodes (onConnectEnd now canvas event s) = nodes s ∧
   edges (onConnectEnd now canvas event s) = edges s) ∧
  (∀ src,
     (List.find (λ n, bool_decide (Node.id n = src)) (nodes s) = None →
      nodes (onConnect src s) = nodes s ∧ edges (onConnect src s) = edges s) ∧
     (∀ sourceNode,
        List.find (λ n, bool_decide (Node.id n = src)) (nodes s) = Some sourceNode →
        nodes (onConnect src s)
        = nodes s ++ [outcomeNodeAt (nodeIdOf (nodeCounter s))
                        {| pos_x := pos_x (Node.position sourceNode)
                                    + Z.of_nat (length (filter (λ e, Edge.source e = src)
                                                          (edges s))) * 220 - 100;
                           pos_y := pos_y (Node.position sourceNode) + 200 |}] ∧
        edges (onConnect src s)
        = edges s ++ [newEdgeBetween src (nodeIdOf (nodeCounter s))])).
Proof.
  split; [|split].
  - intros src x y bl bt Hsrc Hne Hpt Hon Hb.
    destruct (onConnectEnd_cases now canvas event s)
      as [(_ & _ & _ & [H | [H | [H | [H | H]]]])
         | (src' & x' & y' & bl' & bt' & Hsrc' & _ & Hpt' & _ & Hb' & Hn & He & _)];
      try congruence.
    rewrite Hn, He. split; congruence.
  - intros Hcase.
    destruct (onConnectEnd_cases now canvas event s)
      as [(Hn & He & _) | (src' & x' & y' & bl' & bt' & Hsrc' & Hne & _ & Hon & _)];
      [done|].
    destruct Hcase as [H | [H | H]]; congruence.
  - intros src.
    destruct (onConnect_cases src s)
      as [(Hn & He & _ & Hf) | (sourceNode & Hf & Hn & He & _)]; rewrite Hf.
    + split; [auto | intros ? ?; discriminate].
    + split; [intros ?; discriminate|]. intros ? [= <-]. done.
Qed.

Lemma C7_witness :
  let s := onConnectStart (Some "root") (sampleStore [sampleRoot] []) in
  (nodes (onConnectEnd 5 sampleCanvas (mouseUpOn None 300 200) s)
   = [sampleRoot; outcomeNodeAt "node-0" {| pos_x := 200; pos_y := 150 |}] ∧
   edges (onConnectEnd 5 sampleCanvas (mouseUpOn None 300 200) s)
   = [newEdgeBetween "root" "node-0"]) ∧
  (nodes (onConnectEnd 5 sampleCanvas
            (mouseUpOn (Some {| insideNode := true; isHandle := true |}) 300 200) s)
   = [sampleRoot] ∧
   edges (onConnectEnd 5 sampleCanvas
            (mouseUpOn (Some {| insideNode := true; isHandle := true |}) 300 200) s)
   = []) ∧
  (nodes (onConnect "node-9" s) = [sampleRoot] ∧ edges (onConnect "node-9" s) = []) ∧
  (nodes (onConnect "root" s)
   = [sampleRoot; outcomeNodeAt "node-0" {| pos_x := 150; pos_y := 250 |}] ∧
   edges (onConnect "root" s) = [newEdgeBetween "root" "node-0"]).
Proof.
  intros s. split; [|split; [|split]].
  - apply (proj1 (C7_connection_gesture 5 sampleCanvas (mouseUpOn None 300 200) s)
             "root" 300 200 100 50); done.
  - apply (proj1 (proj2 (C7_connection_gesture 5 sampleCanvas
                           (mouseUpOn (Some {| insideNode := true; isHandle := true |})
                              300 200) s))).
    by left.
  - apply (proj1 (proj2 (proj2 (C7_connection_gesture 5 sampleCanvas
                                  (mouseUpOn None 300 200) s)) "node-9")).
    reflexivity.
  - apply (proj2 (proj2 (proj2 (C7_connection_gesture 5 sampleCanvas
                                  (mouseUpOn None 300 200) s)) "root") sampleRoot).
    reflexivity.
Defined.

(** C7 fails as stated for a release on a handle or a node: the
    gesture-end handler creates no edge at all, and the direct-connect
    handler, called for a connection made from the root, creates a new
    node next to its edge. *)
Lemma C7_counterexample :
  let s := onConnectStart (Some "root")
             (with_nodeCounter 2
                (sampleStore [sampleRoot; sampleNode "node-1" "a"]
                   [newEdgeBetween "root" "node-1"])) in
  let onHandle := mouseUpOn (Some {| insideNode := true; isHandle := true |}) 300 200 in
  edges (onConnectEnd 5 sampleCanvas onHandle s) = edges s ∧
  nodes (onConnectEnd 5 sampleCanvas onHandle s) = nodes s ∧
  nodes (onConnect "root" s)
  = nodes s ++ [outcomeNodeAt "node-2" {| pos_x := 370; pos_y := 250 |}] ∧
  edges (onConnect "root" s) = edges s ++ [newEdgeBetween "root" "node-2"].
Proof. repeat split; reflexivity. Qed.

(** ** Save scheduler *)

Section Scheduler.

Implicit Types (s : Component.t) (now clock : Z).

Lemma forallb_Forall {A} (f : A → bool) (l : list A) :
  forallb f l = true → Forall (λ x, f x = true) l.
Proof.
  induction l as [|x l IH]; simpl; [constructor|].
  intros [? ?]%andb_true_iff. constructor; auto.
Qed.

Lemma clearTimeout_timers tid s tm :
  tm ∈ timers (clearTimeout tid s) → tm ∈ timers s.
Proof.
  unfold clearTimeout. destruct s; simpl. by intros [_ ?]%list_elem_of_filter.
Qed.

Lemma clearPendingTimeout_timers s tm :
  tm ∈ timers (clearPendingTimeout s) → tm ∈ timers s.
Proof.
  unfold clearPendingTimeout. destruct (saveTimeoutRef s) as [tid|] eqn:Ht; [|done].
  intros Hin. apply (clearTimeout_timers tid s).
  by destruct (clearTimeout tid s).
Qed.

Lemma schedulerUntouched_refl s : schedulerUntouched s s.
Proof. repeat split; auto. Qed.

Lemma clearTimeout_untouched tid s : schedulerUntouched s (clearTimeout tid s).
Proof.
  repeat split; try by destruct s.
  intros tm Htm. left. by eapply clearTimeout_timers.
Qed.

Lemma Throttled_untouched clock now s s' :
  schedulerUntouched s s' → clock ≤ now → Throttled clock s → Throttled now s'.
Proof.
  intros (Hs & Hp & Hposted & Hl & Hq & Ht) Hclock (It & Iq & Isp & Iidle & Ibusy).
  unfold Throttled, execTimes in *. rewrite Hs, Hp, Hposted, Hl, Hq.
  split; [|split; [done|split; [done|split; [done|]]]].
  - apply Forall_forall. intros tm [Htm | Htm]%Ht; [|done].
    by eapply (proj1 (Forall_forall _ _) It).
  - intros Hbusy. destruct (Ibusy Hbusy) as (p & t & older & ? & ? & ? & ?).
    exists p, t, older. repeat split; auto. lia.
Qed.

(** What a non-immediate [saveGraph] call does. *)
Lemma saveGraph_false_cases now retryCount s :
  let s' := saveGraph now false retryCount s in
  (isSavingRef s = true ∧
   isSavingRef s' = isSavingRef s ∧ pending s' = pending s ∧ posted s' = posted s ∧
   lastSaveTimeRef s' = lastSaveTimeRef s ∧ timers s' = timers s ∧
   saveTimeoutRef s' = saveTimeoutRef s ∧ saveStatus s' = saveStatus s ∧
   saveQueueRef s' = saveQueueRef s ++ [(false, retryCount)]) ∨
  (isSavingRef s = false ∧
   isSavingRef s' = isSavingRef s ∧ pending s' = pending s ∧ posted s' = posted s ∧
   lastSaveTimeRef s' = lastSaveTimeRef s ∧ saveQueueRef s' = saveQueueRef s ∧
   saveStatus s' = saveStatus s ∧
   ∃ tm, callback tm = CbSaveGraph false 0 ∧
         timers s' = timers (clearPendingTimeout s) ++ [tm] ∧
         saveTimeoutRef s' = Some (timer_id tm) ∧
         ((hasActiveEdits s = true ∧ fireAt tm = now + 2000) ∨
          (hasActiveEdits s = false ∧ now - lastSaveTimeRef s < 1000 ∧
           fireAt tm = lastSaveTimeRef s + 1000))) ∨
  (isSavingRef s = false ∧ hasActiveEdits s = false ∧
   1000 ≤ now - lastSaveTimeRef s ∧
   isSavingRef s' = true ∧
   pending s' = pending s ++ [{| ps_immediate := false; ps_retryCount := retryCount;
                                 ps_body := buildGraphData s;
                                 ps_location := location s |}] ∧
   posted s' = (now, buildGraphData s) :: posted s ∧
   lastSaveTimeRef s' = lastSaveTimeRef s ∧ saveQueueRef s' = saveQueueRef s ∧
   timers s' = timers (clearPendingTimeout s) ∧ saveStatus s' = saving).
Proof.
  unfold saveGraph. destruct (isSavingRef s) eqn:Hsaving; simpl.
  { left. by destruct s. }
  right.
  assert (hasActiveEdits (clearPendingTimeout s) = hasActiveEdits s ∧
          lastSaveTimeRef (clearPendingTimeout s) = lastSaveTimeRef s ∧
          buildGraphData (clearPendingTimeout s) = buildGraphData s ∧
          isSavingRef (clearPendingTimeout s) = isSavingRef s ∧
          pending (clearPendingTimeout s) = pending s ∧
          posted (clearPendingTimeout s) = posted s ∧
          saveStatus (clearPendingTimeout s) = saveStatus s ∧
          saveQueueRef (clearPendingTimeout s) = saveQueueRef s ∧
          location (clearPendingTimeout s) = location s)
    as (-> & Hl & Hb & Hs & Hp & Hposted & Hst & Hq & Hloc).
  { unfold clearPendingTimeout, clearTimeout. destruct s; simpl.
    by case_match. }
  rewrite Hl. rewrite Hsaving in Hs.
  destruct (hasActiveEdits s) eqn:Hedit.
  { left. unfold setTimeout. destruct (clearPendingTimeout s); simpl in *.
    subst. repeat split; try done. eexists. repeat split; simpl; eauto. }
  destruct (now - lastSaveTimeRef s <? 1000) eqn:Hthr.
  { left. apply Z.ltb_lt in Hthr.
    unfold setTimeout. destruct (clearPendingTimeout s); simpl in *.
    subst. repeat split; try done. eexists. repeat split; simpl; eauto.
    right. repeat split; [done | lia]. }
  right. apply Z.ltb_ge in Hthr.
  unfold startWrite. rewrite Hb, Hloc. destruct (clearPendingTimeout s); simpl in *.
  subst. by repeat split.
Qed.

Lemma saveGraph_false_Throttled clock now retryCount s :
  clock ≤ now → Throttled clock s → Throttled now (saveGraph now false retryCount s).
Proof.
  intros Hclock HT. pose proof HT as (It & Iq & Isp & Iidle & Ibusy).
  destruct (saveGraph_false_cases now retryCount s)
    as [(Hsv & Hs & Hp & Hposted & Hl & Ht & _ & _ & Hq)
       |[(Hsv & Hs & Hp & Hposted & Hl & Hq & _ & tm & Hcb & Ht & _)
        |(Hsv & Hed & Hthr & Hs & Hp & Hposted & Hl & Hq & Ht & _)]].
  - unfold Throttled, execTimes. rewrite Hs, Hp, Hposted, Hl, Ht, Hq.
    split; [done|]. split; [apply Forall_app; split; [done | by repeat constructor]|].
    split; [done|]. split; [done|].
    intros Hbusy. destruct (Ibusy Hbusy) as (p & t & older & ? & ? & ? & ?).
    exists p, t, older. repeat split; auto. lia.
  - eapply Throttled_untouched; [|exact Hclock|exact HT].
    repeat split; try done. rewrite Ht.
    intros tm' [Htm | ->%list_elem_of_singleton]%elem_of_app.
    + left. by apply clearPendingTimeout_timers.
    + right. by rewrite Hcb.
  - destruct (Iidle Hsv) as [Hpend Hpast].
    unfold Throttled, execTimes in *. rewrite Hs, Hp, Hposted, Hq, Ht, Hpend.
    split; [|split; [done|split; [|split; [done|]]]].
    + apply Forall_forall. intros tm Htm%clearPendingTimeout_timers.
      by eapply (proj1 (Forall_forall _ _) It).
    + simpl. split; [|done]. eapply Forall_impl; [exact Hpast|].
      simpl. intros t Ht'. lia.
    + intros _. eexists _, now, _. simpl. repeat split; try done; lia.
Qed.

Lemma saveGraphResume_ok_view now p s :
  let s' := saveGraphResume now p true s in
  isSavingRef s' = false ∧ pending s' = pending s ∧ posted s' = posted s ∧
  lastSaveTimeRef s' = now ∧ saveStatus s' = saved ∧
  hasUnsavedChanges s' = hasUnsavedChanges s ∧
  ((saveQueueRef s = [] ∧ saveQueueRef s' = [] ∧
    timers s' = timers s
                ++ [{| timer_id := timerSeq s; fireAt := now + 1000;
                       callback := CbResumePolling |}]) ∨
   (∃ q rest,
      saveQueueRef s = q :: rest ∧ saveQueueRef s' = rest ∧
      timers s' = timers s
                  ++ [{| timer_id := timerSeq s; fireAt := now + 100;
                         callback := CbSaveGraph (fst q) (snd q) |};
                      {| timer_id := S (timerSeq s); fireAt := now + 1000;
                         callback := CbResumePolling |}])).
Proof.
  unfold saveGraphResume, saveFinally, saveGraphToLocalStorage, setTimeout.
  destruct s; simpl. destruct saveQueueRef0 as [|q rest]; simpl.
  - repeat split; auto.
  - repeat split; auto. right. exists q, rest. by rewrite <- app_assoc.
Qed.

Lemma respond_unfold now k ok s :
  (pending s !! k = None ∧ respond now k ok s = s) ∨
  (∃ p, pending s !! k = Some p ∧
        respond now k ok s
        = saveGraphResume now p ok (with_pending (delete k (pending s)) s)).
Proof. unfold respond. destruct (pending s !! k) as [p|]; eauto. Qed.

Lemma respond_ok_Throttled clock now k s :
  clock ≤ now → Throttled clock s → Throttled now (respond now k true s).
Proof.
  intros Hclock HT. pose proof HT as (It & Iq & Isp & Iidle & Ibusy).
  destruct (respond_unfold now k true s) as [[_ ->] | (p & Hk & ->)].
  { eapply Throttled_untouched; [apply schedulerUntouched_refl | done..]. }
  destruct (isSavingRef s) eqn:Hsv.
  2: { destruct (Iidle eq_refl) as [Hpend _]. by rewrite Hpend in Hk. }
  destruct (Ibusy eq_refl) as (p0 & t & older & Hpend & Himm & Htimes & Ht).
  rewrite Hpend in Hk. destruct k as [|k]; [|done]. rewrite Hpend. simpl delete.
  set (s0 := with_pending [] s).
  assert (timers s0 = timers s ∧ saveQueueRef s0 = saveQueueRef s ∧
          posted s0 = posted s ∧ pending s0 = []) as (Ht0 & Hq0 & Hp0 & Hpe0)
    by (by destruct s).
  destruct (saveGraphResume_ok_view now p s0)
    as (Hs & Hp & Hposted & Hl & _ & _ & Hrest).
  unfold Throttled, execTimes in *. rewrite Hs, Hp, Hposted, Hl, Hp0, Hpe0.
  assert (Forall (λ t0, t0 ≤ now) (posted s).*1) as Hpast.
  { rewrite Htimes in *. destruct Isp as [Hold _]. constructor; [lia|].
    eapply Forall_impl; [exact Hold|]. simpl. intros; lia. }
  rewrite Ht0, Hq0 in Hrest.
  destruct Hrest as [(Hq & -> & ->) | (q & rest & Hq & -> & ->)].
  - split; [apply Forall_app; split; [done | by repeat constructor]|].
    split; [constructor|]. split; [done|]. split; [done|]. done.
  - rewrite Hq in Iq. apply Forall_cons in Iq as [Hqf Iq].
    split; [apply Forall_app; split; [done|]|].
    { rewrite Hqf. by repeat constructor. }
    split; [done|]. split; [done|]. split; [done|]. done.
Qed.

Lemma runCallback_Throttled clock now cb s :
  nonImmediateCallback cb = true → clock ≤ now → Throttled clock s →
  Throttled now (runCallback now cb s).
Proof.
  intros Hcb Hclock HT. destruct cb as [[|] rc| | |]; try done; simpl.
  - by eapply saveGraph_false_Throttled.
  - by eapply saveGraph_false_Throttled.
  - eapply Throttled_untouched; [|exact Hclock|exact HT].
    repeat split; try by destruct s. intros tm Htm. left. by destruct s.
Qed.

Lemma fireTimer_Throttled clock now tid s :
  clock ≤ now → Throttled clock s → Throttled now (fireTimer now tid s).
Proof.
  intros Hclock HT. unfold fireTimer.
  destruct (List.find _ (timers s)) as [tm|] eqn:Hf.
  2: { eapply Throttled_untouched; [apply schedulerUntouched_refl | done..]. }
  destruct (fireAt tm <=? now).
  2: { eapply Throttled_untouched; [apply schedulerUntouched_refl | done..]. }
  apply find_some in Hf as [Hin%list_elem_of_In _].
  destruct HT as (It & HT'). pose proof (proj1 (Forall_forall _ _) It tm Hin) as Hcb.
  apply (runCallback_Throttled now); [done | lia |].
  eapply Throttled_untouched; [apply clearTimeout_untouched | exact Hclock | done].
Qed.

Lemma processGraphData_untouched g fromCache s :
  schedulerUntouched s (processGraphData g fromCache s).
Proof.
  destruct g as [[[gn|] [ge|]]|]; try apply schedulerUntouched_refl.
  unfold processGraphData, processEdges, processNodes. destruct s; simpl.
  repeat (case_match; simpl); repeat split; auto.
Qed.

Lemma onConnect_untouched src s : schedulerUntouched s (onConnect src s).
Proof.
  unfold onConnect. destruct (List.find _ (nodes s)); destruct s; simpl;
    repeat split; auto.
Qed.

(** Events that neither fail a write nor save immediately keep the
    throttle invariant. *)
Lemma step_Throttled clock now ev s :
  throttledEvent ev = true → clock ≤ now → Throttled clock s →
  Throttled now (step now ev s).
Proof.
  intros Hev Hclock HT.
  destruct ev as [| |tid|k [|]|x|x|x v|x|g|x|src|canvas event]; try done; simpl.
  - by eapply saveGraph_false_Throttled.
  - by eapply fireTimer_Throttled.
  - by eapply respond_ok_Throttled.
  - eapply Throttled_untouched; [|exact Hclock|exact HT].
    unfold startEditingNode. destruct (saveTimeoutRef s) as [tid|].
    + pose proof (clearTimeout_untouched tid s) as (? & ? & ? & ? & ? & Ht).
      destruct (clearTimeout tid s); simpl in *. repeat split; auto.
    + destruct s; simpl. repeat split; auto.
  - eapply Throttled_untouched; [|exact Hclock|exact HT].
    unfold endEditingNode, setTimeout. destruct s; simpl. repeat split; auto.
    intros tm [Htm | ->%list_elem_of_singleton]%elem_of_app; auto.
  - eapply Throttled_untouched; [|exact Hclock|exact HT].
    destruct s; simpl. repeat split; auto.
  - eapply Throttled_untouched; [|exact Hclock|exact HT].
    destruct s; simpl. repeat split; auto.
  - eapply Throttled_untouched; [apply processGraphData_untouched | done..].
  - eapply Throttled_untouched; [|exact Hclock|exact HT].
    destruct s; simpl. repeat split; auto.
  - eapply Throttled_untouched; [apply onConnect_untouched | done..].
  - unfold onConnectEnd.
    assert (Throttled now (with_connectingNodeId None s)) as HT0.
    { eapply Throttled_untouched; [|exact Hclock|exact HT].
      destruct s; simpl. repeat split; auto. }
    repeat case_match; try exact HT0.
    all: eapply Throttled_untouched;
      [|reflexivity|apply (saveGraph_false_Throttled now now 0 _ (Z.le_refl _) HT0)].
    all: destruct (saveGraph now false 0 _); simpl; repeat split; auto.
Qed.

Lemma run_Throttled trace clock s :
  timedFrom clock trace = true →
  Forall (λ te, throttledEvent te.2 = true) trace →
  Throttled clock s → ∃ clock', Throttled clock' (run trace s).
Proof.
  revert clock s. induction trace as [|[now ev] trace IH]; intros clock s Htime Hev HT.
  - by exists clock.
  - simpl in *. apply andb_true_iff in Htime as [Hle%Z.leb_le Htime].
    apply Forall_cons in Hev as [Hev Hevs].
    apply (IH now); [done..|]. by eapply step_Throttled.
Qed.

Lemma schedulerIdle_Throttled clock s : schedulerIdle s = true → Throttled clock s.
Proof.
  unfold schedulerIdle. rewrite !andb_true_iff.
  intros [[[[Hs%negb_true_iff Hp%bool_decide_eq_true] Hposted%bool_decide_eq_true]
           Ht%forallb_Forall] Hq%forallb_Forall].
  unfold Throttled, execTimes. rewrite Hs, Hp, Hposted.
  split; [done|]. split.
  { eapply Forall_impl; [exact Hq|]. simpl. by intros q ?%negb_true_iff. }
  split; [done|]. split; [by split; [|constructor] | done].
Qed.

(** Spaced times: no two in any window of one second. *)
(** What the failure of a write does. *)
Lemma saveGraphResume_failed_view now p s :
  let s' := saveGraphResume now p false s in
  let resume := λ tid, {| timer_id := tid; fireAt := now + 1000;
                          callback := CbResumePolling |} in
  saveStatus s' = error ∧ isSavingRef s' = false ∧
  pending s' = pending s ∧ saveQueueRef s' = saveQueueRef s ∧
  posted s' = posted s ∧ lastSaveTimeRef s' = lastSaveTimeRef s ∧
  (ps_immediate p = true → (ps_retryCount p < 3)%nat →
   hasUnsavedChanges s' = hasUnsavedChanges s ∧
   timerSeq s' = S (S (timerSeq s)) ∧
   timers s'
   = timers s
     ++ [{| timer_id := timerSeq s;
            fireAt := now + 1000 * (Z.of_nat (ps_retryCount p) + 1);
            callback := CbSaveGraph true (ps_retryCount p + 1) |};
         resume (S (timerSeq s))]) ∧
  (ps_immediate p = false ∨ (3 ≤ ps_retryCount p)%nat →
   hasUnsavedChanges s' = true ∧
   timers s' = timers s ++ [resume (timerSeq s)]).
Proof.
  unfold saveGraphResume, saveFinally, setTimeout. simpl.
  destruct (ps_immediate p) eqn:Himm; simpl;
    [destruct (ps_retryCount p <? 3)%nat eqn:Hrc;
     [apply Nat.ltb_lt in Hrc | apply Nat.ltb_ge in Hrc]|];
    destruct s; simpl; (split; [done|]); (split; [done|]); (split; [done|]);
    (split; [done|]); (split; [done|]); (split; [done|]); split.
  - intros _ _. by rewrite <- app_assoc.
  - intros [? | ?]; [done | lia].
  - intros _ ?. lia.
  - done.
  - done.
  - done.
Qed.

Lemma spaced_window (times : list Z) (a : Z) :
  spaced times → (length (filter (λ t, (a ≤ t < a + 1000)%Z) times) ≤ 1)%nat.
Proof.
  induction times as [|t older IH]; [simpl; lia|]. intros [Hold Hsp].
  rewrite filter_cons. destruct (decide (a ≤ t < a + 1000)) as [Hin|]; [|by apply IH].
  rewrite (filter_none _ older); [simpl; lia|].
  intros t' Ht'. pose proof (proj1 (Forall_forall _ _) Hold t' Ht'). simpl in *. lia.
Qed.

End Scheduler.

(** ** Claims on the save scheduler *)

(** C4 (as the code has it). A non-immediate save request that arrives
    less than one second after the last successful save issues no write:
    while a write is in flight it is put at the end of the queue and no
    timer is touched; otherwise, while an edit is active, a timer is set to
    ask again two seconds later; otherwise it is rescheduled for the end of
    that second.  As long as no write fails and no immediate save is
    requested, any two writes are issued at least one second apart, so
    that no window of one second holds more than one: of the requests made
    at t = 0, 0.2 and 0.5 at most one is executed before t = 1.0.  A failed
    write does not start a window: it leaves the time of the last
    successful save as it was, and a request made after it, with no edit
    active and a second or more after the last success, is executed at
    once, however soon after the failure. *)
Theorem C4_throttle :
  (∀ (now : Z) (retryCount : nat) (s : Component.t),
     now - lastSaveTimeRef s < 1000 →
     let s' := saveGraph now false retryCount s in
     posted s' = posted s ∧ pending s' = pending s ∧
     isSavingRef s' = isSavingRef s ∧ saveStatus s' = saveStatus s ∧
     (isSavingRef s = true →
      saveQueueRef s' = saveQueueRef s ++ [(false, retryCount)] ∧
      timers s' = timers s ∧ saveTimeoutRef s' = saveTimeoutRef s) ∧
     (isSavingRef s = false → hasActiveEdits s = true →
      saveQueueRef s' = saveQueueRef s ∧
      ∃ tm, tm ∈ timers s' ∧ callback tm = CbSaveGraph false 0 ∧
            fireAt tm = now + 2000 ∧
            saveTimeoutRef s' = Some (timer_id tm)) ∧
     (isSavingRef s = false → hasActiveEdits s = false →
      saveQueueRef s' = saveQueueRef s ∧
      ∃ tm, tm ∈ timers s' ∧ callback tm = CbSaveGraph false 0 ∧
            fireAt tm = lastSaveTimeRef s + 1000 ∧
            saveTimeoutRef s' = Some (timer_id tm))) ∧
  (∀ (clock : Z) (trace : list (Z * Event)) (s : Component.t),
     schedulerIdle s = true →
     timedFrom clock trace = true →
     Forall (λ te, throttledEvent te.2 = true) trace →
     spaced (execTimes (run trace s)) ∧
     ∀ a : Z, (length (filter (λ t, (a ≤ t < a + 1000)%Z) (execTimes (run trace s)))
               ≤ 1)%nat) ∧
  (∀ (now t : Z) (k retryCount : nat) (p : PendingSave) (s : Component.t),
     pending s !! k = Some p → hasActiveEdits s = false →
     1000 ≤ t - lastSaveTimeRef s →
     let s1 := respond now k false s in
     lastSaveTimeRef s1 = lastSaveTimeRef s ∧
     execTimes (saveGraph t false retryCount s1) = t :: execTimes s).
Proof.
  split; [|split].
  - intros now rc s Hthr s'. subst s'.
    destruct (saveGraph_false_cases now rc s)
      as [(Hsv & Hs & Hp & Hposted & _ & Htm & Href & Hst & Hq)
         |[(Hsv & Hs & Hp & Hposted & _ & Hq & Hst & tm & Hcb & Ht & Href & Hwhy)
          |(_ & _ & Hge & _)]]; [| |lia].
    + do 4 (split; [done|]). split; [done|]. split; intros; congruence.
    + do 4 (split; [done|]). split; [intros; congruence|].
      assert (tm ∈ timers (saveGraph now false rc s)) as Hin
        by (rewrite Ht; apply elem_of_app; right; by left).
      split; intros _ Hedit; (split; [done|]); exists tm;
        (split; [done|]); (split; [done|]); (split; [|done]);
        destruct Hwhy as [[? ?] | (? & _ & ?)]; congruence.
  - intros clock trace s Hidle Htime Hev.
    destruct (run_Throttled trace clock s Htime Hev (schedulerIdle_Throttled clock s Hidle))
      as (clock' & _ & _ & Hsp & _).
    split; [done|]. intros a. by apply spaced_window.
  - intros now t k rc p s Hk Hed Hthr s1.
    destruct (respond_sameGraph now k false s) as (_ & _ & _ & HEn & HEe).
    fold s1 in HEn, HEe.
    assert (hasActiveEdits s1 = false) as Hed1
      by (unfold hasActiveEdits in *; by rewrite HEn, HEe).
    assert (isSavingRef s1 = false ∧ posted s1 = posted s ∧
            lastSaveTimeRef s1 = lastSaveTimeRef s) as (Hsv1 & Hp1 & Hl1).
    { unfold s1, respond. rewrite Hk.
      destruct (saveGraphResume_failed_view now p (with_pending (delete k (pending s)) s))
        as (_ & -> & _ & _ & -> & -> & _). by destruct s. }
    split; [done|].
    destruct (saveGraph_false_cases t rc s1)
      as [(Hsv & _) |[(_ & _ & _ & _ & _ & _ & _ & tm & _ & _ & _ & Hwhy)
                     |(_ & _ & _ & _ & _ & Hposted & _)]].
    + congruence.
    + destruct Hwhy as [[? _] | (_ & ? & _)]; [congruence | lia].
    + unfold execTimes. by rewrite Hposted, Hp1.
Qed.

Lemma C4_witness :
  (let s' := saveGraph (noon + 200) false 0 (with_lastSaveTimeRef (noon + 120) smallStore) in
   posted s' = [] ∧ pending s' = [] ∧ isSavingRef s' = false ∧ saveStatus s' = saved ∧
   ∃ tm, tm ∈ timers s' ∧ callback tm = CbSaveGraph false 0 ∧
         fireAt tm = noon + 120 + 1000 ∧ saveTimeoutRef s' = Some (timer_id tm)) ∧
  (let trace := [(noon, EvTriggerSave); (noon + 120, EvResponse 0 true);
                 (noon + 200, EvTriggerSave); (noon + 500, EvTriggerSave);
                 (noon + 1120, EvTimer 2)] in
   execTimes (run trace smallStore) = [noon + 1120; noon] ∧
   (length (filter (λ t, (noon ≤ t < noon + 1000)%Z) (execTimes (run trace smallStore)))
    ≤ 1)%nat) ∧
  (let s := saveGraph noon false 0 smallStore in
   execTimes (saveGraph (noon + 200) false 0 (respond (noon + 100) 0 false s))
   = [noon + 200; noon]).
Proof.
  split; [|split].
  - destruct (proj1 C4_throttle (noon + 200) 0%nat
                (with_lastSaveTimeRef (noon + 120) smallStore))
      as (Hposted & Hp & Hs & Hst & _ & _ & Htm); [by vm_compute|].
    repeat split; try done. by apply Htm.
  - split; [reflexivity|].
    apply (proj1 (proj2 C4_throttle) noon);
      [reflexivity | reflexivity | repeat constructor].
  - apply (proj2 (proj2 C4_throttle) (noon + 100) (noon + 200) 0%nat 0%nat
             {| ps_immediate := false; ps_retryCount := 0;
                ps_body := buildGraphData smallStore;
                ps_location := location smallStore |}
             (saveGraph noon false 0 smallStore));
      [reflexivity | reflexivity | by vm_compute].
Defined.

(** C4 fails as stated when the write issued for the first request
    fails: the failure leaves the time of the last successful save as it
    was, and the request made 0.2 s after the first one issues a second
    write within the same second. *)
Lemma C4_counterexample :
  let trace := [(noon, EvTriggerSave); (noon + 100, EvResponse 0 false);
                (noon + 200, EvTriggerSave); (noon + 500, EvTriggerSave)] in
  execTimes (run trace smallStore) = [noon + 200; noon] ∧
  length (filter (λ t, (noon ≤ t < noon + 1000)%Z) (execTimes (run trace smallStore)))
  = 2%nat.
Proof. split; reflexivity. Qed.

(** ** Durable cache *)

(** C9 (as the code has it). A read of the cache never raises and returns
    no data unless the entry is less than 24 hours old.  An entry of 24
    hours or more, and an entry whose timestamp is missing or not a number,
    is removed by the read.  An entry that cannot be parsed, and the entry
    [null], is a miss as well, but the read leaves it in the cache. *)
Theorem C9_cache_read (ToNumberOther : Json → option Z) (now : Z) (s : Component.t) :
  let key := getLocalStorageKey (locationId s) in
  let result := loadGraphFromLocalStorage ToNumberOther now s in
  (∀ data timestamp,
     localStorage s !! key = Some (JsonText data) → data ≠ JNull →
     ToNumber ToNumberOther (getProp "timestamp" data) = Some timestamp →
     (dayMs ≤ now - timestamp →
      result = (None, with_localStorage (delete key (localStorage s)) s)) ∧
     (now - timestamp < dayMs → result = (Some data, s))) ∧
  (∀ data,
     localStorage s !! key = Some (JsonText data) → data ≠ JNull →
     ToNumber ToNumberOther (getProp "timestamp" data) = None →
     result = (None, with_localStorage (delete key (localStorage s)) s)) ∧
  (localStorage s !! key = None ∨ localStorage s !! key = Some (JsonText JNull)
   ∨ (∃ raw, localStorage s !! key = Some (BadText raw)) →
   result = (None, s)).
Proof.
  intros key result. subst key result. unfold loadGraphFromLocalStorage, dayMs.
  split; [|split].
  - intros data timestamp -> Hnull ->. destruct data; try done.
    all: split; intros H.
    all: try (apply Z.ltb_ge in H; by rewrite H).
    all: try (apply Z.ltb_lt in H; by rewrite H).
  - intros data -> Hnull ->. by destruct data.
  - intros [-> | [-> | [raw ->]]]; done.
Qed.

Lemma C9_witness :
  let s := withCacheEntry (JsonText (cachedAt (noon - dayMs - 1))) (mount "7") in
  loadGraphFromLocalStorage (λ _, None) noon s
  = (None, with_localStorage (delete (getLocalStorageKey "7") (localStorage s)) s) ∧
  loadGraphFromLocalStorage (λ _, None) noon
    (withCacheEntry (JsonText (cachedAt (noon - 5000))) (mount "7"))
  = (Some (cachedAt (noon - 5000)),
     withCacheEntry (JsonText (cachedAt (noon - 5000))) (mount "7")) ∧
  (let s := withCacheEntry (JsonText (JObj [("graph", JNull)])) (mount "7") in
   loadGraphFromLocalStorage (λ _, None) noon s
   = (None, with_localStorage (delete (getLocalStorageKey "7") (localStorage s)) s)) ∧
  (let s := withCacheEntry (JsonText JNull) (mount "7") in
   loadGraphFromLocalStorage (λ _, None) noon s = (None, s)).
Proof.
  intros s. split; [|split; [|split]]; cycle 2.
  - intros s1.
    apply (proj1 (proj2 (C9_cache_read (λ _, None) noon s1))
             (JObj [("graph", JNull)])); [reflexivity | discriminate | reflexivity].
  - intros s1. apply (proj2 (proj2 (C9_cache_read (λ _, None) noon s1))).
    right; left. reflexivity.
  - apply (proj1 (proj1 (C9_cache_read (λ _, None) noon s)
                    (cachedAt (noon - dayMs - 1)) (noon - dayMs - 1)
                    ltac:(reflexivity) ltac:(discriminate) ltac:(reflexivity))).
    by vm_compute.
  - apply (proj2 (proj1 (C9_cache_read (λ _, None) noon
                           (withCacheEntry (JsonText (cachedAt (noon - 5000))) (mount "7")))
                    (cachedAt (noon - 5000)) (noon - 5000)
                    ltac:(reflexivity) ltac:(discriminate) ltac:(reflexivity))).
    by vm_compute.
Defined.

(** C9 fails as stated for an entry that cannot be parsed: the read
    returns no data, and the entry is still in the cache afterwards. *)
Lemma C9_counterexample :
  let s := withCacheEntry (BadText "{oops") (mount "7") in
  let result := loadGraphFromLocalStorage (λ _, None) noon s in
  result.1 = None ∧
  localStorage result.2 !! getLocalStorageKey "7" = Some (BadText "{oops").
Proof. split; reflexivity. Qed.

Section Retry.

Implicit Types (s : Component.t) (now : Z).

Lemma saveGraph_immediate now retryCount s :
  saveGraph now true retryCount s
  = startWrite now true retryCount (clearPendingTimeout s).
Proof. unfold saveGraph. by rewrite andb_false_r. Qed.

(** An immediate [saveGraph] call always issues its write. *)
Lemma saveGraph_immediate_view now retryCount s :
  let s' := saveGraph now true retryCount s in
  pending s'
  = pending s ++ [{| ps_immediate := true; ps_retryCount := retryCount;
                     ps_body := buildGraphData s;
                     ps_location := location s |}] ∧
  (∀ tm, tm ∈ timers s' → tm ∈ timers s) ∧ timerSeq s' = timerSeq s ∧
  saveStatus s' = saving ∧ hasUnsavedChanges s' = false ∧
  posted s' = (now, buildGraphData s) :: posted s.
Proof.
  simpl. rewrite saveGraph_immediate.
  assert (∀ tm, tm ∈ timers (clearPendingTimeout s) → tm ∈ timers s) as Ht
    by apply clearPendingTimeout_timers.
  revert Ht. unfold startWrite, clearPendingTimeout, clearTimeout.
  destruct s; simpl. case_match; simpl; auto 10.
Qed.

Lemma respond_last now ok s (l : list PendingSave) (p : PendingSave) :
  pending s = l ++ [p] →
  respond now (length l) ok s = saveGraphResume now p ok (with_pending l s).
Proof.
  intros Hp. unfold respond. rewrite Hp, list_lookup_middle by done.
  by rewrite delete_middle, app_nil_r.
Qed.

Lemma find_fresh_timer (l : list Timer) (tm : Timer) (rest : list Timer) :
  Forall (λ t, (timer_id t < timer_id tm)%nat) l →
  List.find (λ t, Nat.eqb (timer_id t) (timer_id tm)) (l ++ tm :: rest) = Some tm.
Proof.
  induction 1 as [|t l Ht _ IH]; simpl.
  - by rewrite Nat.eqb_refl.
  - destruct (Nat.eqb_spec (timer_id t) (timer_id tm)); [lia | done].
Qed.



End Retry.



(** ** Begin-edit and the pending save timer *)

Lemma startEditingNode_clears_timer (nodeId : string) (s : Component.t) :
  saveTimeoutRef (startEditingNode nodeId s) = None ∧
  ∀ tid tm, saveTimeoutRef s = Some tid →
            tm ∈ timers (startEditingNode nodeId s) → timer_id tm ≠ tid.
Proof.
  unfold startEditingNode, clearTimeout. destruct s; simpl.
  destruct saveTimeoutRef0 as [tid|]; simpl; split; try done.
  intros ? tm [= <-] [Hne _]%list_elem_of_filter. done.
Qed.

Lemma onEdgeDoubleClick_keeps_timers (edgeId : string) (s : Component.t) :
  saveTimeoutRef (onEdgeDoubleClick edgeId s) = saveTimeoutRef s ∧
  timers (onEdgeDoubleClick edgeId s) = timers s.
Proof. by destruct s. Qed.

(** C8 at the failing input. A non-immediate save asked for 80 ms after a
    successful one is waiting on its throttle timer.  Beginning to edit a
    node clears that timer; beginning to edit an edge leaves it in place,
    and it fires inside the editing window (where the save it calls is put
    off again rather than executed). *)
Theorem C8_edge_edit_keeps_save_timer :
  let waiting := saveGraph (noon + 200) false 0
                   (with_lastSaveTimeRef (noon + 120) smallStore) in
  let throttleTimer := {| timer_id := 0; fireAt := noon + 1120;
                          callback := CbSaveGraph false 0 |} in
  (saveTimeoutRef waiting = Some 0%nat ∧ timers waiting = [throttleTimer]) ∧
  (saveTimeoutRef (startEditingNode "node-1" waiting) = None ∧
   timers (startEditingNode "node-1" waiting) = []) ∧
  (saveTimeoutRef (onEdgeDoubleClick "edge-root-node-1" waiting) = Some 0%nat ∧
   timers (onEdgeDoubleClick "edge-root-node-1" waiting) = [throttleTimer]) ∧
  (let fired := fireTimer (noon + 1120) 0 (onEdgeDoubleClick "edge-root-node-1" waiting) in
   timers fired = [{| timer_id := 1; fireAt := noon + 3120;
                      callback := CbSaveGraph false 0 |}] ∧
   posted fired = []).
Proof. repeat split; reflexivity. Qed.

(** * Further properties *)

(** ** Cache write and read *)

Section CacheRoundTrip.

Variable ToNumberOther : Json → option Z.

Lemma load_fresh_entry now s data timestamp :
  localStorage s !! getLocalStorageKey (locationId s) = Some (JsonText data) →
  data ≠ JNull →
  ToNumber ToNumberOther (getProp "timestamp" data) = Some timestamp →
  now - timestamp < dayMs →
  loadGraphFromLocalStorage ToNumberOther now s = (Some data, s).
Proof.
  intros Hk Hnull Hts Hage. unfold loadGraphFromLocalStorage, dayMs in *.
  rewrite Hk. destruct data; try done; rewrite Hts;
    by rewrite (proj2 (Z.ltb_lt _ _) Hage).
Qed.

Lemma load_missing_entry now s :
  localStorage s !! getLocalStorageKey (locationId s) = None →
  loadGraphFromLocalStorage ToNumberOther now s = (None, s).
Proof. intros Hk. unfold loadGraphFromLocalStorage. by rewrite Hk. Qed.


Lemma purged_entry s :
  localStorage
    (with_localStorage (delete (getLocalStorageKey (locationId s)) (localStorage s)) s)
  !! getLocalStorageKey (locationId s) = None ∧
  locationId
    (with_localStorage (delete (getLocalStorageKey (locationId s)) (localStorage s)) s)
  = locationId s.
Proof. destruct s; simpl. split; [apply lookup_delete_eq | done]. Qed.

End CacheRoundTrip.

(** X1. What [saveGraphToLocalStorage] writes at time [t] is read back
    whole by [loadGraphFromLocalStorage] for the next 24 hours and leaves
    the cache as it is; from 24 hours on the read returns nothing, removes
    the entry, and every later read finds no entry. *)
Theorem X1_cache_round_trip
    (ToNumberOther : Json → option Z) (graphData locData : Json) (t now : Z)
    (s : Component.t) :
  let s1 := saveGraphToLocalStorage graphData locData t s in
  (now - t < dayMs →
   loadGraphFromLocalStorage ToNumberOther now s1
   = (Some (cacheRecord graphData locData t), s1)) ∧
  (dayMs ≤ now - t →
   ∃ s2, loadGraphFromLocalStorage ToNumberOther now s1 = (None, s2) ∧
         localStorage s2 !! getLocalStorageKey (locationId s) = None ∧
         ∀ later, loadGraphFromLocalStorage ToNumberOther later s2 = (None, s2)).
Proof.
  intros s1.
  assert (locationId s1 = locationId s ∧
          localStorage s1 !! getLocalStorageKey (locationId s)
          = Some (JsonText (cacheRecord graphData locData t))) as [Hid Hk].
  { unfold s1, saveGraphToLocalStorage. destruct s; simpl. split; [done|].
    apply lookup_insert_eq. }
  split.
  - intros Hage. apply (load_fresh_entry _ _ _ _ t); rewrite ?Hid; done.
  - intros Hage. destruct (purged_entry s1) as [Hk2 Hid2].
    exists (with_localStorage
              (delete (getLocalStorageKey (locationId s1)) (localStorage s1)) s1).
    split; [|split].
    + unfold loadGraphFromLocalStorage. rewrite Hid, Hk. simpl.
      unfold dayMs in Hage. by rewrite (proj2 (Z.ltb_ge _ _) Hage).
    + rewrite <- Hid. exact Hk2.
    + intros later. apply load_missing_entry. rewrite Hid2. exact Hk2.
Qed.

Lemma X1_witness :
  loadGraphFromLocalStorage (λ _, None) (noon + 5000)
    (saveGraphToLocalStorage (encodeGraph (buildGraphData smallStore)) JNull noon smallStore)
  = (Some (cacheRecord (encodeGraph (buildGraphData smallStore)) JNull noon),
     saveGraphToLocalStorage (encodeGraph (buildGraphData smallStore)) JNull noon smallStore) ∧
  ∃ s2, loadGraphFromLocalStorage (λ _, None) (noon + dayMs)
          (saveGraphToLocalStorage (encodeGraph (buildGraphData smallStore)) JNull noon
             smallStore) = (None, s2) ∧
        localStorage s2 !! getLocalStorageKey (locationId smallStore) = None ∧
        ∀ later, loadGraphFromLocalStorage (λ _, None) later s2 = (None, s2).
Proof.
  split.
  - apply (proj1 (X1_cache_round_trip (λ _, None) _ JNull noon (noon + 5000) smallStore)).
    by vm_compute.
  - apply (proj2 (X1_cache_round_trip (λ _, None) _ JNull noon (noon + dayMs) smallStore)).
    by vm_compute.
Defined.


(** ** The cache backup of a save *)





(** ** Reconciliation with no edit active *)

Section QuietReconciliation.

Implicit Types (s : Component.t).

Lemma filter_all {A} (P : A → Prop) `{∀ x, Decision (P x)} (l : list A) :
  (∀ x, x ∈ l → P x) → filter P l = l.
Proof.
  induction l as [|x l IH]; intros Hl; [done|].
  rewrite filter_cons_True; [|apply Hl; by left].
  f_equal. apply IH. intros y Hy. apply Hl. by right.
Qed.

Lemma no_active_edits s :
  hasActiveEdits s = false →
  (∀ x, x ∉ editingNodesRef s) ∧ (∀ x, x ∉ editingEdgesRef s).
Proof.
  unfold hasActiveEdits. intros [Hn He]%orb_false_iff.
  apply Nat.ltb_ge in Hn, He.
  assert (size (editingNodesRef s) = 0%nat) as Hn0 by lia.
  assert (size (editingEdgesRef s) = 0%nat) as He0 by lia.
  apply size_empty_iff in Hn0, He0. split; intros x Hx.
  - apply Hn0 in Hx. by apply not_elem_of_empty in Hx.
  - apply He0 in Hx. by apply not_elem_of_empty in Hx.
Qed.

(** With no edit active the snapshot wins whatever the path taken. *)
Lemma processGraphData_quiet gn ge fromCache s :
  hasActiveEdits s = false →
  nodes (processGraphData (snapshot gn ge) fromCache s)
  = consRoot (List.find isRoot (nodes s)) (decorateNode <$> gn) ∧
  edges (processGraphData (snapshot gn ge) fromCache s) = decorateEdge <$> ge.
Proof.
  intros [Hn He]%no_active_edits. split.
  - rewrite processGraphData_nodes. unfold processNodes.
    destruct ((length (nodes s) <=? 1)%nat || fromCache).
    + destruct s; simpl. by repeat case_match.
    + destruct s; simpl in *. f_equal.
      rewrite (filter_all _ (decorateNode <$> gn)) by (intros; apply Hn).
      rewrite (filter_none _ nodes0); [apply app_nil_r|].
      intros n _ [_ Hin]. by apply Hn in Hin.
  - unfold snapshot, processGraphData, processEdges.
    assert (edges (processNodes (decorateNode <$> gn) fromCache s) = edges s
            ∧ editingEdgesRef (processNodes (decorateNode <$> gn) fromCache s)
              = editingEdgesRef s) as [-> ->].
    { unfold processNodes. destruct s; simpl. repeat (case_match; simpl); done. }
    destruct ((length (edges s) =? 0)%nat || fromCache).
    + by destruct (processNodes _ _ s).
    + destruct (processNodes _ _ s); simpl.
      rewrite (filter_all _ (decorateEdge <$> ge)) by (intros; apply He).
      rewrite (filter_none _ (edges s)); [apply app_nil_r|].
      intros e _ Hin. by apply He in Hin.
Qed.

End QuietReconciliation.

Section ReconcileTwice.

Implicit Types (s : Component.t).

Lemma component_ext s s' :
  locationId s = locationId s' → location s = location s' →
  nodes s = nodes s' → edges s = edges s' → nodeCounter s = nodeCounter s' →
  editingEdge s = editingEdge s' → connectingNodeId s = connectingNodeId s' →
  saveStatus s = saveStatus s' → hasUnsavedChanges s = hasUnsavedChanges s' →
  lastSaveTimeRef s = lastSaveTimeRef s' → saveTimeoutRef s = saveTimeoutRef s' →
  isSavingRef s = isSavingRef s' → editingNodesRef s = editingNodesRef s' →
  editingEdgesRef s = editingEdgesRef s' → saveQueueRef s = saveQueueRef s' →
  hasLoadedGraphRef s = hasLoadedGraphRef s' → pollingPausedRef s = pollingPausedRef s' →
  timers s = timers s' → timerSeq s = timerSeq s' → pending s = pending s' →
  posted s = posted s' → localStorage s = localStorage s' → s = s'.
Proof. destruct s, s'; simpl. intros. by subst. Qed.

(** The fields a reconciliation can write. *)
Lemma processGraphData_frame g fromCache s :
  let s' := processGraphData g fromCache s in
  locationId s' = locationId s ∧ location s' = location s ∧
  editingEdge s' = editingEdge s ∧ connectingNodeId s' = connectingNodeId s ∧
  saveStatus s' = saveStatus s ∧ hasUnsavedChanges s' = hasUnsavedChanges s ∧
  lastSaveTimeRef s' = lastSaveTimeRef s ∧ saveTimeoutRef s' = saveTimeoutRef s ∧
  isSavingRef s' = isSavingRef s ∧ editingNodesRef s' = editingNodesRef s ∧
  editingEdgesRef s' = editingEdgesRef s ∧ saveQueueRef s' = saveQueueRef s ∧
  pollingPausedRef s' = pollingPausedRef s ∧ timers s' = timers s ∧
  timerSeq s' = timerSeq s ∧ pending s' = pending s ∧ posted s' = posted s ∧
  localStorage s' = localStorage s.
Proof.
  destruct g as [[[gn|] [ge|]]|]; try (by simpl).
  unfold processGraphData, processEdges, processNodes. destruct s; simpl.
  repeat (case_match; simpl); done.
Qed.

(** The counter and the loaded flag are written on the first-load path
    only, and only for a snapshot that holds a node. *)
Lemma processGraphData_counter_flag gn ge fromCache s :
  let s' := processGraphData (snapshot gn ge) fromCache s in
  ((length (nodes s) <=? 1)%nat || fromCache = false ∨ gn = [] →
   nodeCounter s' = nodeCounter s ∧ hasLoadedGraphRef s' = hasLoadedGraphRef s).
Proof.
  intros s' Hcase. subst s'. rewrite processGraphData_counter.
  assert (hasLoadedGraphRef (processGraphData (snapshot gn ge) fromCache s)
          = hasLoadedGraphRef (processNodes (decorateNode <$> gn) fromCache s)) as ->.
  { unfold snapshot, processGraphData, processEdges.
    destruct (processNodes _ _ s); simpl. by case_match. }
  unfold processNodes. destruct Hcase as [-> | ->].
  - by destruct s.
  - destruct s; simpl. rewrite andb_false_r. by repeat case_match.
Qed.

Lemma hasActiveEdits_processGraphData g fromCache s :
  hasActiveEdits (processGraphData g fromCache s) = hasActiveEdits s.
Proof.
  unfold hasActiveEdits.
  by destruct (processGraphData_editing g fromCache s) as [-> ->].
Qed.

End ReconcileTwice.

(** X4. With no edit active, a reconciliation is a replacement: the node
    list becomes the store's root entry followed by the snapshot's nodes
    with their edit flag reset, the edge list becomes the snapshot's edges,
    and every other node of the store that the snapshot does not hold is
    gone, saved or not. *)
Theorem X4_snapshot_replaces_when_no_edit
    (gn : list Node.t) (ge : list Edge.t) (fromCache : bool) (s : Component.t) :
  hasActiveEdits s = false →
  let s' := processGraphData (snapshot gn ge) fromCache s in
  nodes s' = consRoot (List.find isRoot (nodes s)) (decorateNode <$> gn) ∧
  edges s' = decorateEdge <$> ge ∧
  ∀ x, x ≠ "root" → x ∉ (Node.id <$> gn) → nodeVersions x (nodes s') = [].
Proof.
  intros Hquiet s'. destruct (processGraphData_quiet gn ge fromCache s Hquiet) as [Hn He].
  split; [done|]. split; [done|]. intros x Hx Hgn. unfold s'. rewrite Hn.
  rewrite nodeVersions_consRoot by done. apply filter_none.
  intros n (m & -> & Hm)%list_elem_of_fmap Hid. apply Hgn.
  apply list_elem_of_fmap. exists m. by rewrite <- Hid.
Qed.

Lemma X4_witness :
  let s' := processGraphData (snapshot [sampleNode "node-1" "remote"] []) false
              (sampleStore [sampleRoot; sampleNode "node-1" "a"; sampleNode "node-2" "mine"]
                 [newEdgeBetween "root" "node-1"; newEdgeBetween "root" "node-2"]) in
  nodes s' = [sampleRoot; sampleNode "node-1" "remote"] ∧ edges s' = [] ∧
  nodeVersions "node-2" (nodes s') = [].
Proof.
  intros s'.
  destruct (X4_snapshot_replaces_when_no_edit [sampleNode "node-1" "remote"] [] false
              (sampleStore [sampleRoot; sampleNode "node-1" "a";
                            sampleNode "node-2" "mine"]
                 [newEdgeBetween "root" "node-1"; newEdgeBetween "root" "node-2"])
              eq_refl) as (Hn & He & Hgone).
  split; [exact Hn|]. split; [exact He|]. apply Hgone; [done|].
  cbn. intros H%list_elem_of_singleton. discriminate H.
Defined.

(** X5. With the root in the store and no edit active, reconciling the
    same snapshot a second time changes nothing: the component after the
    second pass is the component after the first. *)
Theorem X5_reconciliation_idempotent (g : option GraphData) (s : Component.t) :
  is_Some (List.find isRoot (nodes s)) → hasActiveEdits s = false →
  processGraphData g false (processGraphData g false s) = processGraphData g false s.
Proof.
  intros [r Hr] Hquiet. destruct g as [[[gn|] [ge|]]|]; try done.
  fold (snapshot gn ge). set (s1 := processGraphData (snapshot gn ge) false s).
  assert (hasActiveEdits s1 = false) as Hquiet1
    by (unfold s1; by rewrite hasActiveEdits_processGraphData).
  destruct (processGraphData_quiet gn ge false s Hquiet) as [Hn He].
  fold s1 in Hn, He. rewrite Hr in Hn. unfold consRoot in Hn.
  destruct (processGraphData_quiet gn ge false s1 Hquiet1) as [Hn2 He2].
  assert (List.find isRoot (nodes s1) = Some r) as Hr1.
  { rewrite Hn. simpl. pose proof (find_isRoot_id _ _ Hr) as Hid.
    unfold isRoot at 1. by rewrite bool_decide_eq_true_2. }
  rewrite Hr1 in Hn2. unfold consRoot in Hn2.
  destruct (processGraphData_counter_flag gn ge false s1) as [Hc Hf].
  { destruct gn as [|n gn]; [by right|]. left. by rewrite Hn. }
  destruct (processGraphData_frame (snapshot gn ge) false s1)
    as (? & ? & ? & ? & ? & ? & ? & ? & ? & ? & ? & ? & ? & ? & ? & ? & ? & ?).
  apply component_ext; congruence.
Qed.

Lemma X5_witness :
  let g := snapshot [sampleNode "node-1" "remote"; sampleNode "node-5" "new"]
                    [newEdgeBetween "root" "node-1"] in
  processGraphData g false (processGraphData g false smallStore)
  = processGraphData g false smallStore.
Proof.
  apply X5_reconciliation_idempotent; [by eexists | reflexivity].
Defined.

(** ** The body of a save *)

Lemma persist_after_load (F : list Node.t) :
  (∀ n, n ∈ F → Node.id n ≠ "root") →
  persistNode <$> filter (λ n, Node.id n ≠ "root") (decorateNode <$> (persistNode <$> F))
  = persistNode <$> F.
Proof.
  intros HF. rewrite filter_all.
  - rewrite <- !list_fmap_compose. apply list_fmap_ext. by intros i n _.
  - intros n (m & -> & (m' & -> & Hm')%list_elem_of_fmap)%list_elem_of_fmap.
    simpl. by apply HF.
Qed.

Lemma filter_consRoot (r : option Node.t) (ns l : list Node.t) :
  r = List.find isRoot ns →
  filter (λ n, Node.id n ≠ "root") (consRoot r l) = filter (λ n, Node.id n ≠ "root") l.
Proof.
  intros ->. destruct (List.find isRoot ns) as [r|] eqn:Hr; [|done]. simpl.
  apply filter_cons_False. rewrite (find_isRoot_id _ _ Hr). by intros ?.
Qed.

(** X6. The body of a save holds every node of the store but the root,
    in store order, and every edge.  With no edit active, fetching that
    body back and reconciling it leaves the next save with the same body:
    a save followed by a fetch of what was saved loses nothing. *)
Theorem X6_saved_body_round_trip (fromCache : bool) (s : Component.t) :
  let body := buildGraphData s in
  (Node.id <$> default [] (gd_nodes body)
   = filter (λ id, id ≠ "root") (Node.id <$> nodes s)) ∧
  (Edge.id <$> default [] (gd_edges body) = Edge.id <$> edges s) ∧
  (hasActiveEdits s = false →
   buildGraphData (processGraphData (Some body) fromCache s) = body).
Proof.
  intros body. split; [|split].
  - simpl. induction (nodes s) as [|n ns IH]; [done|].
    rewrite fmap_cons, !filter_cons.
    destruct (decide (Node.id n ≠ "root")); [|done]. rewrite fmap_cons, fmap_cons.
    f_equal. exact IH.
  - simpl. rewrite <- list_fmap_compose. by apply list_fmap_ext.
  - intros Hquiet. unfold body at 1.
    change (Some (buildGraphData s))
      with (snapshot (persistNode <$> filter (λ n, Node.id n ≠ "root") (nodes s))
              (persistEdge <$> edges s)).
    destruct (processGraphData_quiet
                (persistNode <$> filter (λ n, Node.id n ≠ "root") (nodes s))
                (persistEdge <$> edges s) fromCache s Hquiet) as [Hn He].
    unfold buildGraphData at 1. rewrite Hn, He. unfold body, buildGraphData.
    f_equal; f_equal.
    + rewrite (filter_consRoot _ (nodes s)) by done. apply persist_after_load.
      by intros n [? _]%list_elem_of_filter.
    + rewrite <- !list_fmap_compose. by apply list_fmap_ext.
Qed.

Lemma X6_witness :
  buildGraphData (processGraphData (Some (buildGraphData smallStore)) false smallStore)
  = buildGraphData smallStore.
Proof.
  apply (proj2 (proj2 (X6_saved_body_round_trip false smallStore))). reflexivity.
Defined.

(** ** After a delete *)

Lemma deleteNode_unfold fuel now nodeId s s' :
  deleteNode fuel true now nodeId s = Some s' →
  ∃ descendants,
    getDescendants fuel nodeId (edges s) = Some descendants ∧
    nodes s' = filter (λ n, Node.id n ∉ nodeId :: descendants) (nodes s) ∧
    edges s' = filter (λ e, (Edge.source e ∉ nodeId :: descendants)
                            ∧ (Edge.target e ∉ nodeId :: descendants)) (edges s) ∧
    hasUnsavedChanges s' = true ∧
    timers s' = timers s ++ [{| timer_id := timerSeq s; fireAt := now + 300;
                                callback := CbTriggerImmediateSave |}] ∧
    posted s' = posted s ∧ pending s' = pending s ∧
    timerSeq s' = S (timerSeq s) ∧ saveTimeoutRef s' = saveTimeoutRef s.
Proof.
  unfold deleteNode. simpl.
  destruct (getDescendants fuel nodeId (edges s)) as [descendants|]; [|done].
  intros [= <-]. exists descendants. by destruct s.
Qed.

(** X7. A delete leaves no edge hanging: if every edge of the store
    starts and ends at a stored node before a confirmed delete, then so
    does every edge that is left after it, and no node with the deleted id
    is left. *)
Theorem X7_deleteNode_keeps_edges_attached
    (s : Component.t) (now : Z) (nodeId : string) :
  acyclicFrom (edges s) nodeId → edgesAttached s →
  ∃ s', deleteNode (S (length (edges s))) true now nodeId s = Some s' ∧
        edgesAttached s' ∧ nodeVersions nodeId (nodes s') = [].
Proof.
  intros Hacy Hatt. destruct (getDescendants_total _ _ Hacy) as [l Hl].
  specialize (Hl (S (length (edges s))) (Nat.lt_succ_diag_r _)).
  destruct (deleteNode (S (length (edges s))) true now nodeId s) as [s'|] eqn:Hdel.
  2: { unfold deleteNode in Hdel. simpl negb in Hdel. cbv iota in Hdel.
       by rewrite Hl in Hdel. }
  exists s'. split; [done|].
  destruct (deleteNode_unfold _ _ _ _ _ Hdel) as (l' & Hl' & Hn & He & _).
  split.
  - intros e. rewrite He, Hn. intros [[Hs Ht] Hin]%list_elem_of_filter.
    destruct (Hatt e Hin) as [(n & Hns & Hn')%list_elem_of_fmap
                              (m & Hmt & Hm')%list_elem_of_fmap].
    split; apply list_elem_of_fmap; [exists n | exists m]; (split; [done|]);
      apply list_elem_of_filter; (split; [congruence | done]).
  - rewrite Hn. apply filter_none. intros n [Hnot _]%list_elem_of_filter Hid.
    apply Hnot. rewrite Hid. by left.
Qed.

Lemma X7_witness :
  ∃ s', deleteNode 4 true 0 "node-1"
          (sampleStore [sampleRoot; sampleNode "node-1" "a"; sampleNode "node-2" "b";
                        sampleNode "node-3" "c"] treeEdges) = Some s' ∧
        edgesAttached s' ∧ nodeVersions "node-1" (nodes s') = [].
Proof.
  apply (X7_deleteNode_keeps_edges_attached
           (sampleStore [sampleRoot; sampleNode "node-1" "a"; sampleNode "node-2" "b";
                         sampleNode "node-3" "c"] treeEdges) 0 "node-1").
  - apply (getDescendants_acyclic 4 _ _ ["node-2"]). reflexivity.
  - intros e He. vm_compute in He.
    repeat (apply elem_of_cons in He as [-> | He]);
      [| | |by apply elem_of_nil in He];
      split; vm_compute; repeat constructor.
Defined.

(** ** Timers set by a handler *)

Section HandlerTimers.

Implicit Types (s : Component.t) (now : Z) (tm : Timer).
















End HandlerTimers.



(** ** Nodes made by the connection builder *)

Section BuilderNodes.

Implicit Types (s : Component.t).




End BuilderNodes.



(** X10. An edge made by [onConnect] starts at a stored node: when every
    edge of the store starts and ends at a stored node, this still holds
    after [onConnect], whatever source the connection names (a source that
    is not stored creates nothing).  [onConnectEnd] does not look its
    source up; it keeps the property when the recorded connecting id is
    that of a stored node. *)
Theorem X10_new_edges_are_attached (s : Component.t) :
  edgesAttached s →
  (∀ connectionSource, edgesAttached (onConnect connectionSource s)) ∧
  (∀ now canvas event,
     (∀ src, connectingNodeId s = Some src → src ∈ (Node.id <$> nodes s)) →
     edgesAttached (onConnectEnd now canvas event s)).
Proof.
  intros Hatt.
  assert (∀ s' src p,
            src ∈ (Node.id <$> nodes s) →
            nodes s' = nodes s ++ [outcomeNodeAt (nodeIdOf (nodeCounter s)) p] →
            edges s' = edges s ++ [newEdgeBetween src (nodeIdOf (nodeCounter s))] →
            edgesAttached s') as Happ.
  { intros s' src p Hsrc Hn He e. rewrite He, Hn, fmap_app.
    intros [Hin | ->%list_elem_of_singleton]%elem_of_app.
    - destruct (Hatt e Hin). split; apply elem_of_app; by left.
    - simpl. split; apply elem_of_app; [by left | right; by left]. }
  split.
  - intros src.
    destruct (onConnect_cases src s)
      as [(Hn & He & _) | (sourceNode & Hf & Hn & He & _)].
    + intros e. rewrite He, Hn. apply Hatt.
    + eapply (Happ _ src); [|exact Hn|exact He].
      apply find_some in Hf as [Hin Hid]. apply bool_decide_eq_true in Hid.
      apply list_elem_of_fmap. exists sourceNode. split; [done|].
      by apply list_elem_of_In.
  - intros now canvas event Hsrc.
    destruct (onConnectEnd_cases now canvas event s)
      as [(Hn & He & _)
         |(src & x & y & bl & bt & Hc & _ & _ & _ & _ & Hn & He & _)].
    + intros e. rewrite He, Hn. apply Hatt.
    + eapply (Happ _ src); [by apply Hsrc|exact Hn|exact He].
Qed.

Lemma X10_witness :
  edgesAttached (onConnect "node-1" smallStore) ∧
  edgesAttached (onConnect "gone" smallStore) ∧
  edgesAttached (onConnectEnd noon sampleCanvas (mouseUpOn None 400 300)
                   (onConnectStart (Some "root") smallStore)).
Proof.
  assert (edgesAttached smallStore) as Hs.
  { intros e ->%list_elem_of_singleton. split; vm_compute; repeat constructor. }
  split; [|split].
  - apply (proj1 (X10_new_edges_are_attached smallStore Hs)).
  - apply (proj1 (X10_new_edges_are_attached smallStore Hs)).
  - apply (proj2 (X10_new_edges_are_attached (onConnectStart (Some "root") smallStore) Hs)).
    intros src [= <-]. vm_compute. repeat constructor.
Defined.

(** ** Completion toggle and cost update *)

Section Updates.

Implicit Types (s : Component.t) (now : Z).

(** A non-immediate [saveGraph] call that nothing holds back. *)
Lemma saveGraph_at_once now retryCount s :
  isSavingRef s = false → hasActiveEdits s = false →
  1000 ≤ now - lastSaveTimeRef s →
  let s' := saveGraph now false retryCount s in
  posted s' = (now, buildGraphData s) :: posted s ∧
  pending s' = pending s ++ [{| ps_immediate := false; ps_retryCount := retryCount;
                                ps_body := buildGraphData s;
                                ps_location := location s |}] ∧
  hasUnsavedChanges s' = false ∧ saveStatus s' = saving ∧
  isSavingRef s' = true ∧ pollingPausedRef s' = true ∧
  nodes s' = nodes s ∧ edges s' = edges s ∧
  timerSeq s' = timerSeq s ∧ localStorage s' = localStorage s ∧
  (∀ tm, tm ∈ timers s' → tm ∈ timers s).
Proof.
  intros Hsv Hed Hthr. simpl.
  assert (∀ tm, tm ∈ timers (clearPendingTimeout s) → tm ∈ timers s) as Ht
    by apply clearPendingTimeout_timers.
  apply Z.ltb_ge in Hthr. revert Ht Hed Hthr.
  unfold saveGraph, startWrite, clearPendingTimeout, clearTimeout, hasActiveEdits.
  rewrite Hsv. destruct s; simpl.
  case_match; simpl; intros Ht -> ->; simpl; auto 12.
Qed.

Lemma setCompleted_twice (n : Node.t) :
  setCompleted (negb (completed (Node.data (setCompleted (negb (completed (Node.data n))) n))))
    (setCompleted (negb (completed (Node.data n))) n) = n.
Proof. destruct n as [? ? ? []]. unfold setCompleted. simpl. by rewrite negb_involutive. Qed.

Lemma toggleNodeComplete_nodes now nodeId s :
  nodes (toggleNodeComplete now nodeId s)
  = mapNode nodeId (λ node, setCompleted (negb (completed (Node.data node))) node) (nodes s)
  ∧ edges (toggleNodeComplete now nodeId s) = edges s.
Proof.
  unfold toggleNodeComplete.
  destruct (saveGraph_sameGraph now false 0 s) as (Hn & He & _).
  destruct (saveGraph now false 0 s); simpl in *. by subst.
Qed.

Lemma mapNode_absent nodeId (f : Node.t → Node.t) (ns : list Node.t) :
  nodeId ∉ (Node.id <$> ns) → mapNode nodeId f ns = ns.
Proof.
  unfold mapNode. induction ns as [|n ns IH]; [done|]. rewrite !fmap_cons.
  intros [Hn Hns]%not_elem_of_cons. rewrite IH by done.
  by rewrite bool_decide_eq_false_2 by congruence.
Qed.

Lemma toggled_body_differs nodeId (ns : list Node.t) :
  nodeId ≠ "root" → nodeId ∈ (Node.id <$> ns) →
  persistNode <$> filter (λ n, Node.id n ≠ "root")
    (mapNode nodeId (λ node, setCompleted (negb (completed (Node.data node))) node) ns)
  ≠ persistNode <$> filter (λ n, Node.id n ≠ "root") ns.
Proof.
  intros Hroot. unfold mapNode. induction ns as [|n ns IH]; simpl.
  { by intros ?%elem_of_nil. }
  intros Hin. destruct (decide (Node.id n = nodeId)) as [Hn|Hn].
  - rewrite bool_decide_eq_true_2 by done.
    rewrite filter_cons_True by (simpl; congruence).
    rewrite filter_cons_True by congruence.
    simpl. intros [= Hc _]. by destruct (completed (Node.data n)).
  - rewrite bool_decide_eq_false_2 by done.
    apply elem_of_cons in Hin as [? | Hin]; [congruence|].
    destruct (decide (Node.id n ≠ "root")).
    + rewrite !filter_cons_True by done. simpl. intros [= Heq]. by apply IH.
    + rewrite !filter_cons_False by done. by apply IH.
Qed.

End Updates.

(** X11. Toggling the completion of a node twice restores the node list;
    the toggle never touches the edges, and with an id that no node has it
    leaves the node list as it is. *)
Theorem X11_toggle_twice_restores (t1 t2 : Z) (nodeId : string) (s : Component.t) :
  nodes (toggleNodeComplete t2 nodeId (toggleNodeComplete t1 nodeId s)) = nodes s ∧
  edges (toggleNodeComplete t1 nodeId s) = edges s ∧
  (nodeId ∉ (Node.id <$> nodes s) → nodes (toggleNodeComplete t1 nodeId s) = nodes s).
Proof.
  destruct (toggleNodeComplete_nodes t1 nodeId s) as [Hn1 He1].
  destruct (toggleNodeComplete_nodes t2 nodeId (toggleNodeComplete t1 nodeId s))
    as [Hn2 _].
  split; [|split; [done|]].
  - rewrite Hn2, Hn1. unfold mapNode. rewrite <- list_fmap_compose.
    rewrite <- (list_fmap_id (nodes s)) at 2. apply list_fmap_ext.
    intros _ n _. simpl. destruct (decide (Node.id n = nodeId)) as [Hn|Hn].
    + rewrite (bool_decide_eq_true_2 _ Hn). simpl.
      rewrite (bool_decide_eq_true_2 _ Hn). apply setCompleted_twice.
    + rewrite (bool_decide_eq_false_2 _ Hn). by rewrite (bool_decide_eq_false_2 _ Hn).
  - intros Habs. rewrite Hn1. by apply mapNode_absent.
Qed.

Lemma X11_witness :
  nodes (toggleNodeComplete (noon + 5) "node-1" (toggleNodeComplete noon "node-1" smallStore))
  = nodes smallStore ∧
  nodes (toggleNodeComplete noon "node-9" smallStore) = nodes smallStore.
Proof.
  destruct (X11_toggle_twice_restores noon (noon + 5) "node-1" smallStore) as (H1 & _ & _).
  destruct (X11_toggle_twice_restores noon noon "node-9" smallStore) as (_ & _ & H2).
  split; [exact H1|]. apply H2. vm_compute.
  intros H. repeat (apply elem_of_cons in H as [H|H]; [discriminate H|]).
  by apply elem_of_nil in H.
Defined.

(** X12. The save that a completion toggle asks for is built before the
    toggle is applied.  When nothing holds the save back (no write in
    flight, no edit open, a second or more since the last save), the toggle
    of a stored node other than the root issues one write whose body is
    that of the store before the toggle, which differs from the body of
    the store after it; the dirty flag is cleared and no timer is added, so
    the new completion state waits for the next save. *)
Theorem X12_toggle_saves_previous_state (now : Z) (nodeId : string) (s : Component.t) :
  isSavingRef s = false → hasActiveEdits s = false →
  1000 ≤ now - lastSaveTimeRef s →
  nodeId ≠ "root" → nodeId ∈ (Node.id <$> nodes s) →
  let s' := toggleNodeComplete now nodeId s in
  posted s' = (now, buildGraphData s) :: posted s ∧
  buildGraphData s' ≠ buildGraphData s ∧
  hasUnsavedChanges s' = false ∧
  (∀ tm, tm ∈ timers s' → tm ∈ timers s).
Proof.
  intros Hsv Hed Hthr Hroot Hin s'.
  destruct (saveGraph_at_once now 0 s Hsv Hed Hthr)
    as (Hp & _ & Hd & _ & _ & _ & _ & _ & _ & _ & Ht).
  destruct (toggleNodeComplete_nodes now nodeId s) as [Hn He]. fold s' in Hn, He.
  assert (posted s' = posted (saveGraph now false 0 s) ∧
          hasUnsavedChanges s' = hasUnsavedChanges (saveGraph now false 0 s) ∧
          timers s' = timers (saveGraph now false 0 s)) as (-> & -> & ->).
  { unfold s', toggleNodeComplete. by destruct (saveGraph now false 0 s). }
  split; [done|]. split; [|done].
  unfold buildGraphData. rewrite Hn, He. intros [= Heq].
  by apply (toggled_body_differs nodeId (nodes s)).
Qed.

Lemma X12_witness :
  let s := with_lastSaveTimeRef (noon - 5000) smallStore in
  let s' := toggleNodeComplete noon "node-1" s in
  posted s' = [(noon, buildGraphData s)] ∧
  buildGraphData s' ≠ buildGraphData s ∧
  hasUnsavedChanges s' = false.
Proof.
  intros s s'.
  destruct (X12_toggle_saves_previous_state noon "node-1" s) as (Hp & Hb & Hd & _);
    [reflexivity | reflexivity | by vm_compute | done
    | vm_compute; repeat constructor |].
  done.
Defined.

(** ** Saves while an edit is open *)

Section OpenEdit.

Implicit Types (s : Component.t) (now : Z) (what : string + string).

Lemma editOpen_same what s s' :
  editingNodesRef s' = editingNodesRef s → editingEdgesRef s' = editingEdgesRef s →
  editOpen what s → editOpen what s'.
Proof. destruct what; simpl; congruence. Qed.

Lemma editOpen_sameGraph what s s' : sameGraph s s' → editOpen what s → editOpen what s'.
Proof. intros (_ & _ & _ & ? & ?). by apply editOpen_same. Qed.

Lemma hasActiveEdits_open what s : editOpen what s → hasActiveEdits s = true.
Proof.
  unfold hasActiveEdits. intros Hopen. apply orb_true_iff.
  destruct what as [id|id]; [left | right]; apply Nat.ltb_lt; simpl in Hopen.
  - destruct (size (editingNodesRef s)) eqn:Hsz; [|lia].
    apply size_empty_iff in Hsz. set_solver.
  - destruct (size (editingEdgesRef s)) eqn:Hsz; [|lia].
    apply size_empty_iff in Hsz. set_solver.
Qed.

Lemma onConnect_editing src s :
  editingNodesRef (onConnect src s) = editingNodesRef s ∧
  editingEdgesRef (onConnect src s) = editingEdgesRef s.
Proof. unfold onConnect. destruct (List.find _ (nodes s)); by destruct s. Qed.

Lemma onConnectEnd_scheduler now canvas event s :
  onConnectEnd now canvas event s = with_connectingNodeId None s ∨
  ∃ s1 : Component.t,
    let s0 := saveGraph now false 0 (with_connectingNodeId None s) in
    editingNodesRef s1 = editingNodesRef s0 ∧ editingEdgesRef s1 = editingEdgesRef s0 ∧
    isSavingRef s1 = isSavingRef s0 ∧ pending s1 = pending s0 ∧
    timers s1 = timers s0 ∧ posted s1 = posted s0 ∧
    onConnectEnd now canvas event s = s1.
Proof.
  unfold onConnectEnd. repeat case_match; auto.
  all: right; eexists; simpl; split_and!; [..|reflexivity];
    by destruct (saveGraph now false 0 _).
Qed.

(** A step that is not the end of the edit keeps it open. *)
Lemma step_editOpen what now ev s :
  duringEdit what ev = true → editOpen what s → editOpen what (step now ev s).
Proof.
  intros Hev Hopen.
  destruct ev as [| |tid|k ok|x|x|x v|x|g|x|src|canvas event]; try done; simpl.
  - eapply editOpen_sameGraph; [apply saveGraph_sameGraph | done].
  - eapply editOpen_sameGraph; [apply fireTimer_sameGraph | done].
  - eapply editOpen_sameGraph; [apply respond_sameGraph | done].
  - unfold startEditingNode, clearTimeout. destruct what; destruct s; simpl in *;
      repeat (case_match; simpl); try done; apply elem_of_union; by right.
  - unfold endEditingNode, setTimeout. destruct what as [id|id]; destruct s; simpl in *;
      [|done]. apply bool_decide_eq_true in Hev.
    apply elem_of_difference. split; [done|]. rewrite elem_of_singleton. congruence.
  - revert Hopen. apply editOpen_same; by destruct s.
  - unfold onEdgeDoubleClick. destruct what; destruct s; simpl in *; [done|].
    apply elem_of_union; by right.
  - destruct (processGraphData_editing g false s). by eapply editOpen_same.
  - revert Hopen. apply editOpen_same; by destruct s.
  - destruct (onConnect_editing src s). by eapply editOpen_same.
  - destruct (onConnectEnd_scheduler now canvas event s)
      as [-> | (s1 & Hn & He & _ & _ & _ & _ & ->)].
    + revert Hopen. apply editOpen_same; by destruct s.
    + destruct (saveGraph_sameGraph now false 0 (with_connectingNodeId None s))
        as (_ & _ & _ & Hn' & He').
      revert Hopen. apply editOpen_same; [rewrite Hn, Hn' | rewrite He, He']; by destruct s.
Qed.

Lemma noForcedSave_untouched s s' :
  schedulerUntouched s s' → noForcedSave s →
  posted s' = posted s ∧ noForcedSave s'.
Proof.
  intros (Hs & Hp & Hposted & _ & _ & Ht) (Isv & Ip & It).
  split; [done|]. split; [congruence|]. split; [congruence|].
  apply Forall_forall. intros tm [Htm | Htm]%Ht; [|done].
  by apply (proj1 (Forall_forall _ _) It).
Qed.

(** With an edit open a non-immediate [saveGraph] call only sets a
    timer. *)
Lemma saveGraph_deferred now retryCount s :
  hasActiveEdits s = true → noForcedSave s →
  posted (saveGraph now false retryCount s) = posted s ∧
  noForcedSave (saveGraph now false retryCount s).
Proof.
  intros Hed (Isv & Ip & It).
  destruct (saveGraph_false_cases now retryCount s)
    as [(Hsv & _) |[(_ & Hs & Hp & Hposted & _ & _ & _ & tm & Hcb & Ht & _)
                   |(_ & Hed' & _)]]; [congruence | | congruence].
  split; [done|]. split; [congruence|]. split; [congruence|].
  rewrite Ht. apply Forall_app. split.
  - apply Forall_forall. intros tm' Htm%clearPendingTimeout_timers.
    by apply (proj1 (Forall_forall _ _) It).
  - repeat constructor. by rewrite Hcb.
Qed.

Lemma step_deferred what now ev s :
  duringEdit what ev = true → editOpen what s → noForcedSave s →
  posted (step now ev s) = posted s ∧ noForcedSave (step now ev s).
Proof.
  intros Hev Hopen Hq. pose proof (hasActiveEdits_open what s Hopen) as Hed.
  pose proof Hq as (Isv & Ip & It).
  destruct ev as [| |tid|k ok|x|x|x v|x|g|x|src|canvas event]; try done; simpl.
  - by apply saveGraph_deferred.
  - unfold fireTimer. destruct (List.find _ (timers s)) as [tm|] eqn:Hf; [|done].
    destruct (fireAt tm <=? now); [|done].
    apply find_some in Hf as [Hin%list_elem_of_In _].
    pose proof (proj1 (Forall_forall _ _) It tm Hin) as Hcb. simpl in Hcb.
    destruct (noForcedSave_untouched s (clearTimeout tid s)
                (clearTimeout_untouched tid s) Hq) as [Hp1 Hq1].
    assert (hasActiveEdits (clearTimeout tid s) = true) as Hed1 by (by destruct s).
    rewrite <- Hp1.
    destruct (callback tm) as [[|] rc| | |]; try done; simpl.
    + by apply saveGraph_deferred.
    + by apply saveGraph_deferred.
    + apply (noForcedSave_untouched (clearTimeout tid s)); [|done].
      repeat split; try by destruct s. intros tm' Htm. left.
      by destruct (clearTimeout tid s).
  - unfold respond. by rewrite Ip.
  - apply (noForcedSave_untouched s); [|done].
    unfold startEditingNode. destruct (saveTimeoutRef s) as [t|].
    + pose proof (clearTimeout_untouched t s) as (? & ? & ? & ? & ? & Ht).
      destruct (clearTimeout t s); simpl in *. repeat split; auto.
    + destruct s; simpl. repeat split; auto.
  - apply (noForcedSave_untouched s); [|done].
    unfold endEditingNode, setTimeout. destruct s; simpl. repeat split; auto.
    intros tm [Htm | ->%list_elem_of_singleton]%elem_of_app; auto.
  - apply (noForcedSave_untouched s); [|done]. destruct s; simpl. repeat split; auto.
  - apply (noForcedSave_untouched s); [|done]. destruct s; simpl. repeat split; auto.
  - apply (noForcedSave_untouched s); [apply processGraphData_untouched | done].
  - apply (noForcedSave_untouched s); [|done]. destruct s; simpl. repeat split; auto.
  - apply (noForcedSave_untouched s); [apply onConnect_untouched | done].
  - assert (posted (with_connectingNodeId None s) = posted s ∧
            noForcedSave (with_connectingNodeId None s) ∧
            hasActiveEdits (with_connectingNodeId None s) = true) as (Hp0 & Hq0 & Hed0).
    { unfold noForcedSave. by destruct s. }
    destruct (onConnectEnd_scheduler now canvas event s)
      as [-> | (s1 & _ & _ & Hs & Hp & Ht & Hposted & ->)]; [done|].
    destruct (saveGraph_deferred now 0 _ Hed0 Hq0) as (Hp1 & Hs1 & Hpe1 & Ht1).
    split; [congruence|]. split; [congruence|]. split; congruence.
Qed.

End OpenEdit.

(** X13. While an edit is open nothing is written unless it is asked for
    immediately.  With a node or an edge in its editing set, no write in
    flight and no timer waiting that would save immediately, any sequence
    of events other than the end of that edit and an immediate save
    request (save requests, timers firing, responses, other edits, fetched
    snapshots, new connections) issues no remote write; the edit is still
    open afterwards. *)
Theorem X13_no_write_while_editing
    (what : string + string) (trace : list (Z * Event)) (s : Component.t) :
  editOpen what s → noForcedSave s →
  Forall (λ te, duringEdit what te.2 = true) trace →
  posted (run trace s) = posted s ∧
  editOpen what (run trace s) ∧ noForcedSave (run trace s).
Proof.
  intros Hopen Hq Htr. revert s Hopen Hq.
  induction Htr as [|[now ev] trace Hev _ IH]; intros s Hopen Hq; [done|].
  simpl in Hev. simpl run.
  destruct (step_deferred what now ev s Hev Hopen Hq) as [Hp1 Hq1].
  pose proof (step_editOpen what now ev s Hev Hopen) as Hopen1.
  destruct (IH _ Hopen1 Hq1) as (Hp2 & ? & ?). split; [congruence | done].
Qed.

Lemma X13_witness :
  let s := startEditingNode "node-1" smallStore in
  let trace := [(noon, EvUpdateNodeText "node-1" "b"); (noon + 10, EvTriggerSave);
                (noon + 2010, EvTimer 0); (noon + 4010, EvTimer 1);
                (noon + 4020, EvConnect "root")] in
  posted (run trace s) = [] ∧ editOpen (inl "node-1") (run trace s) ∧
  timers (run trace s)
  = [{| timer_id := 2; fireAt := noon + 6010; callback := CbSaveGraph false 0 |}].
Proof.
  intros s trace.
  destruct (X13_no_write_while_editing (inl "node-1") trace s) as (Hp & Hopen & _).
  - by vm_compute.
  - repeat split. constructor.
  - repeat constructor.
  - split; [exact Hp|]. split; [exact Hopen | reflexivity].
Defined.

(** ** The save queue *)

Lemma saveGraph_queued (now : Z) (retryCount : nat) (s : Component.t) :
  isSavingRef s = true →
  saveGraph now false retryCount s
  = with_saveQueueRef (saveQueueRef s ++ [(false, retryCount)]) s.
Proof. intros Hsv. unfold saveGraph. by rewrite Hsv. Qed.

(** X14. A save asked for while a write is in flight is queued behind
    the requests already waiting, and nothing else happens: no write, no
    timer.  When a write then succeeds, the request at the head of the
    queue is taken off and a timer is set to run it 100 ms later (first in,
    first out); when a non-immediate write fails, the queue is left as it
    is and the only timer set is the one that resumes polling, so the
    queued requests wait for a later success. *)
Theorem X14_save_queue_first_in_first_out
    (now later : Z) (retryCount k : nat) (p : PendingSave) (s : Component.t) :
  isSavingRef s = true → pending s !! k = Some p →
  let s1 := saveGraph now false retryCount s in
  let waiting := saveQueueRef s ++ [(false, retryCount)] in
  let resume := λ tid, {| timer_id := tid; fireAt := later + 1000;
                          callback := CbResumePolling |} in
  (posted s1 = posted s ∧ pending s1 = pending s ∧ timers s1 = timers s ∧
   saveQueueRef s1 = waiting) ∧
  (∃ head, head :: saveQueueRef (respond later k true s1) = waiting ∧
     timers (respond later k true s1)
     = timers s ++ [{| timer_id := timerSeq s; fireAt := later + 100;
                       callback := CbSaveGraph head.1 head.2 |};
                    resume (S (timerSeq s))]) ∧
  (ps_immediate p = false →
   saveQueueRef (respond later k false s1) = waiting ∧
   timers (respond later k false s1) = timers s ++ [resume (timerSeq s)]).
Proof.
  intros Hsv Hk s1 waiting resume.
  assert (s1 = with_saveQueueRef waiting s) as Hs1 by (by apply saveGraph_queued).
  assert (posted s1 = posted s ∧ pending s1 = pending s ∧ timers s1 = timers s ∧
          saveQueueRef s1 = waiting ∧ timerSeq s1 = timerSeq s)
    as (Hposted & Hp & Ht & Hq & Hseq) by (rewrite Hs1; by destruct s).
  split; [done|].
  set (s1' := with_pending (delete k (pending s1)) s1).
  assert (timers s1' = timers s ∧ saveQueueRef s1' = waiting ∧ timerSeq s1' = timerSeq s)
    as (Ht' & Hq' & Hseq').
  { unfold s1'. rewrite <- Ht, <- Hq, <- Hseq. by destruct s1. }
  assert (∀ ok, respond later k ok s1 = saveGraphResume later p ok s1') as Hresp.
  { intros ok. unfold respond.
    assert (pending s1 !! k = Some p) as -> by (by rewrite Hp). done. }
  split.
  - rewrite Hresp.
    destruct (saveGraphResume_ok_view later p s1')
      as (_ & _ & _ & _ & _ & _ & [(Hnil & _) | (q & rest & Hw & -> & ->)]).
    + rewrite Hq' in Hnil. unfold waiting in Hnil. by destruct (saveQueueRef s).
    + exists q. rewrite Ht', Hseq'. split; [congruence | done].
  - intros Himm. rewrite Hresp.
    destruct (saveGraphResume_failed_view later p s1')
      as (_ & _ & _ & -> & _ & _ & _ & Hstop).
    destruct (Hstop (or_introl Himm)) as [_ ->]. by rewrite Ht', Hseq'.
Qed.

Lemma X14_witness :
  let s := saveGraph (noon + 10) false 0 (saveGraph noon true 0 smallStore) in
  let s1 := saveGraph (noon + 20) false 1 s in
  posted s1 = posted s ∧ saveQueueRef s1 = [(false, 0%nat); (false, 1%nat)] ∧
  saveQueueRef (respond (noon + 90) 0 true s1) = [(false, 1%nat)] ∧
  timers (respond (noon + 90) 0 true s1)
  = [{| timer_id := 0; fireAt := noon + 190; callback := CbSaveGraph false 0 |};
     {| timer_id := 1; fireAt := noon + 1090; callback := CbResumePolling |}].
Proof.
  intros s s1.
  destruct (X14_save_queue_first_in_first_out (noon + 20) (noon + 90) 1 0
              {| ps_immediate := true; ps_retryCount := 0;
                 ps_body := buildGraphData smallStore;
                 ps_location := location smallStore |} s)
    as ((Hp & _ & _ & Hq) & (head & Hhead & Ht) & _); [reflexivity | reflexivity |].
  split; [exact Hp|]. split; [exact Hq|].
  change (saveQueueRef s ++ [(false, 1%nat)]) with [(false, 0%nat); (false, 1%nat)]
    in Hhead.
  injection Hhead as ->. split; [reflexivity | exact Ht].
Defined.

(** ** Polling around a write *)

Section PollingPause.

Implicit Types (s : Component.t) (now : Z).

Lemma pauseKept_refl T s : pauseKept T s s.
Proof. split; auto. Qed.

Lemma pauseKept_trans T s1 s2 s3 :
  pauseKept T s1 s2 → pauseKept T s2 s3 → pauseKept T s1 s3.
Proof.
  intros [Hp1 Ht1] [Hp2 Ht2]. split; [auto|].
  intros tm [Htm | Htm]%Ht2; [by apply Ht1 | by right].
Qed.

Lemma pauseKept_frame T s s' :
  pollingPausedRef s' = pollingPausedRef s → timers s' = timers s → pauseKept T s s'.
Proof. intros Hp Ht. split; [congruence|]. rewrite Ht. auto. Qed.

Lemma pauseKept_invariant T s s' :
  pauseKept T s s' →
  pollingPausedRef s = true ∧ resumeNotBefore T s →
  pollingPausedRef s' = true ∧ resumeNotBefore T s'.
Proof.
  intros [Hp Ht] [Hpaused Hres]. split; [auto|].
  apply Forall_forall. intros tm [Htm | [Hcb | Hdue]]%Ht Hcb'; [|done..].
  by apply (proj1 (Forall_forall _ _) Hres tm).
Qed.

Lemma clearTimeout_pauseKept T tid s : pauseKept T s (clearTimeout tid s).
Proof.
  split; [by destruct s|]. intros tm Htm. left. by eapply clearTimeout_timers.
Qed.

Lemma saveGraph_pauseKept T now immediate retryCount s :
  pauseKept T s (saveGraph now immediate retryCount s).
Proof.
  assert (pauseKept T s (clearPendingTimeout s)) as Hclear.
  { unfold clearPendingTimeout. destruct (saveTimeoutRef s) as [tid|];
      [|apply pauseKept_refl].
    eapply pauseKept_trans; [apply (clearTimeout_pauseKept T tid)|].
    apply pauseKept_frame; by destruct (clearTimeout tid s). }
  assert (∀ delay s0, pauseKept T s0
            (let '(tid, s2) := setTimeout (CbSaveGraph false 0) delay now s0 in
             with_saveTimeoutRef (Some tid) s2)) as Htimer.
  { intros delay s0. split; [by destruct s0|]. destruct s0; simpl.
    intros tm [Htm | ->%list_elem_of_singleton]%elem_of_app; [by left|].
    right. by left. }
  unfold saveGraph. destruct (isSavingRef s && negb immediate).
  { apply pauseKept_frame; by destruct s. }
  destruct (negb immediate && hasActiveEdits (clearPendingTimeout s)).
  { eapply pauseKept_trans; [exact Hclear | apply Htimer]. }
  destruct (negb immediate && _).
  { eapply pauseKept_trans; [exact Hclear | apply Htimer]. }
  eapply pauseKept_trans; [exact Hclear|].
  unfold startWrite. split; [by destruct (clearPendingTimeout s)|].
  intros tm Htm. left. by destruct (clearPendingTimeout s).
Qed.

Lemma respond_pauseKept now k ok s : pauseKept (now + 1000) s (respond now k ok s).
Proof.
  unfold respond. destruct (pending s !! k) as [p|]; [|apply pauseKept_refl].
  unfold saveGraphResume, saveFinally, saveGraphToLocalStorage, setTimeout.
  split.
  - destruct s; simpl. repeat (case_match; simpl); done.
  - intros tm. destruct s; simpl. repeat (case_match; simpl).
    all: rewrite ?elem_of_app, ?elem_of_cons, ?elem_of_nil.
    all: intros Htm; destruct_or!; subst; simpl; try done.
    all: first [by left | right; by left | right; right; simpl; lia].
Qed.

Lemma step_pauseKept later now ev s :
  later ≤ now < later + 1000 → resumeNotBefore (later + 1000) s →
  pauseKept (later + 1000) s (step now ev s).
Proof.
  intros Hnow Hres.
  destruct ev as [| |tid|k ok|x|x|x v|x|g|x|src|canvas event]; simpl.
  - apply saveGraph_pauseKept.
  - apply saveGraph_pauseKept.
  - unfold fireTimer. destruct (List.find _ (timers s)) as [tm|] eqn:Hf;
      [|apply pauseKept_refl].
    destruct (fireAt tm <=? now) eqn:Hdue; [|apply pauseKept_refl].
    apply Z.leb_le in Hdue. apply find_some in Hf as [Hin%list_elem_of_In _].
    pose proof (proj1 (Forall_forall _ _) Hres tm Hin) as Hcb. simpl in Hcb.
    eapply pauseKept_trans; [apply (clearTimeout_pauseKept _ tid)|].
    destruct (callback tm) as [imm rc| | |]; simpl;
      try apply saveGraph_pauseKept.
    specialize (Hcb eq_refl). lia.
  - destruct (respond_pauseKept now k ok s) as [Hp Ht]. split; [done|].
    intros tm [Htm | [Hcb | Hdue]]%Ht; auto. right. right. lia.
  - unfold startEditingNode. destruct (saveTimeoutRef s) as [tid|].
    + eapply pauseKept_trans; [apply (clearTimeout_pauseKept _ tid)|].
      apply pauseKept_frame; by destruct (clearTimeout tid s).
    + apply pauseKept_frame; by destruct s.
  - unfold endEditingNode, setTimeout. split; [by destruct s|]. destruct s; simpl.
    intros tm [Htm | ->%list_elem_of_singleton]%elem_of_app; [by left|].
    right. by left.
  - apply pauseKept_frame; by destruct s.
  - apply pauseKept_frame; by destruct s.
  - destruct (processGraphData_untouched g false s) as (_ & _ & _ & _ & _ & _).
    unfold processGraphData, processEdges, processNodes.
    apply pauseKept_frame; destruct g as [[[gn|] [ge|]]|]; try done;
      destruct s; simpl; repeat (case_match; simpl); done.
  - apply pauseKept_frame; by destruct s.
  - apply pauseKept_frame; unfold onConnect; destruct (List.find _ (nodes s));
      by destruct s.
  - unfold onConnectEnd.
    assert (pauseKept (later + 1000) s (with_connectingNodeId None s)) as H0
      by (apply pauseKept_frame; by destruct s).
    repeat case_match; try exact H0.
    all: eapply pauseKept_trans; [exact H0|].
    all: eapply pauseKept_trans; [apply (saveGraph_pauseKept _ now false 0)|].
    all: apply pauseKept_frame; by destruct (saveGraph now false 0 _).
Qed.

End PollingPause.

(** X15. Polling stays off for a second after a response.  From a state
    in which polling is paused and no timer that resumes it is due before
    [later + 1000] (as after the response, at [later], to the only write
    in flight), whatever happens from [later] up to one second later leaves
    polling paused: a poll tick in that second does not fetch. *)
Theorem X15_polling_stays_paused (later : Z) (trace : list (Z * Event)) (s : Component.t) :
  pollingPausedRef s = true → resumeNotBefore (later + 1000) s →
  timedFrom later trace = true → allBefore (later + 1000) trace = true →
  pollingPausedRef (run trace s) = true ∧ fetchDataProceeds (run trace s) = false.
Proof.
  intros Hp Hres Htimed Hbefore.
  assert (pollingPausedRef (run trace s) = true) as Hrun.
  2: { split; [done|]. unfold fetchDataProceeds. rewrite Hrun.
       by rewrite orb_true_r. }
  assert (∃ clock, later ≤ clock ∧ timedFrom clock trace = true)
    as (clock & Hclock & Htimed') by (exists later; split; [lia | done]).
  clear Htimed. revert s clock Hp Hres Hclock Htimed' Hbefore.
  induction trace as [|[now ev] trace IH]; intros s clock Hp Hres Hclock Htimed Hbefore;
    [done|].
  simpl in Htimed, Hbefore. apply andb_true_iff in Htimed as [Hle%Z.leb_le Htimed].
  apply andb_true_iff in Hbefore as [Hlt%Z.ltb_lt Hbefore]. simpl run.
  destruct (pauseKept_invariant (later + 1000) s (step now ev s)) as [Hp1 Hres1];
    [apply step_pauseKept; [lia | done] | done |].
  apply (IH _ now); [done | done | lia | done | done].
Qed.

Lemma X15_witness :
  let s := respond (noon + 80) 0 true
             (saveGraph noon false 0 (with_lastSaveTimeRef (noon - 5000) smallStore)) in
  let trace := [(noon + 100, EvTriggerSave); (noon + 300, EvTimer 0);
                (noon + 999, EvFetched None)] in
  fetchDataProceeds s = false ∧
  pollingPausedRef (run trace s) = true ∧ fetchDataProceeds (run trace s) = false ∧
  fetchDataProceeds (fireTimer (noon + 1080) 0 s) = true.
Proof.
  intros s trace. split; [reflexivity|].
  destruct (X15_polling_stays_paused (noon + 80) trace s) as [H1 H2].
  - reflexivity.
  - repeat constructor. simpl. intros _. lia.
  - reflexivity.
  - reflexivity.
  - split; [exact H1|]. split; [exact H2 | reflexivity].
Defined.

(** ** The end of the retries *)

Section GiveUp.

Implicit Types (s : Component.t).

(** One failed immediate attempt with retries left, up to the start of
    the next attempt, with what it leaves behind. *)
Lemma retry_cycle_view t0 t1 t2 (retryCount : nat) s :
  timersFresh s → (retryCount < 3)%nat →
  t1 + 1000 * (Z.of_nat retryCount + 1) ≤ t2 →
  ∃ s',
    fireTimer t2 (timerSeq s)
      (respond t1 (length (pending s)) false (saveGraph t0 true retryCount s))
    = saveGraph t2 true (retryCount + 1) s' ∧
    timersFresh s' ∧ pending s' = pending s ∧
    timerSeq s' = S (S (timerSeq s)) ∧
    posted s' = (t0, buildGraphData s) :: posted s ∧
    buildGraphData s' = buildGraphData s ∧
    (∀ tm, tm ∈ timers s' → tm ∈ timers s ∨ callback tm = CbResumePolling).
Proof.
  intros Hfresh Hrc Hdue.
  destruct (saveGraph_immediate_view t0 retryCount s)
    as (Hp & Ht & Hseq & _ & _ & Hposted).
  destruct (saveGraph_sameGraph t0 true retryCount s) as (Hn & He & _).
  set (s1 := saveGraph t0 true retryCount s) in *.
  rewrite (respond_last _ _ s1 _ _ Hp).
  set (p := {| ps_immediate := true; ps_retryCount := retryCount;
               ps_body := buildGraphData s;
               ps_location := location s |}) in *.
  set (s1' := with_pending (pending s) s1).
  assert (timers s1' = timers s1 ∧ timerSeq s1' = timerSeq s ∧
          pending s1' = pending s ∧ posted s1' = posted s1 ∧
          nodes s1' = nodes s1 ∧ edges s1' = edges s1)
    as (Ht1 & Hseq1 & Hp1 & Hposted1 & Hn1 & He1).
  { unfold s1'. destruct s1; simpl in *. done. }
  destruct (saveGraphResume_failed_view t1 p s1')
    as (_ & _ & Hp2 & _ & Hposted2 & _ & Hretry & _).
  destruct (Hretry eq_refl Hrc) as (_ & Hseq2 & Ht2). clear Hretry.
  assert (nodes (saveGraphResume t1 p false s1') = nodes s1' ∧
          edges (saveGraphResume t1 p false s1') = edges s1') as [Hn2 He2].
  { unfold saveGraphResume, saveFinally, setTimeout. destruct s1'; simpl.
    repeat (case_match; simpl); done. }
  set (s2 := saveGraphResume t1 p false s1') in *.
  rewrite Hseq1, Ht1 in Ht2. rewrite Hseq1 in Hseq2.
  assert (Forall (λ t, (timer_id t < timerSeq s)%nat) (timers s1)) as Hfresh1.
  { apply Forall_forall. intros tm Htm%Ht.
    by apply (proj1 (Forall_forall _ _) Hfresh). }
  assert (timers (clearTimeout (timerSeq s) s2)
          = filter (λ tm, timer_id tm ≠ timerSeq s) (timers s2)
          ∧ timerSeq (clearTimeout (timerSeq s) s2) = timerSeq s2
          ∧ pending (clearTimeout (timerSeq s) s2) = pending s2
          ∧ posted (clearTimeout (timerSeq s) s2) = posted s2
          ∧ nodes (clearTimeout (timerSeq s) s2) = nodes s2
          ∧ edges (clearTimeout (timerSeq s) s2) = edges s2)
    as (Ht3 & Hseq3 & Hp3 & Hposted3 & Hn3 & He3) by (by destruct s2).
  exists (clearTimeout (timerSeq s) s2). split_and!.
  - unfold fireTimer. rewrite Ht2.
    rewrite (find_fresh_timer (timers s1)
               {| timer_id := timerSeq s;
                  fireAt := t1 + 1000 * (Z.of_nat retryCount + 1);
                  callback := CbSaveGraph true (retryCount + 1) |}); [|done].
    simpl. by rewrite (proj2 (Z.leb_le _ _) Hdue).
  - unfold timersFresh. rewrite Ht3, Hseq3, Hseq2, Ht2. apply Forall_forall.
    intros tm [_ [Htm | Htm]%elem_of_app]%list_elem_of_filter.
    + pose proof (proj1 (Forall_forall _ _) Hfresh1 tm Htm). simpl in *. lia.
    + apply elem_of_cons in Htm as [-> | ->%list_elem_of_singleton]; simpl; lia.
  - congruence.
  - congruence.
  - congruence.
  - unfold buildGraphData. congruence.
  - rewrite Ht3, Ht2.
    intros tm [Hid [Htm | Htm]%elem_of_app]%list_elem_of_filter; [left; by apply Ht|].
    apply elem_of_cons in Htm as [-> | ->%list_elem_of_singleton]; [done | by right].
Qed.

End GiveUp.

(** X16. An immediate save gives up after its fourth failure.  When
    every write fails and each retry timer is fired once it is due (1, 2
    and 3 seconds after the failures), an immediate save request issues
    exactly four writes, all with the body of the store as it is, the
    newest first in the log; after the fourth failure the status is
    [error], the dirty flag is set, and no timer is left that would try
    again: the only timers added are those that resume polling. *)
Theorem X16_immediate_save_gives_up (s0 : Component.t) (t0 t1 t2 t3 t4 t5 t6 t7 : Z) :
  timersFresh s0 → t1 + 1000 ≤ t2 → t3 + 2000 ≤ t4 → t5 + 3000 ≤ t6 →
  let k := length (pending s0) in
  let trace := [(t0, EvTriggerImmediateSave); (t1, EvResponse k false);
                (t2, EvTimer (timerSeq s0)); (t3, EvResponse k false);
                (t4, EvTimer (S (S (timerSeq s0)))); (t5, EvResponse k false);
                (t6, EvTimer (S (S (S (S (timerSeq s0)))))); (t7, EvResponse k false)] in
  let body := buildGraphData s0 in
  posted (run trace s0) = [(t6, body); (t4, body); (t2, body); (t0, body)] ++ posted s0 ∧
  saveStatus (run trace s0) = error ∧ hasUnsavedChanges (run trace s0) = true ∧
  pending (run trace s0) = pending s0 ∧
  (∀ tm, tm ∈ timers (run trace s0) → tm ∈ timers s0 ∨ callback tm = CbResumePolling).
Proof.
  intros Hfresh Hdue1 Hdue2 Hdue3 k trace body. subst k trace body. simpl run.
  simpl step.
  destruct (retry_cycle_view t0 t1 t2 0 s0 Hfresh)
    as (s1 & -> & Hfresh1 & Hp1 & Hseq1 & Hposted1 & Hb1 & Ht1); [lia | simpl; lia |].
  rewrite <- Hp1, <- Hseq1. change (0 + 1)%nat with 1%nat.
  destruct (retry_cycle_view t2 t3 t4 1 s1 Hfresh1)
    as (s2 & -> & Hfresh2 & Hp2 & Hseq2 & Hposted2 & Hb2 & Ht2); [lia | simpl; lia |].
  rewrite <- Hp2, <- Hseq2. change (1 + 1)%nat with 2%nat.
  destruct (retry_cycle_view t4 t5 t6 2 s2 Hfresh2)
    as (s3 & -> & Hfresh3 & Hp3 & Hseq3 & Hposted3 & Hb3 & Ht3); [lia | simpl; lia |].
  rewrite <- Hp3. change (2 + 1)%nat with 3%nat.
  destruct (saveGraph_immediate_view t6 3 s3) as (Hp & Ht & _ & _ & _ & Hposted).
  rewrite (respond_last _ _ _ _ _ Hp).
  set (p := {| ps_immediate := true; ps_retryCount := 3;
               ps_body := buildGraphData s3;
               ps_location := location s3 |}) in *.
  set (s4 := with_pending (pending s3) (saveGraph t6 true 3 s3)).
  assert (timers s4 = timers (saveGraph t6 true 3 s3) ∧
          posted s4 = posted (saveGraph t6 true 3 s3) ∧ pending s4 = pending s3)
    as (Ht4 & Hposted4 & Hp4).
  { unfold s4. by destruct (saveGraph t6 true 3 s3). }
  destruct (saveGraphResume_failed_view t7 p s4)
    as (Hst & _ & Hp5 & _ & Hposted5 & _ & _ & Hstop).
  destruct (Hstop (or_intror (Nat.le_refl 3))) as [Hdirty Ht5].
  split_and!.
  - rewrite Hposted5, Hposted4, Hposted, Hposted3, Hposted2, Hposted1.
    by rewrite Hb3, Hb2, Hb1.
  - done.
  - done.
  - congruence.
  - rewrite Ht5, Ht4.
    intros tm [Htm | ->%list_elem_of_singleton]%elem_of_app; [|by right].
    apply Ht, Ht3 in Htm as [Htm | ?]; [|by right].
    apply Ht2 in Htm as [Htm | ?]; [|by right]. by apply Ht1.
Qed.

Lemma X16_witness :
  let trace := [(noon, EvTriggerImmediateSave); (noon + 50, EvResponse 0 false);
                (noon + 1050, EvTimer 0); (noon + 1100, EvResponse 0 false);
                (noon + 3100, EvTimer 2); (noon + 3150, EvResponse 0 false);
                (noon + 6150, EvTimer 4); (noon + 6200, EvResponse 0 false)] in
  execTimes (run trace smallStore) = [noon + 6150; noon + 3100; noon + 1050; noon] ∧
  saveStatus (run trace smallStore) = error ∧
  hasUnsavedChanges (run trace smallStore) = true.
Proof.
  intros trace.
  destruct (X16_immediate_save_gives_up smallStore noon (noon + 50) (noon + 1050)
              (noon + 1100) (noon + 3100) (noon + 3150) (noon + 6150) (noon + 6200))
    as (Hposted & Hst & Hdirty & _); [constructor | lia | lia | lia |].
  split; [|split; [exact Hst | exact Hdirty]].
  exact (f_equal (fmap fst) Hposted).
Defined.

(** ** Dragging: [handleNodesChange] *)

Section Snapping.

Lemma snapX_Some (changeId : string) (x x' : Z) (ns : list Node.t) :
  snapX changeId x ns = Some x' →
  ∃ node, node ∈ ns ∧ Node.id node ≠ changeId ∧
          0 < Z.abs (x - pos_x (Node.position node)) < SNAP_THRESHOLD ∧
          x' = pos_x (Node.position node).
Proof.
  induction ns as [|node ns IH]; [done|]. simpl.
  assert (snapX changeId x ns = Some x' →
          ∃ node0, node0 ∈ node :: ns ∧ Node.id node0 ≠ changeId ∧
                   0 < Z.abs (x - pos_x (Node.position node0)) < SNAP_THRESHOLD ∧
                   x' = pos_x (Node.position node0)) as Hrest.
  { intros (n & ? & ?)%IH. exists n. split; [by right | done]. }
  case_bool_decide as Hid; [|done].
  destruct (_ <? SNAP_THRESHOLD) eqn:Hlt; [|done].
  destruct (0 <? _) eqn:Hpos; [|done]. simpl.
  intros [= <-]. exists node. apply Z.ltb_lt in Hlt, Hpos.
  split; [by left|]. split; [done|]. split; [lia | done].
Qed.

Lemma snapX_None (changeId : string) (x : Z) (ns : list Node.t) :
  snapX changeId x ns = None →
  ∀ node, node ∈ ns → Node.id node ≠ changeId →
          pos_x (Node.position node) = x ∨
          SNAP_THRESHOLD ≤ Z.abs (x - pos_x (Node.position node)).
Proof.
  induction ns as [|n ns IH]; [by intros _ node ?%elem_of_nil|]. simpl.
  case_bool_decide as Hid.
  - destruct (_ <? SNAP_THRESHOLD) eqn:Hlt;
      [destruct (0 <? _) eqn:Hpos; [done|]|]; simpl.
    + intros Hrest node [-> | Hin]%elem_of_cons Hne; [|by apply IH].
      apply Z.ltb_ge in Hpos. left. lia.
    + intros Hrest node [-> | Hin]%elem_of_cons Hne; [|by apply IH].
      apply Z.ltb_ge in Hlt. by right.
  - intros Hrest node [-> | Hin]%elem_of_cons Hne; [done | by apply IH].
Qed.

Lemma snapChange_flags (ns : list Node.t) (change : NodeChange) :
  change_id (snapChange ns change) = change_id change ∧
  change_type (snapChange ns change) = change_type change ∧
  change_dragging (snapChange ns change) = change_dragging change ∧
  pos_y <$> change_position (snapChange ns change) = pos_y <$> change_position change.
Proof.
  unfold snapChange. destruct (change_position change) as [p|] eqn:Hp; [|by rewrite Hp].
  destruct (_ && _); [|by rewrite Hp].
  destruct (snapX _ _ ns); [done | by rewrite Hp].
Qed.

End Snapping.

(** X17. Snapping moves a dragged node sideways only, and only onto
    another node's x.  A change comes out of the snapping step with its id,
    type, dragging flag and y as they were.  Either it is unchanged, or it
    is a position change of a node being dragged and its x has become the x
    of another node of the list that was less than [SNAP_THRESHOLD] (20)
    away and not at the same x.  Such a change is left unchanged only when
    every other node is at the same x or 20 or more away; changes that are
    not of a node being dragged are never touched. *)
Theorem X17_snap_moves_x_only (ns : list Node.t) (change : NodeChange) :
  let change' := snapChange ns change in
  (change_id change' = change_id change ∧ change_type change' = change_type change ∧
   change_dragging change' = change_dragging change ∧
   pos_y <$> change_position change' = pos_y <$> change_position change) ∧
  (change' = change ∨
   ∃ p node,
     change_position change = Some p ∧ change_type change = "position" ∧
     change_dragging change = true ∧
     node ∈ ns ∧ Node.id node ≠ change_id change ∧
     0 < Z.abs (pos_x p - pos_x (Node.position node)) < SNAP_THRESHOLD ∧
     change_position change'
     = Some {| pos_x := pos_x (Node.position node); pos_y := pos_y p |}) ∧
  (∀ p, change_position change = Some p → change_type change = "position" →
        change_dragging change = true → change' = change →
        ∀ node, node ∈ ns → Node.id node ≠ change_id change →
                pos_x (Node.position node) = pos_x p ∨
                SNAP_THRESHOLD ≤ Z.abs (pos_x p - pos_x (Node.position node))) ∧
  (change_type change ≠ "position" ∨ change_dragging change = false →
   change' = change).
Proof.
  intros change'. split; [apply snapChange_flags|]. split; [|split].
  - unfold change', snapChange.
    destruct (change_position change) as [p|] eqn:Hp; [|by left].
    destruct (String.eqb_spec (change_type change) "position") as [Hty|]; [|by left].
    destruct (change_dragging change) eqn:Hdr; [|by left]. simpl.
    destruct (snapX _ _ ns) as [x|] eqn:Hsnap; [|by left].
    apply snapX_Some in Hsnap as (node & Hin & Hid & Hnear & ->).
    right. by exists p, node.
  - intros p Hp Hty Hdr. unfold change', snapChange. rewrite Hp, Hty, Hdr. simpl.
    destruct (snapX _ _ ns) as [x|] eqn:Hsnap.
    + apply snapX_Some in Hsnap as (node & _ & _ & Hnear & ->).
      intros Heq. apply (f_equal change_position) in Heq. simpl in Heq.
      rewrite Hp in Heq. injection Heq as Heq. rewrite <- Heq in Hnear.
      simpl in Hnear. lia.
    + intros _. by apply snapX_None.
  - unfold change', snapChange. destruct (change_position change) as [p|]; [|done].
    intros [Hty | Hdr].
    + by destruct (String.eqb_spec (change_type change) "position").
    + by rewrite Hdr, andb_false_r.
Qed.

Lemma X17_witness :
  let ns := [sampleRoot; sampleNode "node-1" "a"] in
  let drag := λ id x, {| change_id := id; change_type := "position";
                         change_position := Some {| pos_x := x; pos_y := 90 |};
                         change_dragging := true |} in
  change_position (snapChange ns (drag "node-1" 240))
  = Some {| pos_x := 250; pos_y := 90 |} ∧
  snapChange ns (drag "node-1" 230) = drag "node-1" 230 ∧
  snapChange ns {| change_id := "node-1"; change_type := "position";
                   change_position := Some {| pos_x := 240; pos_y := 90 |};
                   change_dragging := false |}
  = {| change_id := "node-1"; change_type := "position";
       change_position := Some {| pos_x := 240; pos_y := 90 |};
       change_dragging := false |}.
Proof.
  intros ns drag. split; [reflexivity|]. split; [reflexivity|].
  apply (X17_snap_moves_x_only ns). by right.
Defined.

Lemma dragEnded_snapped (ns : list Node.t) (changes : list NodeChange) :
  dragEnded (snapChange ns <$> changes) = dragEnded changes.
Proof.
  unfold dragEnded. induction changes as [|c changes IH]; [done|].
  rewrite fmap_cons. simpl. rewrite IH.
  destruct (snapChange_flags ns c) as (_ & -> & -> & _). done.
Qed.

(** X18. No save is asked for while a drag goes on.  The drag-end test
    gives the same answer on the snapped changes as on the changes as they
    came.  When no change is a position change with the dragging flag off,
    the handler only hands the snapped changes to React Flow: no write is
    issued, no timer set or cleared, nothing queued.  When one is, the
    handler asks for a non-immediate save before the changes are applied;
    if nothing holds that save back, the write it issues carries the body
    of the store before the changes. *)
Theorem X18_save_on_drag_end_only
    (applyNodeChanges : list NodeChange → list Node.t → list Node.t)
    (now : Z) (changes : list NodeChange) (s : Component.t) :
  let s' := handleNodesChange applyNodeChanges now changes s in
  let snapped := snapChange (nodes s) <$> changes in
  dragEnded snapped = dragEnded changes ∧
  nodes s' = applyNodeChanges snapped (nodes s) ∧ edges s' = edges s ∧
  (dragEnded changes = false →
   s' = with_nodes (applyNodeChanges snapped (nodes s)) s) ∧
  (dragEnded changes = true →
   isSavingRef s = false → hasActiveEdits s = false →
   1000 ≤ now - lastSaveTimeRef s →
   posted s' = (now, buildGraphData s) :: posted s).
Proof.
  intros s' snapped.
  pose proof (dragEnded_snapped (nodes s) changes) as Hsame. fold snapped in Hsame.
  split; [done|].
  destruct (saveGraph_sameGraph now false 0 s) as (Hn & He & _).
  unfold s', handleNodesChange. fold snapped. rewrite Hsame.
  destruct (dragEnded changes).
  - rewrite Hn. split; [by destruct (saveGraph now false 0 s)|].
    split; [by destruct (saveGraph now false 0 s)|]. split; [done|].
    intros _ Hsv Hed Hthr.
    destruct (saveGraph_at_once now 0 s Hsv Hed Hthr) as (Hp & _).
    rewrite <- Hp. by destruct (saveGraph now false 0 s).
  - split; [by destruct s|]. split; [by destruct s|]. split; [done|]. done.
Qed.

Lemma X18_witness :
  let s := with_lastSaveTimeRef (noon - 5000) smallStore in
  let moving := {| change_id := "node-1"; change_type := "position";
                   change_position := Some {| pos_x := 40; pos_y := 90 |};
                   change_dragging := true |} in
  let dropped := {| change_id := "node-1"; change_type := "position";
                    change_position := Some {| pos_x := 40; pos_y := 90 |};
                    change_dragging := false |} in
  posted (handleNodesChange (λ _ ns, ns) noon [moving] s) = [] ∧
  posted (handleNodesChange (λ _ ns, ns) noon [dropped] s) = [(noon, buildGraphData s)].
Proof.
  intros s moving dropped. split.
  - destruct (X18_save_on_drag_end_only (λ _ ns, ns) noon [moving] s)
      as (_ & _ & _ & Hstill & _).
    by rewrite Hstill.
  - destruct (X18_save_on_drag_end_only (λ _ ns, ns) noon [dropped] s)
      as (_ & _ & _ & _ & Hdrop).
    apply Hdrop; [reflexivity | reflexivity | reflexivity | by vm_compute].
Defined.

(** ** What becomes of a change *)

Section Changes.

Implicit Types (s : Component.t) (now : Z).



Lemma mapNode_find_root nodeId (f : Node.t → Node.t) (ns : list Node.t) :
  nodeId ≠ "root" → (∀ n, Node.id (f n) = Node.id n) →
  List.find isRoot (mapNode nodeId f ns) = List.find isRoot ns.
Proof.
  intros Hid Hf. unfold mapNode. induction ns as [|n ns IH]; [done|].
  rewrite fmap_cons. simpl. rewrite IH.
  destruct (decide (Node.id n = nodeId)) as [Hn|Hn].
  - rewrite (bool_decide_eq_true_2 _ Hn).
    assert (isRoot (f n) = false ∧ isRoot n = false) as [-> ->]; [|done].
    unfold isRoot. rewrite Hf, Hn. by rewrite bool_decide_eq_false_2.
  - by rewrite (bool_decide_eq_false_2 _ Hn).
Qed.

Lemma mapNode_editing nodeId (f : Node.t → Node.t) (E : gset string) (ns : list Node.t) :
  nodeId ∉ E → (∀ n, Node.id (f n) = Node.id n) →
  filter (λ n, Node.id n ≠ "root" ∧ Node.id n ∈ E) (mapNode nodeId f ns)
  = filter (λ n, Node.id n ≠ "root" ∧ Node.id n ∈ E) ns.
Proof.
  intros Hid Hf. unfold mapNode. induction ns as [|n ns IH]; [done|].
  rewrite fmap_cons. destruct (decide (Node.id n = nodeId)) as [Hn|Hn].
  - rewrite (bool_decide_eq_true_2 _ Hn).
    rewrite (filter_cons_False _ n) by (rewrite Hn; by intros [_ ?]).
    by rewrite filter_cons_False by (rewrite Hf, Hn; by intros [_ ?]).
  - rewrite (bool_decide_eq_false_2 _ Hn). by rewrite !filter_cons, IH.
Qed.

Lemma processNodes_nodes (loaded : list Node.t) fromCache s :
  nodes (processNodes loaded fromCache s)
  = consRoot (List.find isRoot (nodes s))
      (if (length (nodes s) <=? 1)%nat || fromCache then loaded
       else filter (λ n, Node.id n ∉ editingNodesRef s) loaded
            ++ filter (λ n, Node.id n ≠ "root" ∧ Node.id n ∈ editingNodesRef s)
                 (nodes s)).
Proof. unfold processNodes. destruct s; simpl. by repeat case_match. Qed.

Lemma setCost_id (v : string) (n : Node.t) : Node.id (setCost v n) = Node.id n.
Proof. done. Qed.

Lemma updateNodeCost_view now nodeId v s :
  let s1 := updateNodeCost now nodeId v s in
  nodes s1 = mapNode nodeId (setCost v) (nodes s) ∧ edges s1 = edges s ∧
  editingNodesRef s1 = editingNodesRef s ∧ editingEdgesRef s1 = editingEdgesRef s ∧
  isSavingRef s1 = isSavingRef s ∧ pollingPausedRef s1 = pollingPausedRef s ∧
  lastSaveTimeRef s1 = lastSaveTimeRef s ∧ saveTimeoutRef s1 = saveTimeoutRef s ∧
  posted s1 = posted s ∧
  timers s1 = timers s ++ [{| timer_id := timerSeq s; fireAt := now + 200;
                              callback := CbTriggerSave |}] ∧
  timerSeq s1 = S (timerSeq s).
Proof. unfold updateNodeCost, setTimeout. by destruct s. Qed.

End Changes.



(** X20. A cost change is not protected from reconciliation.
    [updateNodeCost] opens no edit: the editing sets, and with them the
    guard of the poll, are as before.  Unless the node is in the editing
    set for its text, a snapshot reconciled after the change gives the node
    list it would have given without the change, so the new cost is kept
    only if the snapshot has it. *)
Theorem X20_cost_change_not_protected
    (gn : list Node.t) (ge : list Edge.t) (fromCache : bool)
    (now : Z) (nodeId v : string) (s : Component.t) :
  nodeId ≠ "root" → nodeId ∉ editingNodesRef s →
  let s1 := updateNodeCost now nodeId v s in
  hasActiveEdits s1 = hasActiveEdits s ∧
  fetchDataProceeds s1 = fetchDataProceeds s ∧
  nodes (processGraphData (snapshot gn ge) fromCache s1)
  = nodes (processGraphData (snapshot gn ge) fromCache s).
Proof.
  intros Hroot Hed s1.
  destruct (updateNodeCost_view now nodeId v s)
    as (Hn & _ & HEn & HEe & Hsv & Hpp & _).
  fold s1 in Hn, HEn, HEe, Hsv, Hpp.
  assert (hasActiveEdits s1 = hasActiveEdits s) as Hact
    by (unfold hasActiveEdits; by rewrite HEn, HEe).
  split; [done|]. split; [unfold fetchDataProceeds; by rewrite Hact, Hsv, Hpp|].
  rewrite !processGraphData_nodes, !processNodes_nodes, HEn, Hn.
  rewrite mapNode_find_root by done.
  rewrite mapNode_editing by done.
  unfold mapNode. by rewrite length_fmap.
Qed.

Lemma X20_witness :
  let s := sampleStore [sampleRoot; sampleNode "node-1" "a"; sampleNode "node-2" "b"] [] in
  let s1 := updateNodeCost noon "node-1" "2 gold" s in
  let fetched := snapshot [sampleNode "node-1" "a"; sampleNode "node-2" "b"] [] in
  (cost ∘ Node.data) <$> nodes s1 = [""; "2 gold"; ""] ∧
  (cost ∘ Node.data) <$> nodes (processGraphData fetched false s1) = [""; ""; ""].
Proof.
  intros s s1 fetched. split; [reflexivity|].
  destruct (X20_cost_change_not_protected
              [sampleNode "node-1" "a"; sampleNode "node-2" "b"] [] false
              noon "node-1" "2 gold" s) as (_ & _ & Hn); [done | by vm_compute |].
  fold s1 in Hn. unfold fetched. by rewrite Hn.
Defined.



(** ** Node ids *)



(** ** The CSRF token *)

Section Cookies.

Implicit Types (s a b : string) (c sep : ascii).

Lemma append_cons c a b : String c a +:+ b = String c (a +:+ b).
Proof. reflexivity. Qed.

Lemma append_nil b : "" +:+ b = b.
Proof. reflexivity. Qed.

Lemma free_cons sep c s : freeOf sep (String c s) → c ≠ sep ∧ freeOf sep s.
Proof. intros H. split; [apply H; by left|]. intros c' Hc'. apply H. by right. Qed.

Lemma splitOn_free sep s : freeOf sep s → splitOn sep s = (s, []).
Proof.
  induction s as [|c s IH]; [done|]. intros [Hc Hs]%free_cons. simpl.
  rewrite (IH Hs). by rewrite (proj2 (Ascii.eqb_neq _ _) Hc).
Qed.

Lemma splitOn_append sep a b :
  freeOf sep a → splitOn sep (a +:+ String sep b) = (a, split sep b).
Proof.
  unfold split. induction a as [|c a IH].
  - intros _. rewrite append_nil. simpl. rewrite Ascii.eqb_refl.
    by destruct (splitOn sep b).
  - intros [Hc Ha]%free_cons. rewrite append_cons. simpl. rewrite (IH Ha).
    rewrite (proj2 (Ascii.eqb_neq _ _) Hc). by destruct (splitOn sep b).
Qed.

Lemma plain_cons c s :
  plain (String c s) = true →
  isWhiteSpace c = false ∧ c ≠ ";"%char ∧ c ≠ "="%char ∧ plain s = true.
Proof.
  simpl. intros [[[Hw Hs]%andb_true_iff He]%andb_true_iff Hp]%andb_true_iff.
  apply negb_true_iff in Hw, Hs, He. by rewrite !Ascii.eqb_neq in *.
Qed.

Lemma plain_free s (sep : ascii) :
  sep = ";"%char ∨ sep = "="%char → plain s = true → freeOf sep s.
Proof.
  intros Hsep. induction s as [|c s IH]; [by intros _ c' []|].
  intros (_ & Hs & He & Hp)%plain_cons c' [<- | Hin]; [|by apply IH].
  by destruct Hsep as [-> | ->].
Qed.

Lemma trim_solid s : solid s = true → trim s = s.
Proof.
  intros Hs. unfold trim.
  assert (trimStart s = s) as ->.
  { destruct s as [|c s]; [done|]. simpl in *.
    apply andb_true_iff in Hs as [Hc%negb_true_iff _]. by rewrite Hc. }
  induction s as [|c s IH]; [done|]. simpl in *.
  apply andb_true_iff in Hs as [Hc%negb_true_iff Hs]. rewrite (IH Hs), Hc.
  by destruct s.
Qed.

Lemma solid_append a b : solid a = true → solid b = true → solid (a +:+ b) = true.
Proof.
  intros Ha Hb. induction a as [|c a IH]; [done|]. rewrite append_cons. simpl in *.
  apply andb_true_iff in Ha as [-> Ha]. by apply IH.
Qed.

Lemma plain_solid s : plain s = true → solid s = true.
Proof.
  induction s as [|c s IH]; [done|]. intros (Hw & _ & _ & Hp)%plain_cons.
  simpl. by rewrite Hw, IH.
Qed.

Lemma cookiePair_trim (p : string * string) :
  plain p.1 = true → plain p.2 = true →
  trim (cookiePair p) = cookiePair p ∧ trim (" " +:+ cookiePair p) = cookiePair p.
Proof.
  intros H1 H2.
  assert (trim (cookiePair p) = cookiePair p) as Ht.
  { apply trim_solid. unfold cookiePair.
    apply solid_append; [by apply plain_solid|].
    apply (solid_append "="); [done | by apply plain_solid]. }
  split; [done|]. exact Ht.
Qed.

Lemma cookiePair_split (p : string * string) :
  plain p.1 = true → plain p.2 = true →
  splitOn "=" (cookiePair p) = (p.1, [p.2]).
Proof.
  intros H1 H2. unfold cookiePair. rewrite append_cons, append_nil.
  rewrite splitOn_append by (apply plain_free; auto).
  unfold split. by rewrite splitOn_free by (apply plain_free; auto).
Qed.

Lemma cookiePair_free (p : string * string) :
  plain p.1 = true → plain p.2 = true → freeOf ";"%char (cookiePair p).
Proof.
  intros H1 H2 c. unfold cookiePair.
  assert (∀ a b, In c (list_ascii_of_string (a +:+ b)) →
                 In c (list_ascii_of_string a) ∨ In c (list_ascii_of_string b)) as Happ.
  { intros a b. induction a as [|c' a IH]; [by right|]. rewrite append_cons. simpl.
    intros [? | ?%IH]; tauto. }
  intros [H | [[<- | []] | H]%Happ]%Happ; [|done|].
  - by apply (plain_free p.1 ";"%char (or_introl eq_refl) H1).
  - by apply (plain_free p.2 ";"%char (or_introl eq_refl) H2).
Qed.

Lemma splitOn_cons sep c s :
  splitOn sep (String c s)
  = (let '(piece, pieces) := splitOn sep s in
     if Ascii.eqb c sep then (EmptyString, piece :: pieces)
     else (String c piece, pieces)).
Proof. reflexivity. Qed.

(** The pieces of a cookie string. *)
Lemma split_cookieString (p : string * string) (rest : list (string * string)) :
  Forall (λ q, plain q.1 = true ∧ plain q.2 = true) (p :: rest) →
  split ";" (cookieString (p :: rest))
  = cookiePair p :: ((λ q, " " +:+ cookiePair q) <$> rest).
Proof.
  revert p. induction rest as [|q rest IH]; intros p Hall.
  - apply Forall_cons in Hall as [[H1 H2] _]. simpl cookieString.
    unfold split. by rewrite splitOn_free by (by apply cookiePair_free).
  - apply Forall_cons in Hall as [[H1 H2] Hrest].
    pose proof (IH q Hrest) as IHq. unfold split in IHq.
    change (cookieString (p :: q :: rest))
      with (cookiePair p +:+ String ";" (String " " (cookieString (q :: rest)))).
    unfold split at 1. rewrite splitOn_append by (by apply cookiePair_free).
    unfold split. rewrite splitOn_cons.
    destruct (splitOn ";" (cookieString (q :: rest))) as [piece pieces].
    injection IHq as -> ->. by rewrite fmap_cons.
Qed.

Lemma findToken_pairs (pad : list string) (pairs : list (string * string)) :
  Forall (λ q, plain q.1 = true ∧ plain q.2 = true) pairs →
  Forall2 (λ cookie q, cookie = cookiePair q ∨ cookie = " " +:+ cookiePair q) pad pairs →
  findToken pad
  = match List.find (λ q, String.eqb q.1 "csrftoken") pairs with
    | Some q => Some q.2
    | None => Some ""
    end.
Proof.
  intros Hall Hpad. induction Hpad as [|cookie q pad pairs Hc _ IH]; [done|].
  apply Forall_cons in Hall as [[H1 H2] Hrest]. simpl.
  assert (trim cookie = cookiePair q) as ->.
  { destruct (cookiePair_trim q H1 H2). by destruct Hc as [-> | ->]. }
  rewrite (cookiePair_split q H1 H2).
  destruct (String.eqb q.1 "csrftoken"); [done | by apply IH].
Qed.

End Cookies.

(** X23. The token is read back from a cookie string.  For a cookie
    string made of [name=value] pairs joined by a semicolon and a space,
    with names and values free of white space, semicolons and equals signs,
    [getCSRFToken] returns the value of the first pair named [csrftoken],
    and the empty string when there is none. *)
Theorem X23_csrf_token_read_back (pairs : list (string * string)) :
  Forall (λ q, plain q.1 = true ∧ plain q.2 = true) pairs →
  getCSRFToken (cookieString pairs)
  = match List.find (λ q, String.eqb q.1 "csrftoken") pairs with
    | Some q => Some q.2
    | None => Some ""
    end.
Proof.
  intros Hall. unfold getCSRFToken. destruct pairs as [|p rest]; [done|].
  rewrite split_cookieString by done. apply findToken_pairs; [done|].
  constructor; [by left|]. clear. induction rest as [|q rest IH]; [constructor|].
  rewrite fmap_cons. constructor; [by right | done].
Qed.

Lemma X23_witness :
  cookieString [("sessionid", "k3"); ("csrftoken", "T0k3n"); ("theme", "dark")]
  = "sessionid=k3; csrftoken=T0k3n; theme=dark" ∧
  getCSRFToken "sessionid=k3; csrftoken=T0k3n; theme=dark" = Some "T0k3n" ∧
  getCSRFToken "sessionid=k3; theme=dark" = Some "".
Proof.
  split; [reflexivity|]. split.
  - apply (X23_csrf_token_read_back
             [("sessionid", "k3"); ("csrftoken", "T0k3n"); ("theme", "dark")]).
    repeat constructor.
  - apply (X23_csrf_token_read_back [("sessionid", "k3"); ("theme", "dark")]).
    repeat constructor.
Defined.

Section TokenShape.

Implicit Types (s r : string) (c sep : ascii).

Lemma splitOn_pieces_free sep s :
  freeOf sep (splitOn sep s).1 ∧ Forall (freeOf sep) (splitOn sep s).2.
Proof.
  induction s as [|c s [IH1 IH2]]; [split; [by intros c [] | constructor]|].
  rewrite splitOn_cons. destruct (splitOn sep s) as [piece pieces]. simpl in *.
  destruct (Ascii.eqb_spec c sep) as [->|Hc]; simpl.
  - split; [by intros c [] | by constructor].
  - split; [|done]. intros c' [<- | Hin]; [done | by apply IH1].
Qed.

Lemma charsWithin_free sep r s : charsWithin r s → freeOf sep s → freeOf sep r.
Proof. intros Hr Hs c Hc. by apply Hs, Hr. Qed.

Lemma splitOn_pieces_within sep s :
  charsWithin (splitOn sep s).1 s ∧ Forall (λ r, charsWithin r s) (splitOn sep s).2.
Proof.
  induction s as [|c s [IH1 IH2]]; [split; [by intros c [] | constructor]|].
  rewrite splitOn_cons. destruct (splitOn sep s) as [piece pieces]. simpl in *.
  assert (Forall (λ r, charsWithin r (String c s)) (piece :: pieces)) as Hall.
  { constructor; [intros c' Hc'; right; by apply IH1|].
    eapply Forall_impl; [exact IH2|]. intros r Hr c' Hc'. right. by apply Hr. }
  destruct (Ascii.eqb c sep); simpl.
  - split; [by intros c' [] | done].
  - apply Forall_cons in Hall as [_ Hall]. split; [|done].
    intros c' [<- | Hin]; [by left | right; by apply IH1].
Qed.

Lemma trimStart_within s : charsWithin (trimStart s) s.
Proof.
  induction s as [|c s IH]; [by intros c []|]. simpl.
  destruct (isWhiteSpace c); [|by intros c' ?].
  intros c' Hc'. right. by apply IH.
Qed.

Lemma trimEnd_within s : charsWithin (trimEnd s) s.
Proof.
  induction s as [|c s IH]; [by intros c []|]. simpl. destruct (trimEnd s) as [|c0 r0].
  - destruct (isWhiteSpace c); [by intros c' []|]. intros c' [<- | []]. by left.
  - intros c' [<- | Hin]; [by left | right; by apply IH].
Qed.

Lemma trim_within s : charsWithin (trim s) s.
Proof. intros c Hc. by apply trimStart_within, trimEnd_within. Qed.

Lemma findToken_shape (cookies : list string) (v : string) :
  Forall (freeOf ";"%char) cookies → findToken cookies = Some v →
  freeOf ";"%char v ∧ freeOf "="%char v.
Proof.
  induction cookies as [|cookie rest IH]; simpl.
  { intros _ [= <-]. split; by intros c []. }
  intros [Hfree Hrest]%Forall_cons.
  pose proof (splitOn_pieces_free "=" (trim cookie)) as [_ Heq].
  pose proof (splitOn_pieces_within "=" (trim cookie)) as [_ Hin].
  destruct (splitOn "=" (trim cookie)) as [name more]. simpl in *.
  destruct (String.eqb name "csrftoken"); [|by apply IH].
  destruct more as [|value more]; [done|]. intros [= <-].
  apply Forall_cons in Heq as [Heq _]. apply Forall_cons in Hin as [Hin _].
  split; [|done]. eapply charsWithin_free; [exact Hin|].
  eapply charsWithin_free; [apply trim_within | done].
Qed.

End TokenShape.

(** X24. The token returned has no semicolon and no equals sign in it,
    whatever the cookie string: a value is cut at its first equals
    sign. *)
Theorem X24_csrf_token_has_no_separator (documentCookie v : string) :
  getCSRFToken documentCookie = Some v →
  freeOf ";"%char v ∧ freeOf "="%char v.
Proof.
  unfold getCSRFToken, split. apply findToken_shape.
  pose proof (splitOn_pieces_free ";" documentCookie) as [H1 H2].
  destruct (splitOn ";" documentCookie). by constructor.
Qed.

Lemma X24_witness :
  getCSRFToken "theme=dark;csrftoken=YWJj=ZGVm; x=1" = Some "YWJj" ∧
  freeOf "="%char "YWJj".
Proof.
  split; [reflexivity|].
  apply (X24_csrf_token_has_no_separator "theme=dark;csrftoken=YWJj=ZGVm; x=1" "YWJj").
  reflexivity.
Defined.

(** ** Leaving the page *)


